(** * Document translation pipeline: sanitizer, PPTX round trip, PDF layout

    A shallow embedding of the backend of the translator (the Express
    server with [cleanText], [handlePptxTranslation], [handlePdfTranslation],
    the [/api/translate] route and the [/api/status] route), the properties
    its specification states about it, and further properties of the code:
    its error paths, the invariants of its loops and how its steps compose.

    Conventions of the embedding.
    - A JavaScript string is the list of its UTF-16 code units, each an [N].
      [split], [trim], [replace], [match] and the regular expressions work on
      code units, exactly as in the engine.
    - A [Buffer] is a list of bytes, each an [N] below 256.
    - A JavaScript object used as a map is a [gmap] keyed by property names
      (strings); a number used as a key is first rendered in decimal.
    - A thrown [Error] is the [Throw] case of a [result], carrying the message.
    - The collaborators that are not part of the repository (the oracle,
      [pdfParse], the font metrics, what the page accepts to draw, the page
      size, [toLowerCase] and [localeCompare] on arbitrary Unicode, the
      clock) are fields of an environment record. *)

From Stdlib Require Import ZArith NArith List Bool Lia Floats QArith Lqa DecimalNat Sorted
  Permutation.
From Equations Require Import Equations.
From stdpp Require Import base option list strings gmap.
Import ListNotations.

(* ===================================================================== *)
(** * Part I. The embedding                                               *)
(* ===================================================================== *)

(** ** JavaScript strings *)

Abbreviation jsstring := (list N) (only parsing).
Abbreviation bytes := (list N) (only parsing).

(** A source literal, as code units. *)
Fixpoint lit (s : string) : jsstring :=
  match s with
  | EmptyString => []
  | String a r => Ascii.N_of_ascii a :: lit r
  end.
Arguments lit s%_string.

(** Truthiness of a string: the empty string is the only falsy one. *)
Definition truthy (s : jsstring) : bool :=
  match s with [] => false | _ :: _ => true end.

(** [a || b] where [a] is a property read (possibly [undefined]) of string
    type: [undefined] and the empty string both fall through to [b]. *)
Definition js_or (a : option jsstring) (b : jsstring) : jsstring :=
  match a with
  | Some r => if truthy r then r else b
  | None => b
  end.

(** ** The sanitizer: [cleanText] *)

Section Sanitizer.
Local Open Scope N_scope.

(** The object literal [charMap], key by key in source order. *)
Definition charTable : list (N * jsstring) :=
  [ (0x131, lit "i"); (0x130, lit "I"); (0x11F, lit "g"); (0x11E, lit "G");
    (0xFC, lit "u"); (0xDC, lit "U");
    (0x15F, lit "s"); (0x15E, lit "S"); (0xF6, lit "o"); (0xD6, lit "O");
    (0xE7, lit "c"); (0xC7, lit "C");
    (0x201C, [34]); (0x201D, [34]); (0x2018, lit "'"); (0x2019, lit "'");
    (0x2013, lit "-"); (0x2014, lit "-");
    (0x2026, lit "..."); (0x2122, lit "(TM)"); (0xA9, lit "(C)");
    (0xAE, lit "(R)") ].

(** Property read on an object literal given as its list of entries. *)
Fixpoint assoc (tbl : list (N * jsstring)) (k : N) : option jsstring :=
  match tbl with
  | [] => None
  | (k', v) :: rest => if k =? k' then Some v else assoc rest k
  end.

(** [charMap[char]]. *)
Definition charMap (char : N) : option jsstring := assoc charTable char.

(** The arrow function mapped over the characters:
    [char => charMap[char] || (char.charCodeAt(0) > 127 ? '?' : char)]. *)
Definition cleanChar (char : N) : jsstring :=
  js_or (charMap char) (if 127 <? char then lit "?" else [char]).

(** [cleanText(text)]: [text.split('').map(...).join('')], with the early
    return on a falsy argument. *)
Definition cleanText (text : jsstring) : jsstring :=
  if negb (truthy text) then [] else concat (map cleanChar text).

End Sanitizer.

(** ** String builtins used by the handlers *)

Section Builtins.
Local Open Scope N_scope.

(** Longest prefix whose code units satisfy [p], and what follows it: how a
    greedy character-class repetition such as [\d+], [\s*], [[^<]+] or [.*]
    consumes its input when what follows the repetition cannot start with a
    unit of the class (or is the end of the pattern). *)
Fixpoint take_while (p : N -> bool) (s : jsstring) : jsstring :=
  match s with
  | [] => []
  | c :: r => if p c then c :: take_while p r else []
  end.

Fixpoint drop_while (p : N -> bool) (s : jsstring) : jsstring :=
  match s with
  | [] => []
  | c :: r => if p c then drop_while p r else s
  end.

(** [s.startsWith(p)] and [s.endsWith(p)]. *)
Fixpoint startsWith (p s : jsstring) : bool :=
  match p, s with
  | [], _ => true
  | _ :: _, [] => false
  | a :: p', b :: s' => (a =? b) && startsWith p' s'
  end.

Definition endsWith (p s : jsstring) : bool :=
  (length p <=? length s)%nat && startsWith p (drop (length s - length p) s).

(** [s.split(sep)] for a separator of one code unit: never the empty array. *)
Fixpoint split (sep : N) (s : jsstring) : list jsstring :=
  match s with
  | [] => [[]]
  | c :: r =>
      if c =? sep then [] :: split sep r
      else match split sep r with
           | [] => [[c]]
           | w :: ws => (c :: w) :: ws
           end
  end.

(** [parts.join(sep)]. *)
Fixpoint join (sep : jsstring) (parts : list jsstring) : jsstring :=
  match parts with
  | [] => []
  | [x] => x
  | x :: rest => x ++ sep ++ join sep rest
  end.

(** [s.replace(pat, rep)] with a string pattern: the first occurrence only
    (the replacement used by the code is the empty string, which holds no
    [$] pattern). *)
Fixpoint replace_first (pat rep s : jsstring) : jsstring :=
  if startsWith pat s then rep ++ drop (length pat) s
  else match s with
       | [] => []
       | c :: r => c :: replace_first pat rep r
       end.

(** Line terminators: what [.] refuses to match. *)
Definition is_line_terminator (c : N) : bool :=
  (c =? 0x0A) || (c =? 0x0D) || (c =? 0x2028) || (c =? 0x2029).

(** White space and line terminators: the class [\s], and what [trim]
    strips. *)
Definition is_space (c : N) : bool :=
  ((0x09 <=? c) && (c <=? 0x0D)) || (c =? 0x20) || (c =? 0xA0)
  || (c =? 0x1680) || ((0x2000 <=? c) && (c <=? 0x200A))
  || (c =? 0x2028) || (c =? 0x2029) || (c =? 0x202F) || (c =? 0x205F)
  || (c =? 0x3000) || (c =? 0xFEFF).

(** The class [\d]. *)
Definition is_digit (c : N) : bool := (48 <=? c) && (c <=? 57).

(** [s.trim()]. *)
Definition trim (s : jsstring) : jsstring :=
  rev (drop_while is_space (rev (drop_while is_space s))).

(** [String(n)] for a non-negative integer: its decimal digits. *)
Fixpoint uint_digits (d : Decimal.uint) : jsstring :=
  match d with
  | Decimal.Nil => []
  | Decimal.D0 r => 48 :: uint_digits r
  | Decimal.D1 r => 49 :: uint_digits r
  | Decimal.D2 r => 50 :: uint_digits r
  | Decimal.D3 r => 51 :: uint_digits r
  | Decimal.D4 r => 52 :: uint_digits r
  | Decimal.D5 r => 53 :: uint_digits r
  | Decimal.D6 r => 54 :: uint_digits r
  | Decimal.D7 r => 55 :: uint_digits r
  | Decimal.D8 r => 56 :: uint_digits r
  | Decimal.D9 r => 57 :: uint_digits r
  end.

Definition decimal (n : nat) : jsstring := uint_digits (Nat.to_uint n).

(** The integer a digit string denotes (leading zeros allowed). *)
Definition digits_value (ds : jsstring) : N :=
  fold_left (fun acc d => 10 * acc + (d - 48)) ds 0.

End Builtins.

(** ** [Buffer]: UTF-8 decoding and encoding

    [buf.toString('utf8')] decodes with replacement: every maximal ill-formed
    byte sequence becomes U+FFFD, and a byte-order mark is kept.
    [Buffer.from(s, 'utf8')] encodes the code points of [s], a lone surrogate
    as U+FFFD. *)

Section Utf8.
Local Open Scope N_scope.

(** A code point as UTF-16 code units. *)
Definition utf16_of_code_point (cp : N) : jsstring :=
  if cp <? 0x10000 then [cp]
  else [0xD800 + N.shiftr (cp - 0x10000) 10;
        0xDC00 + N.land (cp - 0x10000) 0x3FF].

(** The decoder's state while inside a multi-byte sequence. *)
Record utf8_state := {
  code_point : N;
  bytes_needed : nat;
  lower_boundary : N;
  upper_boundary : N
}.

(** A byte met with no sequence pending: either output, or the state after a
    lead byte. *)
Definition utf8_lead (b : N) : jsstring + utf8_state :=
  if b <=? 0x7F then inl [b]
  else if (0xC2 <=? b) && (b <=? 0xDF) then
    inr {| code_point := N.land b 0x1F; bytes_needed := 1;
           lower_boundary := 0x80; upper_boundary := 0xBF |}
  else if (0xE0 <=? b) && (b <=? 0xEF) then
    inr {| code_point := N.land b 0xF; bytes_needed := 2;
           lower_boundary := if b =? 0xE0 then 0xA0 else 0x80;
           upper_boundary := if b =? 0xED then 0x9F else 0xBF |}
  else if (0xF0 <=? b) && (b <=? 0xF4) then
    inr {| code_point := N.land b 0x7; bytes_needed := 3;
           lower_boundary := if b =? 0xF0 then 0x90 else 0x80;
           upper_boundary := if b =? 0xF4 then 0x8F else 0xBF |}
  else inl [0xFFFD].

Fixpoint utf8_decode_from (st : option utf8_state) (bs : bytes) : jsstring :=
  match bs with
  | [] => match st with None => [] | Some _ => [0xFFFD] end
  | b :: rest =>
      match st with
      | Some s =>
          if (lower_boundary s <=? b) && (b <=? upper_boundary s) then
            let cp := N.lor (N.shiftl (code_point s) 6) (N.land b 0x3F) in
            match bytes_needed s with
            | S (S k) =>
                utf8_decode_from
                  (Some {| code_point := cp; bytes_needed := S k;
                           lower_boundary := 0x80; upper_boundary := 0xBF |})
                  rest
            | _ => utf16_of_code_point cp ++ utf8_decode_from None rest
            end
          else
            (* the pending sequence is ill-formed; the byte is read again *)
            0xFFFD ::
            match utf8_lead b with
            | inl out => out ++ utf8_decode_from None rest
            | inr s' => utf8_decode_from (Some s') rest
            end
      | None =>
          match utf8_lead b with
          | inl out => out ++ utf8_decode_from None rest
          | inr s' => utf8_decode_from (Some s') rest
          end
      end
  end.

(** [buf.toString('utf8')]. *)
Definition utf8_decode (bs : bytes) : jsstring := utf8_decode_from None bs.

Definition utf8_of_code_point (cp : N) : bytes :=
  if cp <? 0x80 then [cp]
  else if cp <? 0x800 then
    [0xC0 + N.shiftr cp 6; 0x80 + N.land cp 0x3F]
  else if cp <? 0x10000 then
    [0xE0 + N.shiftr cp 12; 0x80 + N.land (N.shiftr cp 6) 0x3F;
     0x80 + N.land cp 0x3F]
  else
    [0xF0 + N.shiftr cp 18; 0x80 + N.land (N.shiftr cp 12) 0x3F;
     0x80 + N.land (N.shiftr cp 6) 0x3F; 0x80 + N.land cp 0x3F].

Definition is_high_surrogate (c : N) : bool := (0xD800 <=? c) && (c <=? 0xDBFF).
Definition is_low_surrogate (c : N) : bool := (0xDC00 <=? c) && (c <=? 0xDFFF).

(** [Buffer.from(s, 'utf8')]. *)
Fixpoint utf8_encode (s : jsstring) : bytes :=
  match s with
  | [] => []
  | c :: rest =>
      if is_high_surrogate c then
        match rest with
        | d :: rest' =>
            if is_low_surrogate d then
              utf8_of_code_point
                (0x10000 + N.shiftl (c - 0xD800) 10 + (d - 0xDC00))
              ++ utf8_encode rest'
            else utf8_of_code_point 0xFFFD ++ utf8_encode rest
        | [] => utf8_of_code_point 0xFFFD
        end
      else if is_low_surrogate c then
        utf8_of_code_point 0xFFFD ++ utf8_encode rest
      else utf8_of_code_point c ++ utf8_encode rest
  end.

End Utf8.

(** ** The two regular expressions *)

Section Regex.
Local Open Scope N_scope.

(** One attempt of [/<a:t>([^<]+)<\/a:t>/] at the start of [s]: the capture
    [p1] and what follows the match.  After the opening marker the class
    [[^<]+] takes every unit up to the next [<]; a shorter capture could
    only be followed by a unit that is not [<], so no backtracking changes
    the outcome. *)
Definition not_lt (c : N) : bool := negb (c =? 60).

Definition match_run (s : jsstring) : option (jsstring * jsstring) :=
  if startsWith (lit "<a:t>") s then
    let body := drop 5 s in
    let p1 := take_while not_lt body in
    let after := drop_while not_lt body in
    if truthy p1 && startsWith (lit "</a:t>") after
    then Some (p1, drop 6 after)
    else None
  else None.

(** The text of a whole match with capture [p1]. *)
Definition run_text (p1 : jsstring) : jsstring :=
  lit "<a:t>" ++ p1 ++ lit "</a:t>".

(** What the global flag iterates over: the successive matches, and between
    them the code units no match covers. *)
Inductive token :=
| Lit (c : N)
| Run (p1 : jsstring).

Lemma match_run_shorter s p1 rest :
  match_run s = Some (p1, rest) -> (length rest < length s)%nat.
Proof.
  unfold match_run. destruct (startsWith _ s) eqn:Hs; [|discriminate].
  destruct (truthy _ && _) eqn:Ht; [|discriminate].
  intros [= <- <-]. rewrite !length_drop.
  assert (length (drop_while not_lt (drop 5 s)) <= length (drop 5 s))%nat as H.
  { generalize (drop 5 s). induction l as [|c l IH]; simpl; [lia|].
    destruct (not_lt c); simpl; lia. }
  rewrite length_drop in H.
  destruct s as [|? [|? [|? [|? [|? s]]]]]; simpl in *; try discriminate; lia.
Qed.

(** A value together with the equation that names it, so that a recursive
    call may use what a test returned. *)
Definition inspect {A : Type} (a : A) : {b : A | a = b} := exist _ a eq_refl.

(** The matches of the pattern over [s], left to right, each attempt starting
    where the previous match ended, or one unit further after a failure. *)
Equations? scan_runs (s : jsstring) : list token by wf (length s) lt :=
  scan_runs [] := [];
  scan_runs (c :: tl) with inspect (match_run (c :: tl)) := {
    | exist _ (Some (p1, rest)) _ := Run p1 :: scan_runs rest;
    | exist _ None _ := Lit c :: scan_runs tl }.
Proof.
  - apply (match_run_shorter (c :: tl) p1 rest). assumption.
  - simpl. lia.
Qed.

(** [s.match(/<a:t>([^<]+)<\/a:t>/g)]: the array of whole matches, or [null]
    when there is none. *)
Definition run_matches (toks : list token) : list jsstring :=
  flat_map (fun t => match t with Run p1 => [run_text p1] | Lit _ => [] end) toks.

Definition String_match_runs (s : jsstring) : option (list jsstring) :=
  match run_matches (scan_runs s) with
  | [] => None
  | ms => Some ms
  end.

(** [s.replace(/<a:t>([^<]+)<\/a:t>/g, cb)]: the callback is called once per
    match, in order, with the whole match and the capture; what it returns
    replaces the match.  The callback is a closure over mutable variables,
    threaded here as a state of type [St]. *)
Definition String_replace_runs {St : Type}
    (cb : St -> jsstring -> jsstring -> St * jsstring)
    (st : St) (s : jsstring) : St * jsstring :=
  fold_left
    (fun '(st, out) t =>
       match t with
       | Lit c => (st, out ++ [c])
       | Run p1 => let '(st', r) := cb st (run_text p1) p1 in (st', out ++ r)
       end)
    (scan_runs s) (st, []).

(** [line.match(re)] for the line pattern of the batch protocol: an opening
    bracket at the start of the line, one or more digits (first capture), a
    closing bracket and a colon, any white space, then any units but line
    terminators (second capture).  The digits class takes every leading
    digit (the next pattern unit is not a digit), the white-space class every
    following white-space unit and the last class the rest up to a line
    terminator; nothing follows it in the pattern, so the first attempt
    succeeds. *)
Definition line_match (line : jsstring) : option (jsstring * jsstring) :=
  match line with
  | 91 :: r =>
      let ds := take_while is_digit r in
      match ds, drop_while is_digit r with
      | _ :: _, 93 :: 58 :: r2 =>
          Some (ds, take_while (fun c => negb (is_line_terminator c))
                      (drop_while is_space r2))
      | _, _ => None
      end
  | _ => None
  end.

End Regex.

(** ** Numbers: [Math.round] on binary64 *)

(** What [Math.round] returns: an integer, or its argument when that is not
    finite. *)
Inductive rounded :=
| Finite (z : Z)
| NotANumber
| Infinite (negative : bool).

(** [Math.round(x)]: the integer closest to [x], ties towards plus infinity,
    computed exactly from the sign, mantissa and exponent of [x]. *)
Definition Math_round (x : float) : rounded :=
  match Prim2SF x with
  | S754_zero _ => Finite 0
  | S754_finite s m e =>
      let v := if s then Z.neg m else Z.pos m in
      Finite (if (0 <=? e)%Z then v * 2 ^ e
              else (2 * v + 2 ^ (- e)) / 2 ^ (- e + 1))%Z
  | S754_nan => NotANumber
  | S754_infinity s => Infinite s
  end.

(** An array length or index as a number (exact below 2^53). *)
Definition number_of_nat (n : nat) : float :=
  PrimFloat.of_uint63 (Uint63.of_Z (Z.of_nat n)).

(** A rounded number inside a template literal. *)
Definition number_text (r : rounded) : jsstring :=
  match r with
  | Finite z =>
      if (z <? 0)%Z then lit "-" ++ decimal (Z.to_nat (- z))
      else decimal (Z.to_nat z)
  | NotANumber => lit "NaN"
  | Infinite s => if s then lit "-Infinity" else lit "Infinity"
  end.

(** ** Results, jobs and the environment *)

(** A computation that returns or throws an [Error] with a message. *)
Inductive result (A : Type) :=
| Ok (a : A)
| Throw (message : jsstring).
Arguments Ok {A} a.
Arguments Throw {A} message.

Inductive status :=
| starting | extracting | translating | generating | completed | error.

Record Job := { job_status : status; job_message : jsstring }.

(** The process-wide [jobs] object, and the sequence of the writes made to
    it (what a client polling after every write would see). *)
Record world := {
  jobs : gmap jsstring Job;
  history : list (jsstring * Job)
}.

Definition set_job (jobId : jsstring) (j : Job) (w : world) : world :=
  {| jobs := <[jobId := j]> (jobs w); history := history w ++ [(jobId, j)] |}.

(** A part of the archive: [entry.entryName] and [entry.getData()]. *)
Record entry := { entryName : jsstring; data : bytes }.

(** The archive as [zip.getEntries()] lists it. *)
Abbreviation zip := (list entry) (only parsing).

(** [zip.updateFile(name, content)]: the archive looks the name up in its
    table of entries, where the last entry read under a name is the one
    kept, and sets that entry's data; an unknown name changes nothing. *)
Fixpoint updateFile (name : jsstring) (content : bytes) (z : zip) : zip :=
  match z with
  | [] => []
  | e :: rest =>
      if bool_decide (entryName e = name)
         && negb (existsb (fun e' => bool_decide (entryName e' = name)) rest)
      then {| entryName := entryName e; data := content |} :: rest
      else e :: updateFile name content rest
  end.

(** One drawn line of the output PDF. *)
Record draw := { draw_page : nat; draw_x : Q; draw_y : Q; draw_text : jsstring }.

(** The output PDF: how many pages it has and what was drawn, in order. *)
Record pdf := { pages : nat; draws : list draw }.

(** The collaborators outside the repository. *)
Record env := {
  (** [groq.chat.completions.create] with a system and a user message: the
      content of the first choice (possibly missing), or an exception. *)
  oracle : jsstring -> jsstring -> result (option jsstring);
  (** [new AdmZip(path).getEntries()]. *)
  readZip : bytes -> result (list entry);
  (** [pdfParse(buffer)], its [text] field. *)
  pdfParse : bytes -> result jsstring;
  (** [font.widthOfTextAtSize(text, size)], which throws on a glyph the
      font cannot encode. *)
  widthOfTextAtSize : jsstring -> Q -> result Q;
  (** Whether [page.drawText(text, { x, y, size, font })] returns or throws:
      the page encodes the text with the font, after a cleaning of its own
      that the font's measurement does not make, and throws on a unit the
      font cannot encode. *)
  encodeText : jsstring -> result unit;
  (** The page encodes with the encoder the font measures with: a text the
      font measures holds only units it encodes, and the sanitizer adds none
      but printable ASCII; so the page draws the sanitized form of every
      text the font measures. *)
  draws_what_it_measures :
    forall text size wd,
      widthOfTextAtSize text size = Ok wd -> encodeText (cleanText text) = Ok tt;
  (** [page.getSize()] of a fresh page: width and height. *)
  pageSize : Q * Q;
  (** [String.prototype.toLowerCase]. *)
  toLowerCase : jsstring -> jsstring;
  (** [a.localeCompare(b)], as its sign. *)
  localeCompare : jsstring -> jsstring -> comparison;
  (** [Date.now().toString()]. *)
  now : jsstring
}.

(** ** [handlePptxTranslation] *)

Section Pptx.
Context (E : env).

(** The name test of both loops over the entries. *)
Definition is_slide (name : jsstring) : bool :=
  startsWith (lit "ppt/slides/slide") name && endsWith (lit ".xml") name.

(** Step 1, the body of [matches.forEach]. *)
Definition push_match (allText : list jsstring) (m : jsstring) : list jsstring :=
  let text := replace_first (lit "</a:t>") [] (replace_first (lit "<a:t>") [] m) in
  if truthy (trim text) then allText ++ [text] else allText.

(** Step 1, the body of the loop over the entries. *)
Definition gather_entry (allText : list jsstring) (e : entry) : list jsstring :=
  if is_slide (entryName e) then
    let content := utf8_decode (data e) in
    match String_match_runs content with
    | Some matches => fold_left push_match matches allText
    | None => allText
    end
  else allText.

Definition gather (zipEntries : list entry) : list jsstring :=
  fold_left gather_entry zipEntries [].

Definition chunkSize : nat := 50.

(** [Math.ceil(allText.length / chunkSize)]; the quotient of two array
    lengths is far from the range where rounding could cross an integer. *)
Definition totalChunks (allText : list jsstring) : nat :=
  (length allText / chunkSize + (if (length allText mod chunkSize =? 0)%nat then 0 else 1))%nat.

(** [Math.round((currentChunkIdx / totalChunks) * 100)] for the chunk that
    starts at [i], in binary64 as the engine computes it. *)
Definition percentage (allText : list jsstring) (i : nat) : rounded :=
  let currentChunkIdx := (i / chunkSize + 1)%nat in
  Math_round (PrimFloat.mul
                (PrimFloat.div (number_of_nat currentChunkIdx)
                               (number_of_nat (totalChunks allText)))
                (number_of_nat 100)).

Definition translating_job (allText : list jsstring) (i : nat) : Job :=
  {| job_status := translating;
     job_message := lit "Translating content... (" ++ number_text (percentage allText i)
                    ++ lit "%)" |}.

(** [allText.slice(i, i + chunkSize)]. *)
Definition chunk_at (allText : list jsstring) (i : nat) : list jsstring :=
  take chunkSize (drop i allText).

(** The user message of a chunk: one line per unit, its id in brackets. *)
Definition promptText (i : nat) (chunk : list jsstring) : jsstring :=
  join [10%N]
    (imap (fun idx text => lit "[" ++ decimal (i + idx) ++ lit "]: " ++ text) chunk).

Definition pptx_system_prompt (targetLanguage : jsstring) : jsstring :=
    join [10%N]
    [
      lit "You are an elite academic and technical translator. ";
      lit "                    Translate the following numbered list into " ++ targetLanguage ++ lit ". ";
      lit "                    ";
      lit "                    GUIDELINES:";
      lit "                    1. Use a highly formal, academic, and professional tone.";
      lit "                    2. Maintain technical integrity. Terms like 'Deadlock', 'Race Condition', 'Throughput', 'Latency' should remain in English if they are the academic standard, or use the most accepted formal academic equivalent in " ++ targetLanguage ++ lit ".";
      lit "                    3. Do not use colloquialisms. Ensure sentences are flowy and grammatically superior.";
      lit "                    4. Keep the original numbers in brackets (e.g., [0], [1]).";
      lit "                    5. Return ONLY the translated list." ].

(** The body of [lines.forEach]: a matching line overwrites the entry of
    its bracketed digits. *)
Definition record_line (translations : gmap jsstring jsstring) (line : jsstring)
    : gmap jsstring jsstring :=
  match line_match line with
  | Some (k, v) => <[k := v]> translations
  | None => translations
  end.

Definition record_response (translations : gmap jsstring jsstring)
    (translatedChunk : jsstring) : gmap jsstring jsstring :=
  fold_left record_line (split 10%N translatedChunk) translations.

(** Step 2: the loop [for (let i = 0; i < allText.length; i += chunkSize)],
    entered at [i]. *)
Equations? translate_from (jobId targetLanguage : jsstring)
    (allText : list jsstring) (i : nat) (w : world)
    (translations : gmap jsstring jsstring)
    : world * result (gmap jsstring jsstring)
    by wf (length allText - i)%nat lt :=
  translate_from jobId targetLanguage allText i w translations
    with inspect (i <? length allText)%nat := {
    | exist _ false _ := (w, Ok translations);
    | exist _ true _
        with oracle E (pptx_system_prompt targetLanguage)
                      (promptText i (chunk_at allText i)) := {
        | Throw m := (set_job jobId (translating_job allText i) w, Throw m);
        | Ok content :=
            translate_from jobId targetLanguage allText (i + chunkSize)
              (set_job jobId (translating_job allText i) w)
              (record_response translations (js_or content [])) } }.
Proof.
  apply Nat.ltb_lt in e. unfold chunkSize. lia.
Qed.

(** Step 3, the callback of [content.replace]: the closure variable
    [currentTextIdx] is the threaded state. *)
Definition rewrite_run (translations : gmap jsstring jsstring)
    (currentTextIdx : nat) (match_ p1 : jsstring) : nat * jsstring :=
  let originalText := trim p1 in
  if truthy originalText then
    let translated := js_or (translations !! decimal currentTextIdx) p1 in
    let cleaned := cleanText translated in
    (S currentTextIdx, lit "<a:t>" ++ cleaned ++ lit "</a:t>")
  else (currentTextIdx, match_).

(** Step 3, the body of the loop for the entry at position [k]: its data is
    read from the archive as the previous iterations left it. *)
Definition reconstruct_entry (translations : gmap jsstring jsstring)
    (st : nat * list entry) (k : nat) : nat * list entry :=
  let '(currentTextIdx, z) := st in
  match z !! k with
  | Some e =>
      if is_slide (entryName e) then
        let content := utf8_decode (data e) in
        let '(idx', content') :=
          String_replace_runs (rewrite_run translations) currentTextIdx content in
        (idx', updateFile (entryName e) (utf8_encode content') z)
      else st
  | None => st
  end.

Definition reconstruct (translations : gmap jsstring jsstring)
    (z : list entry) : list entry :=
  snd (fold_left (reconstruct_entry translations) (seq 0 (length z)) (0%nat, z)).

(** The sort [zip.toBuffer()] starts with: the archive orders its entries
    by lower-cased name,
    [a.entryName.toLowerCase().localeCompare(b.entryName.toLowerCase())];
    the sort is stable, entries of equal rank keep their order. *)
Definition entry_rank (a b : entry) : comparison :=
  localeCompare E (toLowerCase E (entryName a)) (toLowerCase E (entryName b)).

Fixpoint insert_entry (e : entry) (sorted : list entry) : list entry :=
  match sorted with
  | [] => [e]
  | x :: rest =>
      match entry_rank e x with
      | Gt => x :: insert_entry e rest
      | _ => e :: x :: rest
      end
  end.

Fixpoint sortEntries (z : list entry) : list entry :=
  match z with
  | [] => []
  | e :: rest => insert_entry e (sortEntries rest)
  end.

(** [zip.toBuffer()]: the entries of the archive written, in the order they
    are written. *)
Definition toBuffer (z : list entry) : list entry := sortEntries z.

(** The handler: the archive it sends, or the error it throws. *)
Definition handlePptxTranslation (file_content : bytes)
    (jobId targetLanguage : jsstring) (w : world) : world * result (list entry) :=
  let w := set_job jobId {| job_status := extracting;
                            job_message := lit "Extracting slides..." |} w in
  match readZip E file_content with
  | Throw m => (w, Throw m)
  | Ok zipEntries =>
      let allText := gather zipEntries in
      if (length allText =? 0)%nat then
        (w, Throw (lit "No text found in presentation."))
      else
        match translate_from jobId targetLanguage allText 0 w ∅ with
        | (w, Throw m) => (w, Throw m)
        | (w, Ok translations) =>
            let w := set_job jobId {| job_status := generating;
                       job_message := lit "Reconstructing the slides..." |} w in
            let pptxBuffer := toBuffer (reconstruct translations zipEntries) in
            (set_job jobId {| job_status := completed;
                              job_message := lit "Slide translation ready!" |} w,
             Ok pptxBuffer)
        end
  end.

End Pptx.

(** ** [handlePdfTranslation] *)

Section Pdf.
Context (E : env).

Definition fontSize : Q := 12.
Definition margin : Q := 50.

(** [a < b] on coordinates.  Coordinates and widths are exact rationals
    here; the code only subtracts constants from them and compares them. *)
Definition Qltb (a b : Q) : bool := negb (Qle_bool b a).

(** The variables of the layout loops: the current page (by index), the
    vertical cursor [y], and what has been drawn so far. *)
Record cursor := {
  cur_page : nat;
  cur_y : Q;
  cur_draws : list draw
}.

Definition page_width : Q := fst (pageSize E).
Definition page_height : Q := snd (pageSize E).
Definition maxWidth : Q := page_width - margin * 2.

(** [page = pdfDoc.addPage(); y = height - margin]. *)
Definition new_page (c : cursor) : cursor :=
  {| cur_page := S (cur_page c); cur_y := page_height - margin;
     cur_draws := cur_draws c |}.

(** [if (y < margin + fontSize) { page = pdfDoc.addPage(); y = height - margin; }] *)
Definition check_page (c : cursor) : cursor :=
  if Qltb (cur_y c) (margin + fontSize) then new_page c else c.

(** The cursor once a text is drawn at the left margin, at the height of
    the cursor. *)
Definition drawn (text : jsstring) (c : cursor) : cursor :=
  {| cur_page := cur_page c; cur_y := cur_y c;
     cur_draws := cur_draws c ++
       [{| draw_page := cur_page c; draw_x := margin; draw_y := cur_y c;
           draw_text := text |}] |}.

(** [page.drawText(text, { x: margin, y, size: fontSize, font })]: the
    text is drawn, or the call throws and nothing is drawn. *)
Definition drawText (text : jsstring) (c : cursor) : result cursor :=
  match encodeText E text with
  | Ok _ => Ok (drawn text c)
  | Throw m => Throw m
  end.

(** [y -= d]. *)
Definition advance (d : Q) (c : cursor) : cursor :=
  {| cur_page := cur_page c; cur_y := cur_y c - d; cur_draws := cur_draws c |}.

(** The [try]/[catch] around the measurement: the call inside the [catch]
    is not guarded, so a second failure is not caught. *)
Definition testWidth (currentLine word testLine : jsstring) : result Q :=
  match widthOfTextAtSize E testLine fontSize with
  | Ok w => Ok w
  | Throw _ =>
      widthOfTextAtSize E (if truthy currentLine then currentLine else word) fontSize
  end.

(** The loop over the words of a line; returns [currentLine] as the loop
    leaves it. *)
Fixpoint place_words (c : cursor) (currentLine : jsstring) (words : list jsstring)
    : cursor * result jsstring :=
  match words with
  | [] => (c, Ok currentLine)
  | word :: rest =>
      let testLine :=
        if truthy currentLine then currentLine ++ lit " " ++ word else word in
      match testWidth currentLine word testLine with
      | Throw m => (c, Throw m)
      | Ok w =>
          if Qltb maxWidth w then
            let cleanedLine := cleanText currentLine in
            match drawText cleanedLine c with
            | Throw m => (c, Throw m)
            | Ok c =>
                let c := advance (fontSize + 5) c in
                place_words (check_page c) word rest
            end
          else place_words c testLine rest
      end
  end.

(** The body of the loop over the lines. *)
Definition place_line (c : cursor) (line : jsstring) : cursor * result unit :=
  match place_words (check_page c) [] (split 32%N line) with
  | (c, Throw m) => (c, Throw m)
  | (c, Ok currentLine) =>
      if truthy currentLine then
        match drawText (cleanText currentLine) c with
        | Throw m => (c, Throw m)
        | Ok c => (advance (fontSize + 10) c, Ok tt)
        end
      else (c, Ok tt)
  end.

Fixpoint place_lines (c : cursor) (lines : list jsstring) : cursor * result unit :=
  match lines with
  | [] => (c, Ok tt)
  | line :: rest =>
      match place_line c line with
      | (c, Throw m) => (c, Throw m)
      | (c, Ok _) => place_lines c rest
      end
  end.

(** The cursor after [let page = pdfDoc.addPage(); let y = height - margin]. *)
Definition first_page : cursor :=
  {| cur_page := 0; cur_y := page_height - margin; cur_draws := [] |}.

(** Step 3 of the handler: the layout of the translated text. *)
Definition layout (translatedText : jsstring) : cursor * result unit :=
  place_lines first_page (split 10%N translatedText).

Definition pdf_system_prompt (targetLanguage : jsstring) : jsstring :=
    join [10%N]
    [
      lit "You are an elite academic and technical translator. ";
      lit "                Translate the provided text into " ++ targetLanguage ++ lit ". ";
      lit "                ";
      lit "                GUIDELINES:";
      lit "                1. Use a highly formal, academic, and professional tone.";
      lit "                2. Maintain technical integrity. Keep industry-standard English terms where they are the academic norm.";
      lit "                3. Ensure the translation is contextually consistent and logically sound.";
      lit "                4. Maintain original structure and professional formatting.";
      lit "                5. Return ONLY the translation." ].

(** The handler: the document it sends, or the error it throws. *)
Definition handlePdfTranslation (file_content : bytes)
    (jobId targetLanguage : jsstring) (w : world) : world * result pdf :=
  let w := set_job jobId {| job_status := extracting;
                            job_message := lit "Extracting text from PDF..." |} w in
  match pdfParse E file_content with
  | Throw m => (w, Throw m)
  | Ok originalText =>
      if negb (truthy (trim originalText)) then
        (w, Throw (lit "Could not extract text from PDF."))
      else
        let w := set_job jobId {| job_status := translating;
                   job_message := lit "Translating document... (50%)" |} w in
        match oracle E (pdf_system_prompt targetLanguage) originalText with
        | Throw m => (w, Throw m)
        | Ok content =>
            let translatedText := cleanText (js_or content []) in
            if negb (truthy translatedText) then
              (w, Throw (lit "Empty translation received from Groq."))
            else
              let w := set_job jobId {| job_status := generating;
                         job_message := lit "Generating translated PDF..." |} w in
              match layout translatedText with
              | (_, Throw m) => (w, Throw m)
              | (c, Ok _) =>
                  (set_job jobId {| job_status := completed;
                                    job_message := lit "PDF translation ready!" |} w,
                   Ok {| pages := S (cur_page c); draws := cur_draws c |})
              end
        end
  end.

End Pdf.

(** ** The route [POST /api/translate] *)

Section Route.
Context (E : env).

(** [req.file] as the upload middleware leaves it. *)
Record file := { originalname : jsstring; file_content : bytes }.

Record request := {
  body_jobId : option jsstring;
  body_targetLanguage : option jsstring;
  req_file : option file
}.

Inductive body :=
| Text (s : jsstring)
| Pptx (z : list entry)
| Pdf (d : pdf).

Record response := { status_code : N; res_body : body }.

(** [req.file.originalname.toLowerCase().endsWith('.pptx')]. *)
Definition isPptx (f : file) : bool :=
  endsWith (lit ".pptx") (toLowerCase E (originalname f)).

(** The [if (isPptx) ... else ...] of the handler. *)
Definition dispatch (f : file) (jobId targetLanguage : jsstring) (w : world)
    : world * result body :=
  if isPptx f then
    match handlePptxTranslation E (file_content f) jobId targetLanguage w with
    | (w, Ok z) => (w, Ok (Pptx z))
    | (w, Throw m) => (w, Throw m)
    end
  else
    match handlePdfTranslation E (file_content f) jobId targetLanguage w with
    | (w, Ok d) => (w, Ok (Pdf d))
    | (w, Throw m) => (w, Throw m)
    end.

(** The handler of the route, with its [try]/[catch]. *)
Definition translate_route (req : request) (w : world) : world * response :=
  let jobId := js_or (body_jobId req) (now E) in
  let w := set_job jobId {| job_status := starting;
                            job_message := lit "Initializing..." |} w in
  match req_file req with
  | None =>
      (set_job jobId {| job_status := error;
                        job_message := lit "No file uploaded." |} w,
       {| status_code := 400; res_body := Text (lit "No file uploaded.") |})
  | Some f =>
      let targetLanguage := js_or (body_targetLanguage req) (lit "Turkish") in
      match dispatch f jobId targetLanguage w with
      | (w, Ok b) => (w, {| status_code := 200; res_body := b |})
      | (w, Throw m) =>
          (set_job jobId {| job_status := error; job_message := m |} w,
           {| status_code := 500;
              res_body := Text (lit "An error occurred during translation: " ++ m) |})
      end
  end.

End Route.

(** ** The route [GET /api/status/:jobId] *)

Section StatusRoute.

(** The names every object inherits from [Object.prototype]: a read of
    [jobs[name]] finds a value under them also when no job was recorded.
    The tracker is a plain object, so a write under the name [__proto__]
    sets its prototype instead of adding a record; the properties of this
    route leave that id out. *)
Definition object_prototype_names : list jsstring :=
  [ lit "constructor"; lit "__defineGetter__"; lit "__defineSetter__";
    lit "hasOwnProperty"; lit "__lookupGetter__"; lit "__lookupSetter__";
    lit "isPrototypeOf"; lit "propertyIsEnumerable"; lit "toString";
    lit "valueOf"; lit "__proto__"; lit "toLocaleString" ].

(** What [res.json] is given. *)
Inductive status_body :=
| Job_record (j : Job)
  (** the record of the job *)
| Job_not_found
  (** [{ status: 'unknown', message: 'Job not found' }] *)
| Inherited_value (name : jsstring).
  (** the value [Object.prototype] holds under the name, which is truthy *)

(** [jobs[req.params.jobId] || { status: 'unknown', message: 'Job not found' }];
    a job record is an object, hence truthy. *)
Definition status_route (jobId : jsstring) (w : world) : status_body :=
  match jobs w !! jobId with
  | Some j => Job_record j
  | None =>
      if bool_decide (jobId ∈ object_prototype_names) then Inherited_value jobId
      else Job_not_found
  end.

End StatusRoute.

(** ** Vocabulary of the properties *)

Section Vocabulary.
Local Open Scope N_scope.

(** *** The sanitizer *)

(** The printable 7-bit range: space to tilde. *)
Definition printable (c : N) : Prop := 32 <= c <= 126.

(** [c] occurs in the image of some key of the substitution table. *)
Definition table_image (c : N) : Prop :=
  exists k img, charMap k = Some img /\ In c img.

(** *** The response of the oracle *)

(** The texts of the lines whose bracketed digits denote the integer [n],
    in response order. *)
Definition texts_for_id (n : N) (lines : list jsstring) : list jsstring :=
  flat_map (fun l => match line_match l with
                     | Some (ds, v) => if digits_value ds =? n then [v] else []
                     | None => []
                     end) lines.

(** The texts of the lines whose bracketed digits are exactly [k], in
    response order. *)
Definition texts_for_key (k : jsstring) (lines : list jsstring) : list jsstring :=
  flat_map (fun l => match line_match l with
                     | Some (ds, v) => if bool_decide (ds = k) then [v] else []
                     | None => []
                     end) lines.

(** The prompt line of the unit numbered [m]. *)
Definition prompt_line (m : nat) (text : jsstring) : jsstring :=
  lit "[" ++ decimal m ++ lit "]: " ++ text.

(** What the line pattern captures from the prompt line of a unit: the text
    without its leading white space, up to its first line terminator. *)
Definition parsed_back (text : jsstring) : jsstring :=
  take_while (fun c => negb (is_line_terminator c)) (drop_while is_space text).

(** No line feed in a text. *)
Definition one_line (text : jsstring) : Prop :=
  forallb (fun c => negb (c =? 10)) text = true.

(** A text that is read back whole: no leading white space, no line
    terminator. *)
Definition plain (p1 : jsstring) : Prop :=
  drop_while is_space p1 = p1
  /\ forallb (fun c => negb (is_line_terminator c)) p1 = true.

(** *** Tokens of a part *)

(** The text a token stands for, and the text of a list of tokens. *)
Definition token_text (t : token) : jsstring :=
  match t with
  | Lit c => [c]
  | Run p1 => run_text p1
  end.

Definition render (toks : list token) : jsstring := concat (map token_text toks).

(** A capture of the run pattern: one unit or more, none of them [<]. *)
Definition capture (p1 : jsstring) : Prop := p1 <> [] /\ forallb not_lt p1 = true.

(** A canonical list of tokens: every run has a capture, and at no literal
    does an attempt of the pattern succeed. *)
Fixpoint canonical (toks : list token) : Prop :=
  match toks with
  | [] => True
  | Lit c :: rest => match_run (c :: render rest) = None /\ canonical rest
  | Run p1 :: rest => capture p1 /\ canonical rest
  end.

(** Whether an attempt of the pattern succeeds. *)
Definition matches (s : jsstring) : bool :=
  startsWith (lit "<a:t>") s
  && (truthy (take_while not_lt (drop 5 s))
      && startsWith (lit "</a:t>") (drop_while not_lt (drop 5 s))).

(** Two lists of tokens with the same literals and, at the same places,
    runs whose captures may differ. *)
Definition same_shape (toks toks' : list token) : Prop :=
  Forall2 (fun t t' => match t, t' with
                       | Lit c, Lit c' => c = c'
                       | Run _, Run p' => capture p'
                       | _, _ => False
                       end) toks toks'.

(** A capture that is not only white space: the test [text.trim()] of the
    extraction and [p1.trim()] of the reassembly. *)
Definition nonblank (p1 : jsstring) : bool := truthy (trim p1).

(** The text units among the tokens of a part, in order. *)
Definition units (toks : list token) : list jsstring :=
  flat_map (fun t => match t with
                     | Run p1 => if nonblank p1 then [p1] else []
                     | Lit _ => []
                     end) toks.

(** The tokens of a part, and the text units of a part. *)
Definition entry_tokens (e : entry) : list token :=
  scan_runs (utf8_decode (data e)).

Definition entry_units (e : entry) : list jsstring :=
  if is_slide (entryName e) then units (entry_tokens e) else [].

(** The tokens of a part after the round trip. *)
Definition echo_tokens (toks : list token) : list token :=
  map (fun t => match t with
                | Lit c => Lit c
                | Run p1 => if nonblank p1 then Run (cleanText (parsed_back p1))
                            else Run p1
                end) toks.

(** *** What the reassembly writes *)

(** What the reassembly writes for each token of a part, [idx] being the
    value of [currentTextIdx] when the first token is met. *)
Fixpoint pieces (translations : gmap jsstring jsstring) (idx : nat)
    (toks : list token) : list jsstring :=
  match toks with
  | [] => []
  | Lit c :: rest => [c] :: pieces translations idx rest
  | Run p1 :: rest =>
      if nonblank p1 then
        (lit "<a:t>" ++ cleanText (js_or (translations !! decimal idx) p1)
           ++ lit "</a:t>")
        :: pieces translations (S idx) rest
      else run_text p1 :: pieces translations idx rest
  end.

(** Each token with the value of [currentTextIdx] when it is met. *)
Fixpoint number_runs (idx : nat) (toks : list token) : list (nat * token) :=
  match toks with
  | [] => []
  | Lit c :: rest => (idx, Lit c) :: number_runs idx rest
  | Run p1 :: rest =>
      (idx, Run p1) :: number_runs (if nonblank p1 then S idx else idx) rest
  end.

(** The part written for an entry, and the archive written for a list of
    entries. *)
Definition rebuilt_entry (translations : gmap jsstring jsstring) (idx : nat)
    (e : entry) : entry :=
  if is_slide (entryName e) then
    {| entryName := entryName e;
       data := utf8_encode (concat (pieces translations idx (entry_tokens e))) |}
  else e.

Fixpoint rebuild (translations : gmap jsstring jsstring) (idx : nat)
    (z : list entry) : list entry :=
  match z with
  | [] => []
  | e :: rest =>
      rebuilt_entry translations idx e
      :: rebuild translations (idx + length (entry_units e))%nat rest
  end.

(** What the reassembly writes for a token met with the cursor at [id], as
    far as the fallback is concerned; [all_units] is the extracted list. *)
Definition fallback_piece (translations : gmap jsstring jsstring)
    (all_units : list jsstring) (it : nat * token) (piece : jsstring) : Prop :=
  match snd it with
  | Lit c => piece = [c]
  | Run p1 =>
      if nonblank p1 then
        all_units !! fst it = Some p1
        /\ exists t, piece = lit "<a:t>" ++ t ++ lit "</a:t>"
                   /\ t <> []
                   /\ (translations !! decimal (fst it) = None -> t = cleanText p1)
      else piece = run_text p1
  end.

(** What reassembly may change in a part: the text between the markers of a
    non-blank matched run, and nothing else. *)
Definition frame_piece (t : token) (piece : jsstring) : Prop :=
  match t with
  | Lit c => piece = [c]
  | Run p1 =>
      if nonblank p1 then exists t, piece = lit "<a:t>" ++ t ++ lit "</a:t>"
      else piece = run_text p1
  end.

(** The bytes of a part before and after reassembly, cut at the runs: the
    stretch of literals before each run as it is in both, then the run
    before and after; [acc] holds the literals met since the last run. *)
Fixpoint byte_frames (translations : gmap jsstring jsstring) (idx : nat)
    (acc : jsstring) (toks : list token) : list (bytes * bytes) :=
  match toks with
  | [] => [(utf8_encode acc, utf8_encode acc)]
  | Lit c :: rest => byte_frames translations idx (acc ++ [c]) rest
  | Run p1 :: rest =>
      (utf8_encode acc, utf8_encode acc)
      :: (if nonblank p1 then
            (utf8_encode (run_text p1),
             utf8_encode (lit "<a:t>"
                            ++ cleanText (js_or (translations !! decimal idx) p1)
                            ++ lit "</a:t>"))
            :: byte_frames translations (S idx) [] rest
          else
            (utf8_encode (run_text p1), utf8_encode (run_text p1))
            :: byte_frames translations idx [] rest)
  end.

(** A stretch of bytes is kept, or is a non-blank run whose text between
    the markers is replaced. *)
Definition byte_frame (f : bytes * bytes) : Prop :=
  fst f = snd f
  \/ exists p1 t, nonblank p1 = true
                 /\ fst f = utf8_encode (run_text p1)
                 /\ snd f = utf8_encode (lit "<a:t>" ++ t ++ lit "</a:t>").

(** *** Words of a line *)

(** The non-empty words of a line. *)
Definition words_of (line : jsstring) : list jsstring :=
  List.filter truthy (split 32 line).

(** The non-empty words drawn so far, in order. *)
Definition drawn_words (c : cursor) : list jsstring :=
  flat_map (fun d => words_of (draw_text d)) (cur_draws c).

End Vocabulary.

Section LayoutVocabulary.
Context (E : env).
Local Open Scope Q_scope.

(** *** Positions on the pages *)

(** The page can hold a line: the top margin is not below the line where a
    new page is forced. *)
Definition page_fits : Prop := (margin + fontSize <= page_height E - margin)%Q.

(** Where the cursor stands when the next line is drawn after the draw [d]
    and an advance of [adv]: on a new page at the top margin when the
    advance brings it within one font size of the bottom margin, and on the
    same page, [adv] lower, otherwise. *)
Definition next_position (d : draw) (adv : Q) : nat * Q :=
  if Qltb (draw_y d - adv) (margin + fontSize)
  then (S (draw_page d), page_height E - margin)
  else (draw_page d, draw_y d - adv).

(** The two advances of the code: after a wrapped line, after the last line
    of a paragraph. *)
Definition line_advance (adv : Q) : Prop :=
  adv = (fontSize + 5)%Q \/ adv = (fontSize + 10)%Q.

(** The position [pos] follows the draws [ds]: it is the top of the first
    page when nothing is drawn, and the next position after the last draw
    otherwise. *)
Definition follows (ds : list draw) (pos : nat * Q) : Prop :=
  match last ds with
  | None => pos = (0%nat, (page_height E - margin)%Q)
  | Some d => exists adv, line_advance adv /\ pos = next_position d adv
  end.

(** Every draw stands where the draws before it lead. *)
Fixpoint chained (before ds : list draw) : Prop :=
  match ds with
  | [] => True
  | d :: rest =>
      follows before (draw_page d, draw_y d) /\ chained (before ++ [d]) rest
  end.

(** [d2] is drawn after [d1]: on a later page, or lower on the same page. *)
Definition below (d1 d2 : draw) : Prop :=
  (draw_page d1 < draw_page d2)%nat
  \/ (draw_page d1 = draw_page d2 /\ (draw_y d2 < draw_y d1)%Q).

(** The cursor is at rest: it stands where the next line will be drawn. *)
Definition at_rest (c : cursor) : Prop :=
  follows (cur_draws c) (cur_page c, cur_y c).

(** The cursor has just advanced after the last line of a paragraph, and the
    page test has not yet been made. *)
Definition pending (c : cursor) : Prop :=
  exists d, last (cur_draws c) = Some d
            /\ cur_page c = draw_page d
            /\ cur_y c = (draw_y d - (fontSize + 10))%Q.

End LayoutVocabulary.

(** *** File names *)

(** A name that ends neither in [.pptx] nor in [.pdf], after lower-casing. *)
Definition other_name (E : env) (f : file) : Prop :=
  endsWith (lit ".pptx") (toLowerCase E (originalname f)) = false
  /\ endsWith (lit ".pdf") (toLowerCase E (originalname f)) = false.

(** *** Well-formed strings *)

Section Utf16Vocabulary.
Local Open Scope N_scope.

(** A well-formed UTF-16 string: every unit is below 65536, every high
    surrogate is followed by a low one, and no low surrogate stands alone. *)
Fixpoint well_formed_utf16 (s : jsstring) : bool :=
  match s with
  | [] => true
  | c :: rest =>
      if is_high_surrogate c then
        match rest with
        | d :: rest' => is_low_surrogate d && well_formed_utf16 rest'
        | [] => false
        end
      else negb (is_low_surrogate c) && (c <? 0x10000) && well_formed_utf16 rest
  end.

(** A Unicode scalar value: a code point that is not a surrogate. *)
Definition scalar_value (cp : N) : Prop :=
  cp < 0x110000 /\ ~ (0xD800 <= cp <= 0xDFFF).

(** What the decoder knows inside a sequence: how far the code point can
    have got, by the number of bytes still to come. *)
Definition pending_ok (s : utf8_state) : Prop :=
  0x80 <= lower_boundary s /\ upper_boundary s <= 0xBF /\
  match bytes_needed s with
  | 1%nat =>
      2 <= code_point s <= 0x43FF /\ ~ (0x360 <= code_point s <= 0x37F)
  | 2%nat =>
      (code_point s <= 15 /\
       (code_point s = 0 -> 0xA0 <= lower_boundary s) /\
       (code_point s = 13 -> upper_boundary s <= 0x9F))
      \/ 0x10 <= code_point s <= 0x10F
  | 3%nat =>
      code_point s <= 4 /\
      (code_point s = 0 -> 0x90 <= lower_boundary s) /\
      (code_point s = 4 -> upper_boundary s <= 0x8F)
  | _ => False
  end.

End Utf16Vocabulary.

(** *** The automaton of well-formedness *)

Section PairingVocabulary.
Local Open Scope N_scope.

(** Reading a string one unit at a time; the state tells whether a high
    surrogate waits for its low surrogate.  [None]: the string is ill-formed. *)
Fixpoint pairing (waiting : bool) (s : jsstring) : option bool :=
  match s with
  | [] => Some waiting
  | c :: rest =>
      if waiting then
        if is_low_surrogate c then pairing false rest else None
      else if is_high_surrogate c then pairing true rest
      else if negb (is_low_surrogate c) && (c <? 0x10000) then pairing false rest
      else None
  end.

End PairingVocabulary.

(** *** Batches and job records *)

Section BatchVocabulary.
Context (E : env).

(** Where the batches start: 0, 50, 100, ... *)
Definition batch_starts (allText : list jsstring) : list nat :=
  map (fun k => (k * chunkSize)%nat) (seq 0 (totalChunks allText)).

(** What the oracle answers to the batch that starts at [i]. *)
Definition answer (targetLanguage : jsstring) (allText : list jsstring) (i : nat)
    : result (option jsstring) :=
  oracle E (pptx_system_prompt targetLanguage) (promptText i (chunk_at allText i)).

(** The text of that answer as the loop reads it. *)
Definition reply (targetLanguage : jsstring) (allText : list jsstring) (i : nat)
    : jsstring :=
  match answer targetLanguage allText i with
  | Ok content => js_or content []
  | Throw _ => []
  end.

(** The writes of the job records [js], in order, under one id. *)
Definition record_all (jobId : jsstring) (js : list Job) (w : world) : world :=
  fold_left (fun w j => set_job jobId j w) js w.

(** The batches one after the other, up to the first that fails. *)
Fixpoint run_batches (jobId targetLanguage : jsstring) (allText : list jsstring)
    (starts : list nat) (w : world) (translations : gmap jsstring jsstring)
    : world * result (gmap jsstring jsstring) :=
  match starts with
  | [] => (w, Ok translations)
  | i :: rest =>
      match answer targetLanguage allText i with
      | Throw m => (set_job jobId (translating_job allText i) w, Throw m)
      | Ok content =>
          run_batches jobId targetLanguage allText rest
            (set_job jobId (translating_job allText i) w)
            (record_response translations (js_or content []))
      end
  end.

(** The percentage of batch number [c] out of [t], as an integer; -1 when
    the rounding gives no integer. *)
Definition percent_value (c t : nat) : Z :=
  match Math_round (PrimFloat.mul (PrimFloat.div (number_of_nat c) (number_of_nat t))
                                  (number_of_nat 100)) with
  | Finite z => z
  | _ => (-1)%Z
  end.

(** A list of percentages that starts at [prev] or more, never decreases
    and ends at 100. *)
Fixpoint rising (prev : Z) (vs : list Z) : bool :=
  match vs with
  | [] => (prev =? 100)%Z
  | v :: rest => (prev <=? v)%Z && rising v rest
  end.

(** The percentages of the batches of a deck of [t] batches start at 1 or
    more, never decrease, and end at 100. *)
Definition percent_check (t : nat) : bool :=
  rising 1 (map (fun c => percent_value c t) (seq 1 t)).

End BatchVocabulary.

(** The records a request goes through: the stage of a status, and the
    statuses that end a job. *)
Definition stage (s : status) : nat :=
  match s with
  | starting => 0
  | extracting => 1
  | translating => 2
  | generating => 3
  | completed => 4
  | error => 4
  end.

Definition stages (js : list Job) : list nat := map (fun j => stage (job_status j)) js.

(** A record written while the work goes on: extracting, translating or
    generating. *)
Definition in_progress (j : Job) : Prop := (1 <= stage (job_status j) <= 3)%nat.

(** The records of a handler: records of work in progress, in stage order,
    then the completion record when it returns. *)
Definition handler_trace {A : Type} (jobId : jsstring) (w : world)
    (out : world * result A) : Prop :=
  exists js,
    Forall in_progress js /\ StronglySorted le (stages js)
    /\ match snd out with
       | Ok _ => exists j, job_status j = completed
                           /\ fst out = record_all jobId (js ++ [j]) w
       | Throw _ => fst out = record_all jobId js w
       end.

(** How the last record of a request matches the response: completed with
    the document for 200; the fixed message for 400; for 500 the message of
    the error, which the body repeats after a fixed prefix. *)
Definition outcome (req : request) (r : response) (j : Job) : Prop :=
  (status_code r = 200%N /\ job_status j = completed
   /\ ((exists z, res_body r = Pptx z) \/ (exists d, res_body r = Pdf d)))
  \/ (status_code r = 400%N /\ req_file req = None
      /\ j = {| job_status := error; job_message := lit "No file uploaded." |}
      /\ res_body r = Text (lit "No file uploaded."))
  \/ (status_code r = 500%N /\ req_file req <> None /\ job_status j = error
      /\ res_body r
         = Text (lit "An error occurred during translation: " ++ job_message j)).

(** *** Drawn lines *)

Section DrawVocabulary.
Local Open Scope N_scope.

(** A text of 7-bit units. *)
Definition seven_bit (s : jsstring) : Prop := Forall (fun c => c <= 127) s.

(** A text without a space. *)
Definition single_word (s : jsstring) : Prop :=
  forallb (fun c => negb (c =? 32)) s = true.

(** A draw at the left margin, on a page up to [last_page], of a 7-bit text
    without line feed. *)
Definition tidy (last_page : nat) (d : draw) : Prop :=
  draw_x d = margin /\ (draw_page d <= last_page)%nat
  /\ seven_bit (draw_text d) /\ one_line (draw_text d).

(** The font measures the text at most as wide as the text area. *)
Definition fits (E : env) (s : jsstring) : Prop :=
  exists wd, widthOfTextAtSize E s fontSize = Ok wd /\ (wd <= maxWidth E)%Q.

End DrawVocabulary.

(** *** Entries of the translations *)

Section EntryVocabulary.
Local Open Scope N_scope.

(** An entry as the line pattern yields it: the key is a non-empty string
    of digits; the text holds no line terminator and does not start with
    white space. *)
Definition numbered (k v : jsstring) : Prop :=
  k <> [] /\ forallb is_digit k = true
  /\ forallb (fun c => negb (is_line_terminator c)) v = true
  /\ (forall c r, v = c :: r -> is_space c = false).

End EntryVocabulary.

(** *** The tokens the reassembly writes *)

(** The tokens of a part with the capture of every non-blank run replaced
    by what the reassembly writes between the markers. *)
Fixpoint rewritten (translations : gmap jsstring jsstring) (idx : nat)
    (toks : list token) : list token :=
  match toks with
  | [] => []
  | Lit c :: rest => Lit c :: rewritten translations idx rest
  | Run p1 :: rest =>
      if nonblank p1 then
        Run (cleanText (js_or (translations !! decimal idx) p1))
        :: rewritten translations (S idx) rest
      else Run p1 :: rewritten translations idx rest
  end.

(** The pages so far are paid for by draws: there are no more page breaks
    than draws, and a break that is due has its draw already. *)
Definition counted (c : cursor) : Prop :=
  (cur_page c <= length (cur_draws c))%nat
  /\ (Qltb (cur_y c) (margin + fontSize) = true ->
      (cur_page c < length (cur_draws c))%nat).

(** *** Lines that need no wrapping *)

Section WrapVocabulary.
Local Open Scope N_scope.

(** A line without its leading spaces. *)
Definition strip_spaces (s : jsstring) : jsstring := drop_while (fun c => c =? 32) s.

(** Every stretch of every line of the text fits the text area. *)
Definition no_wrapping (E : env) (text : jsstring) : Prop :=
  forall line a s b, In line (split 10 text) -> line = a ++ s ++ b -> fits E s.

(** What is left of a line when the loop over its words holds
    [currentLine] and has the words [ws] to go. *)
Definition to_go (currentLine : jsstring) (ws : list jsstring) : jsstring :=
  if truthy currentLine then
    currentLine ++ match ws with [] => [] | _ :: _ => 32 :: join [32] ws end
  else join [32] ws.

End WrapVocabulary.

(** ** Sample collaborators

    A pass-through oracle, an archive reader that returns a given archive, a
    text layer that returns a given text, a font in which every unit is six
    points wide, a page that draws every text, an A4 page, lower-casing of
    the letters A to Z, and the comparison of strings unit by unit. *)

Definition ascii_lower (s : jsstring) : jsstring :=
  map (fun c => if (65 <=? c)%N && (c <=? 90)%N then (c + 32)%N else c) s.

Fixpoint compare_units (a b : jsstring) : comparison :=
  match a, b with
  | [], [] => Eq
  | [], _ :: _ => Lt
  | _ :: _, [] => Gt
  | x :: a', y :: b' =>
      match (x ?= y)%N with
      | Eq => compare_units a' b'
      | c => c
      end
  end.

Definition sample_env (z : list entry) (text : jsstring) : env :=
  {| oracle := fun _ user => Ok (Some user);
     readZip := fun _ => Ok z;
     pdfParse := fun _ => Ok text;
     widthOfTextAtSize := fun s _ => Ok (inject_Z (Z.of_nat (length s)) * 6)%Q;
     encodeText := fun _ => Ok tt;
     draws_what_it_measures := fun _ _ _ _ => eq_refl;
     pageSize := (595.28, 841.89)%Q;
     toLowerCase := ascii_lower;
     localeCompare := compare_units;
     now := lit "1700000000000" |}.

(** A slide part with the given text. *)
Definition slide (n : nat) (content : jsstring) : entry :=
  {| entryName := lit "ppt/slides/slide" ++ decimal n ++ lit ".xml";
     data := utf8_encode content |}.

Definition empty_world : world := {| jobs := ∅; history := [] |}.

(** An archive with two slides and a part that is not a slide; the second
    slide holds a blank run and a run with a letter outside ASCII. *)
Definition sample_archive : list entry :=
  [ slide 1 (lit "<p:sp><a:t>Hello</a:t><a:t>big world</a:t></p:sp>");
    {| entryName := lit "ppt/media/image1.png"; data := [0x89; 0x50; 0x4E; 0x47; 0xFF]%N |};
    slide 2 (lit "<a:t> </a:t><a:t>d" ++ [0xFC%N] ++ lit "nya</a:t>") ].

(** A slide with 120 text units. *)
Definition sample_deck : list entry :=
  [ slide 1 (concat (map (fun k => run_text (lit "unit " ++ decimal k)) (seq 0 120))) ].

(** A text of three lines, the second with a word of 100 letters, wider
    than the text area of the page. *)
Definition sample_text : jsstring :=
  lit "Bonjour le monde" ++ [10%N]
  ++ lit "un " ++ concat (repeat (lit "abcdefghij") 10) ++ lit " mot long" ++ [10%N]
  ++ lit "fin".

(** A request for a file named [notes.txt]. *)
Definition sample_request : request :=
  {| body_jobId := None; body_targetLanguage := None;
     req_file := Some {| originalname := lit "notes.txt";
                         file_content := lit "%PDF-1.7" |} |}.

(** An oracle that answers the first batch and fails on the second, and an
    oracle that answers with no content. *)
Definition failing_env (z : list entry) : env :=
  {| oracle := fun _ user =>
       if startsWith (lit "[50]") user then Throw (lit "rate limit reached")
       else Ok (Some user);
     readZip := fun _ => Ok z;
     pdfParse := fun _ => Ok [];
     widthOfTextAtSize := fun s _ => Ok (inject_Z (Z.of_nat (length s)) * 6)%Q;
     encodeText := fun _ => Ok tt;
     draws_what_it_measures := fun _ _ _ _ => eq_refl;
     pageSize := (595.28, 841.89)%Q;
     toLowerCase := ascii_lower;
     localeCompare := compare_units;
     now := lit "1700000000000" |}.

Definition silent_env (text : jsstring) : env :=
  {| oracle := fun _ _ => Ok None;
     readZip := fun _ => Ok [];
     pdfParse := fun _ => Ok text;
     widthOfTextAtSize := fun s _ => Ok (inject_Z (Z.of_nat (length s)) * 6)%Q;
     encodeText := fun _ => Ok tt;
     draws_what_it_measures := fun _ _ _ _ => eq_refl;
     pageSize := (595.28, 841.89)%Q;
     toLowerCase := ascii_lower;
     localeCompare := compare_units;
     now := lit "1700000000000" |}.

(** A font that measures the printable units of ASCII and throws on any
    other unit, as the standard fonts do on a sanitized text. *)
Definition strict_env (text : jsstring) : env :=
  {| oracle := fun _ user => Ok (Some user);
     readZip := fun _ => Ok [];
     pdfParse := fun _ => Ok text;
     widthOfTextAtSize := fun s _ =>
       if forallb (fun u => (32 <=? u)%N && (u <=? 126)%N) s
       then Ok (inject_Z (Z.of_nat (length s)) * 6)%Q
       else Throw (lit "WinAnsi cannot encode");
     encodeText := fun _ => Ok tt;
     draws_what_it_measures := fun _ _ _ _ => eq_refl;
     pageSize := (595.28, 841.89)%Q;
     toLowerCase := ascii_lower;
     localeCompare := compare_units;
     now := lit "1700000000000" |}.

(** An archive whose only slide holds a blank run. *)
Definition blank_deck : list entry :=
  [ slide 1 (lit "<p:sp><a:t>  </a:t></p:sp>");
    {| entryName := lit "ppt/media/image1.png"; data := [0x89; 0x50; 0x4E; 0x47]%N |} ].

(** Requests for a presentation and for a PDF. *)
Definition pptx_request : request :=
  {| body_jobId := Some (lit "job-7"); body_targetLanguage := None;
     req_file := Some {| originalname := lit "Deck.PPTX"; file_content := [] |} |}.

Definition pdf_request : request :=
  {| body_jobId := Some (lit "job-8"); body_targetLanguage := Some (lit "French");
     req_file := Some {| originalname := lit "paper.pdf";
                         file_content := lit "%PDF-1.7" |} |}.

(* ===================================================================== *)
(** * Part II. Properties                                                 *)
(* ===================================================================== *)

(** ** The sanitizer *)

Section SanitizerFacts.
Local Open Scope N_scope.

Lemma assoc_In tbl k v : assoc tbl k = Some v -> In (k, v) tbl.
Proof.
  induction tbl as [|[k' v'] tbl IH]; simpl; [discriminate|].
  destruct (N.eqb_spec k k') as [->|_].
  - intros [= ->]. now left.
  - intros H. right. auto.
Qed.

(** Every entry of the table has a key above 127 and a non-empty image made
    of printable units, none of them a space or [<]. *)
Lemma charTable_entries :
  Forall (fun kv => 127 < fst kv /\ snd kv <> [] /\
                    Forall (fun c => 32 < c <= 126 /\ c <> 60) (snd kv)) charTable.
Proof.
  unfold charTable.
  repeat (apply List.Forall_cons;
          [simpl; repeat split; try discriminate; try lia;
           repeat (apply List.Forall_cons; [lia|]); apply List.Forall_nil |]).
  apply List.Forall_nil.
Qed.

Lemma charMap_Some k img :
  charMap k = Some img ->
  127 < k /\ img <> [] /\ Forall (fun c => 32 < c <= 126 /\ c <> 60) img.
Proof.
  intros H%assoc_In.
  pose proof charTable_entries as HT.
  rewrite List.Forall_forall in HT. exact (HT _ H).
Qed.

Lemma charMap_ascii c : c <= 127 -> charMap c = None.
Proof.
  intros Hc. destruct (charMap c) as [img|] eqn:H; [|reflexivity].
  apply charMap_Some in H. lia.
Qed.

Lemma cleanChar_cases x :
  (exists img, charMap x = Some img /\ cleanChar x = img)
  \/ (charMap x = None /\ x <= 127 /\ cleanChar x = [x])
  \/ (charMap x = None /\ 127 < x /\ cleanChar x = [63]).
Proof.
  unfold cleanChar, js_or.
  destruct (charMap x) as [img|] eqn:H.
  - left. exists img. split; [reflexivity|].
    apply charMap_Some in H as (_ & Hne & _).
    destruct img; [congruence|reflexivity].
  - right. destruct (N.ltb_spec 127 x); [right|left]; auto.
Qed.

Lemma cleanChar_nonempty x : cleanChar x <> [].
Proof.
  destruct (cleanChar_cases x) as [(img & H & ->)|[(_ & _ & ->)|(_ & _ & ->)]];
    try discriminate.
  now apply charMap_Some in H.
Qed.

Lemma cleanChar_7bit x : Forall (fun c => c <= 127) (cleanChar x).
Proof.
  destruct (cleanChar_cases x) as [(img & H & ->)|[(_ & ? & ->)|(_ & _ & ->)]].
  - apply charMap_Some in H as (_ & _ & H).
    eapply List.Forall_impl; [|exact H]. simpl. lia.
  - repeat constructor. assumption.
  - repeat constructor. lia.
Qed.

Lemma cleanText_concat text : cleanText text = concat (map cleanChar text).
Proof. destruct text; reflexivity. Qed.

Lemma cleanText_app a b : cleanText (a ++ b) = cleanText a ++ cleanText b.
Proof. now rewrite !cleanText_concat, map_app, concat_app. Qed.

Lemma cleanText_7bit text : Forall (fun c => c <= 127) (cleanText text).
Proof.
  rewrite cleanText_concat.
  induction text as [|x text IH]; simpl; [constructor|].
  apply Forall_app. split; [apply cleanChar_7bit | exact IH].
Qed.

Lemma cleanText_nonempty text : text <> [] -> cleanText text <> [].
Proof.
  destruct text as [|x text]; [congruence|]. intros _.
  rewrite cleanText_concat. simpl.
  pose proof (cleanChar_nonempty x). destruct (cleanChar x); [congruence|discriminate].
Qed.

(** A string of 7-bit units is left as it is. *)
Lemma cleanText_fixed text :
  Forall (fun c => c <= 127) text -> cleanText text = text.
Proof.
  rewrite cleanText_concat.
  induction 1 as [|x text Hx _ IH]; simpl; [reflexivity|].
  rewrite IH. unfold cleanChar, js_or. rewrite (charMap_ascii x Hx).
  destruct (N.ltb_spec 127 x); [lia|reflexivity].
Qed.

(** C3, as the specification words it, fails on a line feed: it is copied to
    the output, and it is neither printable, nor the placeholder, nor part
    of an image of the table. *)
Lemma C3_counterexample :
  ~ (forall (x : jsstring) (c : N),
        In c (cleanText x) -> table_image c \/ printable c \/ c = 63).
Proof.
  intros H. destruct (H [10] 10) as [(k & img & Hk & Hin)|[Hp|Hq]].
  - now left.
  - apply charMap_Some in Hk as (_ & _ & Himg).
    rewrite List.Forall_forall in Himg. specialize (Himg _ Hin). lia.
  - unfold printable in Hp. lia.
  - discriminate.
Qed.

(** C3, amended: every unit of the output of [cleanText] comes from one unit
    [x] of the input, and is either a unit of the image of [x] under the
    table, or [x] itself when [x] is outside the table and at most 127
    (control characters included), or the placeholder [?] when [x] is outside
    the table and above 127; in every case it is at most 127. *)
Theorem C3_cleanText_output (text : jsstring) :
  Forall (fun c =>
            c <= 127 /\
            exists x, In x text /\
              ((exists img, charMap x = Some img /\ In c img)
               \/ (charMap x = None /\ x <= 127 /\ c = x)
               \/ (charMap x = None /\ 127 < x /\ c = 63)))
         (cleanText text).
Proof.
  rewrite List.Forall_forall. intros c Hc. split.
  - pose proof (cleanText_7bit text) as H.
    rewrite List.Forall_forall in H. exact (H c Hc).
  - rewrite cleanText_concat in Hc.
    apply in_concat in Hc as (piece & Hpiece & Hin).
    apply in_map_iff in Hpiece as (x & <- & Hx).
    exists x. split; [exact Hx|].
    destruct (cleanChar_cases x) as [(img & H & E)|[(H & ? & E)|(H & ? & E)]];
      rewrite E in Hin.
    + left. eauto.
    + right; left. destruct Hin as [<-|[]]. auto.
    + right; right. destruct Hin as [<-|[]]. auto.
Qed.

(** C8: the sanitizer is idempotent. *)
Theorem C8_cleanText_idempotent (x : jsstring) :
  cleanText (cleanText x) = cleanText x.
Proof. apply cleanText_fixed, cleanText_7bit. Qed.

End SanitizerFacts.

(** ** Parsing the oracle's response *)

Section ResponseFacts.
Local Open Scope N_scope.

Lemma texts_for_key_app k l1 l2 :
  texts_for_key k (l1 ++ l2) = texts_for_key k l1 ++ texts_for_key k l2.
Proof. unfold texts_for_key. apply flat_map_app. Qed.

(** C10 at a response whose lines [[1]: a] and [[01]: b] carry the same
    integer in two written forms: both lines are lines of the id 1, the
    entries are kept under the digit strings as written, and the reassembly,
    which reads the entry under the decimal form of the cursor, writes the
    text of the first of the two lines for the unit 1. *)
Theorem C10_written_forms_are_not_merged :
  let response := lit "[1]: a" ++ [10] ++ lit "[01]: b" in
  let translations := record_response ∅ response in
  texts_for_id 1 (split 10 response) = [lit "a"; lit "b"]
  /\ translations !! lit "1" = Some (lit "a")
  /\ translations !! lit "01" = Some (lit "b")
  /\ reconstruct translations [slide 1 (lit "<a:t>zero</a:t><a:t>one</a:t>")]
     = [slide 1 (lit "<a:t>zero</a:t><a:t>a</a:t>")].
Proof. vm_compute. repeat split; reflexivity. Qed.

(** X30: after a batch response has been recorded, the entry of a digit
    string [k] is the text of the last line of the response whose bracketed
    digits are exactly [k] (a later line overwrites an earlier one), and
    the previous entry of [k] when no line carries [k]. *)
Theorem record_response_last_line (translations : gmap jsstring jsstring)
    (response k : jsstring) :
  record_response translations response !! k =
  match last (texts_for_key k (split 10 response)) with
  | Some v => Some v
  | None => translations !! k
  end.
Proof.
  unfold record_response.
  induction (split 10 response) as [|l lines IH] using rev_ind; [reflexivity|].
  rewrite fold_left_app, texts_for_key_app.
  replace (texts_for_key k [l]) with
    (match line_match l with
     | Some (ds, v) => if bool_decide (ds = k) then [v] else []
     | None => []
     end) by (unfold texts_for_key; simpl; now rewrite app_nil_r).
  cbn [fold_left]. unfold record_line at 1.
  destruct (line_match l) as [[ds v]|] eqn:Hl.
  - destruct (bool_decide_reflect (ds = k)) as [->|Hne].
    + rewrite last_snoc. apply lookup_insert_eq.
    + rewrite app_nil_r, lookup_insert_ne by assumption. exact IH.
  - rewrite app_nil_r. exact IH.
Qed.

End ResponseFacts.

(** ** Batching and progress *)

Section BatchFacts.
Context (E : env).

(** One turn of the loop of step 2. *)
Lemma translate_from_step jobId targetLanguage allText i w translations :
  translate_from E jobId targetLanguage allText i w translations =
  if (i <? length allText)%nat then
    match oracle E (pptx_system_prompt targetLanguage)
                   (promptText i (chunk_at allText i)) with
    | Throw m => (set_job jobId (translating_job allText i) w, Throw m)
    | Ok content =>
        translate_from E jobId targetLanguage allText (i + chunkSize)
          (set_job jobId (translating_job allText i) w)
          (record_response translations (js_or content []))
    end
  else (w, Ok translations).
Proof.
  simp translate_from.
  destruct (inspect (i <? length allText)%nat) as [[] e];
    simp translate_from.
  - destruct (oracle E _ _); simp translate_from; rewrite e; reflexivity.
  - rewrite e. reflexivity.
Qed.

Lemma chunks_120 (allText : list jsstring) :
  length allText = 120%nat ->
  allText = chunk_at allText 0 ++ chunk_at allText 50 ++ chunk_at allText 100
  /\ length (chunk_at allText 0) = 50%nat
  /\ length (chunk_at allText 50) = 50%nat
  /\ length (chunk_at allText 100) = 20%nat.
Proof.
  intros Hlen. unfold chunk_at, chunkSize.
  rewrite !length_take, !length_drop, Hlen. repeat split; try reflexivity.
  rewrite (take_ge (drop 100 allText)) by (rewrite length_drop; lia).
  rewrite drop_0.
  rewrite <- (take_drop 50 allText) at 1. f_equal.
  rewrite <- (take_drop 50 (drop 50 allText)) at 1. f_equal.
  now rewrite drop_drop.
Qed.

Lemma translating_jobs_120 (allText : list jsstring) :
  length allText = 120%nat ->
  percentage allText 0 = Finite 33 /\ percentage allText 50 = Finite 67
  /\ percentage allText 100 = Finite 100.
Proof.
  intros Hlen. unfold percentage, totalChunks. rewrite Hlen.
  vm_compute. repeat split.
Qed.

(** C7: with 120 extracted text units the loop of step 2 makes exactly three
    oracle calls, for the units 0..49, 50..99 and 100..119 in order, and the
    tracker receives, between the extraction and the generation records, the
    three translating records with the percentages 33, 67 and 100, each being
    [Math.round] of (batch number / 3) * 100. *)
Theorem C7_progress_of_120_units (file_bytes : bytes)
    (jobId targetLanguage : jsstring) (w : world) (zipEntries : list entry) :
  readZip E file_bytes = Ok zipEntries ->
  length (gather zipEntries) = 120%nat ->
  (forall system user, exists content, oracle E system user = Ok content) ->
  let allText := gather zipEntries in
  let b1 := chunk_at allText 0 in
  let b2 := chunk_at allText 50 in
  let b3 := chunk_at allText 100 in
  let progress p :=
    (jobId, {| job_status := translating;
               job_message := lit "Translating content... (" ++ decimal p ++ lit "%)" |}) in
  allText = b1 ++ b2 ++ b3
  /\ length b1 = 50%nat /\ length b2 = 50%nat /\ length b3 = 20%nat
  /\ percentage allText 0 = Finite 33
  /\ percentage allText 50 = Finite 67
  /\ percentage allText 100 = Finite 100
  /\ exists c1 c2 c3 w',
      oracle E (pptx_system_prompt targetLanguage) (promptText 0 b1) = Ok c1
      /\ oracle E (pptx_system_prompt targetLanguage) (promptText 50 b2) = Ok c2
      /\ oracle E (pptx_system_prompt targetLanguage) (promptText 100 b3) = Ok c3
      /\ handlePptxTranslation E file_bytes jobId targetLanguage w =
           (w', Ok (toBuffer E
                      (reconstruct
                         (record_response
                            (record_response
                               (record_response ∅ (js_or c1 [])) (js_or c2 []))
                            (js_or c3 []))
                         zipEntries)))
      /\ history w' =
           history w ++
           [ (jobId, {| job_status := extracting;
                        job_message := lit "Extracting slides..." |});
             progress 33%nat; progress 67%nat; progress 100%nat;
             (jobId, {| job_status := generating;
                        job_message := lit "Reconstructing the slides..." |});
             (jobId, {| job_status := completed;
                        job_message := lit "Slide translation ready!" |}) ].
Proof.
  intros Hzip Hlen Horacle allText b1 b2 b3 progress.
  change (length allText = 120%nat) in Hlen.
  destruct (chunks_120 allText Hlen) as (Hsplit & H1 & H2 & H3).
  destruct (translating_jobs_120 allText Hlen) as (P1 & P2 & P3).
  repeat (split; [assumption|]).
  destruct (Horacle (pptx_system_prompt targetLanguage) (promptText 0 b1)) as [c1 Hc1].
  destruct (Horacle (pptx_system_prompt targetLanguage) (promptText 50 b2)) as [c2 Hc2].
  destruct (Horacle (pptx_system_prompt targetLanguage) (promptText 100 b3)) as [c3 Hc3].
  exists c1, c2, c3. eexists. repeat (split; [assumption|]).
  unfold handlePptxTranslation. rewrite Hzip. fold allText. rewrite Hlen.
  cbn [Nat.eqb].
  rewrite translate_from_step, Hlen. cbn [Nat.ltb Nat.leb].
  fold b1. rewrite Hc1.
  change (0 + chunkSize)%nat with 50%nat.
  rewrite translate_from_step, Hlen.
  change (50 <? 120)%nat with true. cbv iota. fold b2. rewrite Hc2.
  change (50 + chunkSize)%nat with 100%nat.
  rewrite translate_from_step, Hlen.
  change (100 <? 120)%nat with true. cbv iota. fold b3. rewrite Hc3.
  change (100 + chunkSize)%nat with 150%nat.
  rewrite translate_from_step, Hlen.
  change (150 <? 120)%nat with false. cbv iota.
  split; [reflexivity|].
  unfold translating_job. rewrite P1, P2, P3.
  cbn [history set_job]. rewrite <- !app_assoc. reflexivity.
Qed.

End BatchFacts.

(** ** Scanning text runs *)

Section ScanFacts.
Local Open Scope N_scope.

Lemma startsWith_app p r : startsWith p (p ++ r) = true.
Proof. induction p as [|a p IH]; simpl; [reflexivity|]. now rewrite N.eqb_refl. Qed.

Lemma startsWith_true p s : startsWith p s = true -> s = p ++ drop (length p) s.
Proof.
  revert s. induction p as [|a p IH]; intros [|b s]; simpl; try easy.
  intros [->%N.eqb_eq H]%andb_true_iff. f_equal. auto.
Qed.

(** The pattern is decided by the first [length p] units. *)
Lemma startsWith_long p a b :
  (length p <= length a)%nat -> startsWith p (a ++ b) = startsWith p a.
Proof.
  revert a. induction p as [|x p IH]; intros [|y a] H; simpl in *;
    try reflexivity; try lia.
  rewrite IH by lia. reflexivity.
Qed.

Lemma take_drop_while f s : take_while f s ++ drop_while f s = s.
Proof. induction s as [|c s IH]; simpl; [reflexivity|]. destruct (f c); simpl; congruence. Qed.

Lemma take_while_all f s : forallb f (take_while f s) = true.
Proof. induction s as [|c s IH]; simpl; [reflexivity|]. destruct (f c) eqn:E; simpl; [now rewrite E|reflexivity]. Qed.

(** A greedy class stops at the first unit outside the class. *)
Lemma take_while_stop f a c b :
  forallb f a = true -> f c = false -> take_while f (a ++ c :: b) = a.
Proof.
  induction a as [|x a IH]; simpl; intros Ha Hc; [now rewrite Hc|].
  apply andb_true_iff in Ha as [-> Ha]. now rewrite IH.
Qed.

Lemma drop_while_stop f a c b :
  forallb f a = true -> f c = false -> drop_while f (a ++ c :: b) = c :: b.
Proof.
  induction a as [|x a IH]; simpl; intros Ha Hc; [now rewrite Hc|].
  apply andb_true_iff in Ha as [-> Ha]. now rewrite IH.
Qed.

Lemma take_while_end f a : forallb f a = true -> take_while f a = a.
Proof.
  induction a as [|x a IH]; simpl; [reflexivity|].
  intros [-> Ha]%andb_true_iff. now rewrite IH.
Qed.

Lemma drop_while_end f a : forallb f a = true -> drop_while f a = [].
Proof.
  induction a as [|x a IH]; simpl; [reflexivity|].
  intros [-> Ha]%andb_true_iff. now rewrite IH.
Qed.

Lemma drop_while_head f s c r : drop_while f s = c :: r -> f c = false.
Proof.
  induction s as [|x s IH]; simpl; [discriminate|].
  destruct (f x) eqn:E; [exact IH|]. now intros [= <- _].
Qed.

(** A successful attempt covers exactly a run with a capture. *)
Lemma match_run_Some s p1 rest :
  match_run s = Some (p1, rest) -> s = run_text p1 ++ rest /\ capture p1.
Proof.
  unfold match_run. destruct (startsWith (lit "<a:t>") s) eqn:Hs; [|discriminate].
  destruct (truthy _ && _) eqn:Ht; [|discriminate].
  apply andb_true_iff in Ht as [Hp Hc]. intros [= <- <-].
  apply startsWith_true in Hs. apply startsWith_true in Hc.
  change (length (lit "<a:t>")) with 5%nat in Hs.
  change (length (lit "</a:t>")) with 6%nat in Hc.
  split.
  - rewrite Hs at 1. unfold run_text. rewrite <- !app_assoc. f_equal.
    rewrite <- (take_drop_while not_lt (drop 5 s)) at 1. f_equal.
    exact Hc.
  - split; [|apply take_while_all].
    destruct (take_while not_lt (drop 5 s)); [discriminate|discriminate].
Qed.

Lemma match_run_capture p1 rest :
  capture p1 -> match_run (run_text p1 ++ rest) = Some (p1, rest).
Proof.
  intros [Hne Hp]. unfold match_run, run_text.
  rewrite <- !app_assoc, startsWith_app.
  change (drop 5 (lit "<a:t>" ++ ?x)) with x.
  change (lit "</a:t>" ++ rest) with (60 :: lit "/a:t>" ++ rest).
  rewrite take_while_stop, drop_while_stop by (assumption || reflexivity).
  destruct p1; [congruence|]. reflexivity.
Qed.

Lemma render_cons t toks : render (t :: toks) = token_text t ++ render toks.
Proof. reflexivity. Qed.

(** Unfolding the scan. *)
Lemma scan_runs_cons c tl :
  scan_runs (c :: tl) =
  match match_run (c :: tl) with
  | Some (p1, rest) => Run p1 :: scan_runs rest
  | None => Lit c :: scan_runs tl
  end.
Proof.
  simp scan_runs.
  destruct (inspect (match_run (c :: tl))) as [[[p1 rest]|] e];
    simp scan_runs; rewrite e; reflexivity.
Qed.

(** The tokens of a text spell it out. *)
Lemma render_scan_runs s : render (scan_runs s) = s.
Proof.
  funelim (scan_runs s); [reflexivity| |].
  - unfold render in *. simpl. rewrite H.
    pose proof (match_run_Some _ _ _ e) as [-> _]. reflexivity.
  - unfold render in *. simpl. now rewrite H.
Qed.

Lemma canonical_scan_runs s : canonical (scan_runs s).
Proof.
  funelim (scan_runs s); [exact I| |]; simpl.
  - split; [|assumption]. exact (proj2 (match_run_Some _ _ _ e)).
  - split; [|assumption]. now rewrite render_scan_runs.
Qed.

Lemma scan_runs_render toks : canonical toks -> scan_runs (render toks) = toks.
Proof.
  induction toks as [|[c|p1] toks IH]; simpl; [reflexivity| |].
  - intros [Hm Hc]. change (render (Lit c :: toks)) with (c :: render toks).
    rewrite scan_runs_cons, Hm, IH by assumption. reflexivity.
  - intros [Hp Hc].
    change (render (Run p1 :: toks)) with (run_text p1 ++ render toks).
    assert (exists c tl, run_text p1 ++ render toks = c :: tl) as (c & tl & E)
      by (eexists _, _; reflexivity).
    rewrite E, scan_runs_cons, <- E, match_run_capture, IH by assumption.
    reflexivity.
Qed.

Lemma match_run_None s : match_run s = None <-> matches s = false.
Proof.
  unfold match_run, matches. destruct (startsWith (lit "<a:t>") s); simpl; [|easy].
  destruct (truthy _ && _); easy.
Qed.

(** An opening marker that starts inside the first four units of an attempt
    makes the attempt fail on its own marker. *)
Lemma opening_not_inside L X :
  L <> [] -> (length L < 5)%nat ->
  startsWith (lit "<a:t>") (L ++ lit "<a:t>" ++ X) = false.
Proof.
  destruct L as [|a [|b [|c [|d [|e L]]]]]; simpl; intros HL Hlen;
    try congruence; try lia; rewrite ?andb_false_r; reflexivity.
Qed.

(** An opening marker that starts inside the closing marker of an attempt
    makes the attempt fail. *)
Lemma closing_not_across v X :
  (length v < 5)%nat ->
  startsWith (lit "/a:t>") (v ++ lit "<a:t>" ++ X) = false.
Proof.
  destruct v as [|a [|b [|c [|d [|e v]]]]]; simpl; intros Hlen;
    try lia; rewrite ?andb_false_r; reflexivity.
Qed.

(** An attempt that starts before an opening marker is decided before the
    text that follows the marker. *)
Lemma matches_before_marker L X X' :
  L <> [] ->
  matches (L ++ lit "<a:t>" ++ X) = matches (L ++ lit "<a:t>" ++ X').
Proof.
  intros HL. unfold matches.
  destruct (Nat.lt_ge_cases (length L) 5) as [Hshort|Hlong].
  { now rewrite !opening_not_inside. }
  rewrite !(startsWith_long (lit "<a:t>") L) by exact Hlong.
  destruct (startsWith (lit "<a:t>") L) eqn:HM; [|reflexivity].
  apply startsWith_true in HM. change (length (lit "<a:t>")) with 5%nat in HM.
  rewrite HM, <- !app_assoc. cbn [andb].
  change (drop 5 (lit "<a:t>" ++ ?x)) with x.
  set (L2 := drop 5 L).
  rewrite <- (take_drop_while not_lt L2), <- !app_assoc.
  pose proof (take_while_all not_lt L2) as Hu.
  destruct (drop_while not_lt L2) as [|c v] eqn:Hv.
  - cbn [app].
    change (lit "<a:t>" ++ ?x) with (60 :: lit "a:t>" ++ x).
    rewrite !take_while_stop, !drop_while_stop by (assumption || reflexivity).
    cbn. now rewrite !andb_false_r.
  - pose proof (drop_while_head _ _ _ _ Hv) as Hc.
    rewrite <- !app_comm_cons.
    rewrite !take_while_stop, !drop_while_stop by assumption.
    f_equal. change (lit "</a:t>") with (60 :: lit "/a:t>").
    cbn [startsWith]. f_equal.
    destruct (Nat.lt_ge_cases (length v) 5) as [Hvs|Hvl].
    + now rewrite !closing_not_across.
    + now rewrite !(startsWith_long (lit "/a:t>") v).
Qed.

Lemma same_shape_render toks toks' :
  same_shape toks toks' ->
  render toks = render toks'
  \/ exists l X X', render toks = l ++ lit "<a:t>" ++ X
                  /\ render toks' = l ++ lit "<a:t>" ++ X'.
Proof.
  induction 1 as [|t t' toks toks' Ht _ IH]; [now left|].
  destruct t as [c|p], t' as [c'|p']; try contradiction.
  - subst c'. destruct IH as [IH|(l & X & X' & E & E')].
    + left. unfold render in *. simpl. now rewrite IH.
    + right. exists (c :: l), X, X'. unfold render in *. simpl.
      now rewrite E, E'.
  - right. exists [], (p ++ lit "</a:t>" ++ render toks),
      (p' ++ lit "</a:t>" ++ render toks').
    unfold render, run_text. simpl. now rewrite <- !app_assoc.
Qed.

(** Changing the captures of the runs of a canonical list leaves it
    canonical: no attempt at a literal starts to succeed. *)
Lemma canonical_same_shape toks toks' :
  same_shape toks toks' -> canonical toks -> canonical toks'.
Proof.
  induction 1 as [|t t' toks toks' Ht Hrest IH]; [easy|].
  destruct t as [c|p], t' as [c'|p']; try contradiction; simpl.
  - subst c'. intros [Hm Hc]. split; [|auto].
    destruct (same_shape_render _ _ Hrest) as [<-|(l & X & X' & E & E')];
      [assumption|].
    rewrite E in Hm. rewrite E'.
    apply match_run_None. apply match_run_None in Hm.
    etransitivity; [|exact Hm].
    apply (matches_before_marker (c :: l) X' X). discriminate.
  - intros [_ Hc]. auto.
Qed.

End ScanFacts.

(** ** Extraction and reassembly of a presentation *)

Section PptxFacts.
Local Open Scope N_scope.

Lemma replace_first_closing p1 :
  forallb not_lt p1 = true ->
  replace_first (lit "</a:t>") [] (p1 ++ lit "</a:t>") = p1.
Proof.
  induction p1 as [|c p1 IH]; [reflexivity|].
  cbn [forallb]. intros [Hc Hp]%andb_true_iff.
  unfold not_lt in Hc. apply negb_true_iff, N.eqb_neq in Hc.
  cbn [app replace_first]. change (lit "</a:t>") with (60 :: lit "/a:t>") at 1.
  cbn [startsWith]. destruct (N.eqb_spec 60 c) as [E|_]; [congruence|].
  cbn [andb]. f_equal. apply IH, Hp.
Qed.

(** The two [replace] calls of the extraction return the capture. *)
Lemma strip_markers p1 :
  capture p1 ->
  replace_first (lit "</a:t>") [] (replace_first (lit "<a:t>") [] (run_text p1)) = p1.
Proof.
  intros [_ Hp]. unfold run_text.
  replace (replace_first (lit "<a:t>") [] (lit "<a:t>" ++ p1 ++ lit "</a:t>"))
    with (p1 ++ lit "</a:t>") by reflexivity.
  now apply replace_first_closing.
Qed.

Lemma push_match_run acc p1 :
  capture p1 ->
  push_match acc (run_text p1) = if nonblank p1 then acc ++ [p1] else acc.
Proof. intros Hp. unfold push_match. now rewrite strip_markers. Qed.

Lemma fold_push_matches toks acc :
  canonical toks -> fold_left push_match (run_matches toks) acc = acc ++ units toks.
Proof.
  revert acc. induction toks as [|[c|p1] toks IH]; intros acc; simpl.
  - now rewrite app_nil_r.
  - intros [_ Hc]. now apply IH.
  - intros [Hp Hc]. rewrite push_match_run by assumption.
    destruct (nonblank p1); rewrite IH by assumption; [|reflexivity].
    now rewrite <- app_assoc.
Qed.

Lemma gather_entry_units acc e : gather_entry acc e = acc ++ entry_units e.
Proof.
  unfold gather_entry, entry_units, String_match_runs, entry_tokens.
  destruct (is_slide (entryName e)); [|now rewrite app_nil_r].
  pose proof (fold_push_matches (scan_runs (utf8_decode (data e))) acc
                (canonical_scan_runs _)) as H.
  destruct (run_matches _); [|exact H]. exact H.
Qed.

(** The extracted units are the units of the parts, part after part. *)
Lemma gather_units z : gather z = concat (map entry_units z).
Proof.
  unfold gather. change (concat (map entry_units z)) with ([] ++ concat (map entry_units z)).
  generalize (@nil jsstring) as acc.
  induction z as [|e z IH]; intros acc; simpl; [now rewrite app_nil_r|].
  rewrite IH, gather_entry_units. now rewrite <- app_assoc.
Qed.

Lemma replace_runs_fold translations toks idx out :
  fold_left
    (fun '(st, out) t =>
       match t with
       | Lit c => (st, out ++ [c])
       | Run p1 =>
           let '(st', r) := rewrite_run translations st (run_text p1) p1 in
           (st', out ++ r)
       end) toks (idx, out)
  = ((idx + length (units toks))%nat, out ++ concat (pieces translations idx toks)).
Proof.
  revert idx out. induction toks as [|[c|p1] toks IH]; intros idx out; simpl.
  - now rewrite Nat.add_0_r, app_nil_r.
  - rewrite IH. now rewrite <- app_assoc.
  - unfold rewrite_run. fold (nonblank p1). destruct (nonblank p1);
      rewrite IH, <- app_assoc; simpl; [|reflexivity].
    f_equal. lia.
Qed.

(** The [replace] of step 3 on one part. *)
Lemma replace_runs_pieces translations idx s :
  String_replace_runs (rewrite_run translations) idx s
  = ((idx + length (units (scan_runs s)))%nat,
     concat (pieces translations idx (scan_runs s))).
Proof. unfold String_replace_runs. now rewrite replace_runs_fold. Qed.

(** With distinct names, [updateFile] sets the data of the entry it was
    called for. *)
Lemma updateFile_middle l1 e l2 content :
  entryName e ∉ map entryName l1 ->
  entryName e ∉ map entryName l2 ->
  updateFile (entryName e) content (l1 ++ e :: l2)
  = l1 ++ {| entryName := entryName e; data := content |} :: l2.
Proof.
  intros H1 H2. induction l1 as [|x l1 IH]; simpl.
  - rewrite bool_decide_eq_true_2 by reflexivity.
    replace (existsb _ l2) with false; [reflexivity|].
    symmetry. apply not_true_is_false. intros (x & Hx & Hn)%existsb_exists.
    apply bool_decide_eq_true in Hn. apply H2. rewrite <- Hn.
    apply list_elem_of_In, in_map, Hx.
  - simpl in H1. apply not_elem_of_cons in H1 as [Hne H1].
    rewrite bool_decide_eq_false_2 by congruence. simpl. now rewrite IH.
Qed.

Lemma rebuilt_entry_name translations idx e :
  entryName (rebuilt_entry translations idx e) = entryName e.
Proof. unfold rebuilt_entry. now destruct (is_slide _). Qed.

Lemma reconstruct_loop translations todo done idx :
  NoDup (map entryName (done ++ todo)) ->
  fold_left (reconstruct_entry translations) (seq (length done) (length todo))
            (idx, done ++ todo)
  = ((idx + length (concat (map entry_units todo)))%nat,
     done ++ rebuild translations idx todo).
Proof.
  revert done idx. induction todo as [|e todo IH]; intros done idx Hnd.
  - simpl. now rewrite Nat.add_0_r.
  - cbn [length seq fold_left]. unfold reconstruct_entry at 2.
    rewrite list_lookup_middle by reflexivity.
    rewrite map_app in Hnd. cbn [map] in Hnd.
    apply NoDup_app in Hnd as (Hd & Hcross & Hrest).
    apply NoDup_cons in Hrest as [Hfresh Htodo].
    assert (entryName e ∉ map entryName done) as Hdone.
    { intros Hin. apply (Hcross _ Hin). left. }
    assert (forall e', entryName e' = entryName e ->
              NoDup (map entryName ((done ++ [e']) ++ todo))) as Hnd'.
    { intros e' He'. rewrite <- app_assoc, map_app. cbn [app map]. rewrite He'.
      apply NoDup_app. split; [assumption|]. split; [assumption|].
      apply NoDup_cons. split; assumption. }
    cbn [map concat]. rewrite length_app.
    set (U := concat (map entry_units todo)).
    cbn [rebuild]. unfold rebuilt_entry, entry_units.
    destruct (is_slide (entryName e)) eqn:Hs.
    + rewrite replace_runs_pieces.
      rewrite updateFile_middle by assumption.
      fold (entry_tokens e).
      set (e' := {| entryName := entryName e; data := _ |}).
      change (done ++ e' :: todo) with (done ++ [e'] ++ todo).
      rewrite app_assoc.
      replace (S (length done)) with (length (done ++ [e']))
        by (rewrite length_app; simpl; lia).
      rewrite IH by (apply Hnd'; reflexivity).
      rewrite <- !app_assoc. f_equal. subst U. lia.
    + change (done ++ e :: todo) with (done ++ [e] ++ todo).
      rewrite app_assoc.
      replace (S (length done)) with (length (done ++ [e]))
        by (rewrite length_app; simpl; lia).
      rewrite IH by (apply Hnd'; reflexivity).
      rewrite <- !app_assoc, Nat.add_0_r. reflexivity.
Qed.

(** Step 3 on an archive with distinct part names. *)
Lemma reconstruct_rebuild translations z :
  NoDup (map entryName z) -> reconstruct translations z = rebuild translations 0 z.
Proof.
  intros Hnd. unfold reconstruct.
  pose proof (reconstruct_loop translations z [] 0 Hnd) as H.
  cbn [length app] in H. now rewrite H.
Qed.

Lemma rebuild_lookup translations z idx k e :
  z !! k = Some e ->
  rebuild translations idx z !! k
  = Some (rebuilt_entry translations
            (idx + length (concat (map entry_units (take k z))))%nat e).
Proof.
  revert idx k. induction z as [|x z IH]; intros idx [|k]; simpl; try easy.
  - intros [= ->]. now rewrite Nat.add_0_r.
  - intros H. rewrite (IH _ _ H), length_app. do 2 f_equal. lia.
Qed.

Lemma rebuild_length translations z idx :
  length (rebuild translations idx z) = length z.
Proof. revert idx. induction z as [|x z IH]; intros idx; simpl; [reflexivity|]. now rewrite IH. Qed.

Lemma nonblank_nonempty p1 : nonblank p1 = true -> p1 <> [].
Proof. intros H ->. discriminate H. Qed.

Lemma js_or_nonempty a b : b <> [] -> js_or a b <> [].
Proof.
  intros Hb. unfold js_or. destruct a as [r|]; [|exact Hb].
  destruct r; [exact Hb|discriminate].
Qed.

Lemma pieces_fallback translations toks pre post :
  Forall2 (fallback_piece translations (pre ++ units toks ++ post))
          (number_runs (length pre) toks)
          (pieces translations (length pre) toks).
Proof.
  revert pre. induction toks as [|[c|p1] toks IH]; intros pre; simpl.
  - constructor.
  - constructor; [reflexivity|]. apply IH.
  - destruct (nonblank p1) eqn:Hb.
    + constructor.
      * unfold fallback_piece. cbn [fst snd]. rewrite Hb. split.
        { simpl. now apply list_lookup_middle. }
        eexists. split; [reflexivity|]. split.
        { apply cleanText_nonempty, js_or_nonempty, nonblank_nonempty, Hb. }
        now intros ->.
      * specialize (IH (pre ++ [p1])).
        rewrite length_app, Nat.add_1_r, <- app_assoc in IH. exact IH.
    + constructor; [|apply IH]. unfold fallback_piece. cbn [snd]. now rewrite Hb.
Qed.

(** C2, as stated, fails on an archive that holds two parts of one name:
    [updateFile] writes to the last part of that name, so the second part
    is read as the first one was rewritten, and its own run, the unit 1, is
    written nowhere. *)
Lemma C2_counterexample :
  ~ (forall (translations : gmap jsstring jsstring) (z : list entry) (k : nat)
            (e : entry),
        z !! k = Some e ->
        is_slide (entryName e) = true ->
        exists ps,
          reconstruct translations z !! k
          = Some {| entryName := entryName e; data := utf8_encode (concat ps) |}
          /\ Forall2 (fallback_piece translations (gather z))
                     (number_runs (length (gather (take k z))) (entry_tokens e)) ps).
Proof.
  intros H.
  set (e := slide 1 (lit "<a:t>second</a:t>")).
  destruct (H ∅ [slide 1 (lit "<a:t>first</a:t>"); e] 1%nat e eq_refl eq_refl)
    as (ps & Hps & Hf).
  change (number_runs _ _) with [(1%nat, Run (lit "second"))] in Hf.
  inversion Hf as [|it p its ps' Hp Hrest]; subst. inversion Hrest; subst.
  destruct Hp as (_ & t & -> & _ & Ht). rewrite (Ht eq_refl) in Hps.
  vm_compute in Hps. discriminate Hps.
Qed.

(** C2, amended: for an archive with distinct part names, the reassembly
    loop leaves each slide part holding, for each non-blank matched run,
    the markers around a non-empty text; the run met with the cursor at
    [id] is the unit that the extraction numbered [id], and when the map
    has no entry for [id] the text is the sanitized original text of that
    unit. *)
Theorem C2_missing_translation_fallback
    (translations : gmap jsstring jsstring) (z : list entry) (k : nat) (e : entry) :
  NoDup (map entryName z) ->
  z !! k = Some e ->
  is_slide (entryName e) = true ->
  exists ps,
    reconstruct translations z !! k
    = Some {| entryName := entryName e; data := utf8_encode (concat ps) |}
    /\ Forall2 (fallback_piece translations (gather z))
               (number_runs (length (gather (take k z))) (entry_tokens e)) ps.
Proof.
  intros Hnd Hk Hs.
  exists (pieces translations (length (gather (take k z))) (entry_tokens e)).
  split.
  - rewrite reconstruct_rebuild, (rebuild_lookup _ _ _ _ _ Hk) by assumption.
    unfold rebuilt_entry. rewrite Hs, gather_units. reflexivity.
  - rewrite <- (take_drop_middle z k e Hk) at 1.
    rewrite gather_units, map_app, concat_app. cbn [map concat].
    unfold entry_units at 2. rewrite Hs, <- gather_units.
    apply pieces_fallback.
Qed.

Lemma pieces_frame translations toks idx :
  Forall2 frame_piece toks (pieces translations idx toks).
Proof.
  revert idx. induction toks as [|[c|p1] toks IH]; intros idx; simpl.
  - constructor.
  - constructor; [reflexivity|apply IH].
  - destruct (nonblank p1) eqn:Hb; (constructor; [|apply IH]); simpl; rewrite Hb;
      [eexists|]; reflexivity.
Qed.

Lemma pieces_no_units translations toks idx :
  units toks = [] -> concat (pieces translations idx toks) = render toks.
Proof.
  revert idx. induction toks as [|[c|p1] toks IH]; intros idx; simpl;
    [reflexivity|..].
  - intros H. unfold render in *. simpl. now rewrite IH.
  - destruct (nonblank p1); [discriminate|].
    intros H. unfold render in *. simpl. now rewrite IH.
Qed.

(** A unit below 128 is encoded as itself, and cuts the encoding in two:
    no surrogate pair spans it. *)
Lemma utf8_encode_ascii c b :
  c < 0x80 -> utf8_encode (c :: b) = c :: utf8_encode b.
Proof.
  intros Hc. cbn [utf8_encode]. unfold is_high_surrogate, is_low_surrogate.
  destruct (N.leb_spec 0xD800 c); [lia|]. cbn [andb].
  destruct (N.leb_spec 0xDC00 c); [lia|]. cbn [andb].
  unfold utf8_of_code_point. destruct (N.ltb_spec c 0x80); [reflexivity|lia].
Qed.

Lemma utf8_encode_split_length n a c b :
  (length a <= n)%nat -> c < 0x80 ->
  utf8_encode (a ++ c :: b) = utf8_encode a ++ c :: utf8_encode b.
Proof.
  revert a. induction n as [|n IH]; intros a Hn Hc.
  - destruct a; [|simpl in Hn; lia]. now apply utf8_encode_ascii.
  - destruct a as [|x a]; [now apply utf8_encode_ascii|].
    cbn [app utf8_encode]. simpl in Hn.
    destruct (is_high_surrogate x).
    + destruct a as [|d a]; cbn [app].
      * assert (is_low_surrogate c = false) as ->.
        { unfold is_low_surrogate. destruct (N.leb_spec 0xDC00 c); [lia|reflexivity]. }
        now rewrite utf8_encode_ascii.
      * destruct (is_low_surrogate d).
        -- rewrite IH by (simpl in Hn; lia || assumption). now rewrite <- app_assoc.
        -- change (d :: a ++ c :: b) with ((d :: a) ++ c :: b).
           rewrite (IH (d :: a)) by (simpl in *; lia || assumption).
           now rewrite <- app_assoc.
    + destruct (is_low_surrogate x); rewrite IH by (lia || assumption);
        now rewrite <- app_assoc.
Qed.

Lemma utf8_encode_split a c b :
  c < 0x80 -> utf8_encode (a ++ c :: b) = utf8_encode a ++ c :: utf8_encode b.
Proof. now apply (utf8_encode_split_length (length a)). Qed.

(** A text between an opening [<] and a closing [>] is encoded on its own,
    whatever stands before and after it. *)
Lemma utf8_encode_delimited a m b :
  utf8_encode (a ++ (60 :: m ++ [62]) ++ b)
  = utf8_encode a ++ utf8_encode (60 :: m ++ [62]) ++ utf8_encode b.
Proof.
  cbn [app]. rewrite utf8_encode_split by reflexivity.
  rewrite (utf8_encode_ascii 60) by reflexivity.
  rewrite <- !app_assoc. cbn [app].
  rewrite !utf8_encode_split by reflexivity.
  change (utf8_encode []) with (@nil N). rewrite <- app_assoc. reflexivity.
Qed.

Lemma byte_frames_spec translations toks idx acc :
  concat (map fst (byte_frames translations idx acc toks))
  = utf8_encode (acc ++ render toks)
  /\ concat (map snd (byte_frames translations idx acc toks))
     = utf8_encode (acc ++ concat (pieces translations idx toks))
  /\ Forall byte_frame (byte_frames translations idx acc toks).
Proof.
  revert idx acc. induction toks as [|[c|p1] toks IH]; intros idx acc.
  - cbn. rewrite !app_nil_r. repeat split. repeat constructor.
  - cbn [byte_frames pieces]. rewrite render_cons, List.concat_cons.
    cbn [token_text]. rewrite !app_assoc. apply IH.
  - cbn [byte_frames pieces]. rewrite render_cons. cbn [token_text].
    assert (forall m rest,
               utf8_encode (acc ++ (lit "<a:t>" ++ m ++ lit "</a:t>") ++ rest)
               = utf8_encode acc ++ utf8_encode (lit "<a:t>" ++ m ++ lit "</a:t>")
                 ++ utf8_encode rest) as Hcut.
    { intros m rest.
      replace (lit "<a:t>" ++ m ++ lit "</a:t>")
        with (60 :: (lit "a:t>" ++ m ++ lit "</a:t") ++ [62])
        by (cbn [lit app Ascii.N_of_ascii]; rewrite <- !app_assoc; reflexivity).
      apply utf8_encode_delimited. }
    destruct (nonblank p1) eqn:Hb;
      [destruct (IH (S idx) []) as (H1 & H2 & H3)
      |destruct (IH idx []) as (H1 & H2 & H3)];
      cbn [app] in H1, H2; cbn [map concat fst snd]; rewrite H1, H2;
      unfold run_text; rewrite !Hcut;
      (split; [reflexivity|]); (split; [reflexivity|]);
      (constructor; [now left|]); (constructor; [|exact H3]).
    + right. exists p1. eexists. split; [exact Hb|]. split; reflexivity.
    + now left.
Qed.

Lemma rebuild_names translations z :
  forall idx, map entryName (rebuild translations idx z) = map entryName z.
Proof.
  induction z as [|e z IH]; intros idx; [reflexivity|].
  cbn [rebuild map]. now rewrite rebuilt_entry_name, IH.
Qed.

(** What the loop of step 3 leaves of each part, for an archive with
    distinct part names: a part that is not a slide as it was, a slide part
    as the encoding of its decoded text with only the text between the
    markers of the non-blank matched runs changed. *)
Lemma reassembly_frame (translations : gmap jsstring jsstring) (z : list entry) :
  NoDup (map entryName z) ->
  forall k e, z !! k = Some e ->
    (is_slide (entryName e) = false -> reconstruct translations z !! k = Some e)
    /\ (is_slide (entryName e) = true ->
        utf8_decode (data e) = concat (map token_text (entry_tokens e))
        /\ (exists ps,
              reconstruct translations z !! k
              = Some {| entryName := entryName e; data := utf8_encode (concat ps) |}
              /\ Forall2 frame_piece (entry_tokens e) ps)
        /\ (units (entry_tokens e) = [] ->
            utf8_encode (utf8_decode (data e)) = data e ->
            reconstruct translations z !! k = Some e)
        /\ (utf8_encode (utf8_decode (data e)) = data e ->
            exists frames,
              data e = concat (map fst frames)
              /\ reconstruct translations z !! k
                 = Some {| entryName := entryName e;
                           data := concat (map snd frames) |}
              /\ Forall byte_frame frames)).
Proof.
  intros Hnd. rewrite reconstruct_rebuild by assumption.
  intros k e Hk. rewrite (rebuild_lookup _ _ _ _ _ Hk). unfold rebuilt_entry.
  split; [now intros ->|]. intros ->. split; [|split; [|split]].
  - symmetry. apply render_scan_runs.
  - eexists. split; [reflexivity|]. apply pieces_frame.
  - intros Hu Hwf. rewrite pieces_no_units by assumption.
    unfold entry_tokens. rewrite render_scan_runs, Hwf. now destruct e.
  - intros Hwf.
    destruct (byte_frames_spec translations (entry_tokens e)
                (0 + length (concat (map entry_units (take k z)))) [])
      as (H1 & H2 & H3).
    eexists. split; [|split; [|exact H3]].
    + rewrite H1. cbn [app]. unfold entry_tokens.
      now rewrite render_scan_runs, Hwf.
    + rewrite H2. reflexivity.
Qed.

End PptxFacts.

(** ** The archive written *)

Section ArchiveFacts.
Context (E : env).

Lemma insert_entry_perm e l : Permutation (insert_entry E e l) (e :: l).
Proof.
  induction l as [|x l IH]; cbn [insert_entry]; [reflexivity|].
  destruct (entry_rank E e x); try reflexivity.
  rewrite IH. apply perm_swap.
Qed.

Lemma sortEntries_perm z : Permutation (sortEntries E z) z.
Proof.
  induction z as [|e z IH]; cbn [sortEntries]; [reflexivity|].
  rewrite insert_entry_perm. now constructor.
Qed.

(** The archive written holds the entries of the archive in memory, each
    as often, in an order of its own. *)
Lemma toBuffer_perm z : Permutation (toBuffer E z) z.
Proof. apply sortEntries_perm. Qed.

Lemma toBuffer_In e z : In e z -> In e (toBuffer E z).
Proof. apply Permutation_in. symmetry. apply toBuffer_perm. Qed.

Lemma lookup_In {A : Type} (l : list A) k x : l !! k = Some x -> In x l.
Proof. intros H. apply list_elem_of_In. now apply list_elem_of_lookup_2 in H. Qed.

Lemma In_lookup {A : Type} (l : list A) x : In x l -> exists k, l !! k = Some x.
Proof. intros H. apply list_elem_of_In in H. now apply list_elem_of_lookup_1. Qed.

(** C9, as stated, fails on a slide part that is not well-formed UTF-8: in
    an archive that holds a text unit elsewhere, a slide part made of the
    byte FF holds no text run at all, and yet it is sent as the encoding of
    what it was decoded to, the bytes EF BF BD. *)
Lemma C9_counterexample :
  ~ (forall (E : env) (file_bytes : bytes) (jobId targetLanguage : jsstring)
            (w w' : world) (z out : list entry) (e : entry),
        readZip E file_bytes = Ok z ->
        NoDup (map entryName z) ->
        handlePptxTranslation E file_bytes jobId targetLanguage w = (w', Ok out) ->
        In e z ->
        units (entry_tokens e) = [] ->
        In e out).
Proof.
  intros H.
  set (e := {| entryName := lit "ppt/slides/slide2.xml"; data := [0xFF%N] |}).
  set (z := [slide 1 (lit "<a:t>Hi</a:t>"); e]).
  assert (exists w' out,
             handlePptxTranslation (sample_env z []) [] (lit "job") (lit "Turkish")
               empty_world = (w', Ok out)
             /\ ~ In e out) as (w' & out & Hrun & Hout).
  { eexists _, _. split; [vm_compute; reflexivity|].
    vm_compute. intros [H1|[H1|[]]]; discriminate H1. }
  apply Hout.
  apply (H (sample_env z []) [] (lit "job") (lit "Turkish") empty_world w' z out e);
    [reflexivity| |exact Hrun|right; left; reflexivity|reflexivity].
  apply (bool_decide_unpack _). vm_compute. exact I.
Qed.

(** C9, amended: with distinct part names, the archive sent holds one part
    for each part of the input, under the same name; a part whose name is
    not a slide name is sent identical, byte for byte; a slide part is sent
    as the UTF-8 encoding of its decoded text in which only the text between
    the markers of the non-blank matched runs may differ; a slide part with
    no such run whose bytes are the encoding of their decoding is sent
    identical, byte for byte; and a slide part whose bytes are the encoding
    of their decoding is cut into stretches of bytes of which the reassembly
    changes only those of the non-blank matched runs. *)
Theorem C9_reassembly_frame
    (translations : gmap jsstring jsstring) (z : list entry) :
  NoDup (map entryName z) ->
  let out := toBuffer E (reconstruct translations z) in
  Permutation (map entryName out) (map entryName z)
  /\ NoDup (map entryName out)
  /\ forall e, In e z ->
       (is_slide (entryName e) = false -> In e out)
       /\ (is_slide (entryName e) = true ->
           utf8_decode (data e) = concat (map token_text (entry_tokens e))
           /\ (exists ps,
                 In {| entryName := entryName e; data := utf8_encode (concat ps) |} out
                 /\ Forall2 frame_piece (entry_tokens e) ps)
           /\ (units (entry_tokens e) = [] ->
               utf8_encode (utf8_decode (data e)) = data e ->
               In e out)
           /\ (utf8_encode (utf8_decode (data e)) = data e ->
               exists frames,
                 data e = concat (map fst frames)
                 /\ In {| entryName := entryName e;
                          data := concat (map snd frames) |} out
                 /\ Forall byte_frame frames)).
Proof.
  intros Hnd out.
  assert (Permutation (map entryName out) (map entryName z)) as Hnames.
  { unfold out. rewrite (Permutation_map entryName (toBuffer_perm _)).
    rewrite reconstruct_rebuild by assumption. now rewrite rebuild_names. }
  split; [exact Hnames|]. split.
  { now rewrite Hnames. }
  intros e [k Hk]%In_lookup.
  destruct (reassembly_frame translations z Hnd k e Hk) as [Hother Hslide].
  split.
  - intros Hs. apply toBuffer_In, (lookup_In _ k), Hother, Hs.
  - intros Hs. destruct (Hslide Hs) as (Hdec & (ps & Hps & Hframe) & Hsame & Hbytes).
    split; [exact Hdec|]. split; [|split].
    + exists ps. split; [|exact Hframe]. now apply toBuffer_In, (lookup_In _ k).
    + intros Hu Hwf. now apply toBuffer_In, (lookup_In _ k), Hsame.
    + intros Hwf. destruct (Hbytes Hwf) as (frames & H1 & H2 & H3).
      exists frames. split; [exact H1|]. split; [|exact H3].
      now apply toBuffer_In, (lookup_In _ k).
Qed.

End ArchiveFacts.

(** ** The round trip through a pass-through oracle *)

Section EchoFacts.
Local Open Scope N_scope.

Lemma uint_digits_inj d d' : uint_digits d = uint_digits d' -> d = d'.
Proof.
  revert d'. induction d; intros [] H; simpl in H; try discriminate;
    try reflexivity; injection H as H; f_equal; auto.
Qed.

Lemma decimal_inj m m' : decimal m = decimal m' -> m = m'.
Proof. intros H%uint_digits_inj. now apply DecimalNat.Unsigned.to_uint_inj. Qed.

Lemma uint_digits_digits d : forallb is_digit (uint_digits d) = true.
Proof. induction d; simpl; auto. Qed.

Lemma decimal_nonempty m : decimal m <> [].
Proof.
  unfold decimal. intros H.
  assert (Nat.to_uint m = Decimal.Nil) as E by (destruct (Nat.to_uint m); easy).
  pose proof (DecimalNat.Unsigned.of_to m) as Hm. rewrite E in Hm. simpl in Hm.
  subst m. discriminate E.
Qed.

Lemma line_match_prompt_line m text :
  line_match (prompt_line m text) = Some (decimal m, parsed_back text).
Proof.
  unfold prompt_line, line_match. cbn [lit app Ascii.N_of_ascii].
  change (decimal m ++ ?x) with (decimal m ++ x).
  pose proof (uint_digits_digits (Nat.to_uint m)) as Hd. fold (decimal m) in Hd.
  pose proof (decimal_nonempty m) as Hne.
  cbn -[decimal take_while drop_while is_digit is_space is_line_terminator].
  rewrite take_while_stop, drop_while_stop by (assumption || reflexivity).
  destruct (decimal m) eqn:E; [congruence|]. reflexivity.
Qed.

Lemma split_one_line sep s :
  forallb (fun c => negb (c =? sep)) s = true -> split sep s = [s].
Proof.
  induction s as [|c s IH]; simpl; [reflexivity|].
  intros [Hc Hs]%andb_true_iff. apply negb_true_iff in Hc. rewrite Hc, IH by assumption.
  reflexivity.
Qed.

Lemma split_app_sep sep s rest :
  forallb (fun c => negb (c =? sep)) s = true ->
  split sep (s ++ sep :: rest) = s :: split sep rest.
Proof.
  induction s as [|c s IH]; simpl.
  - now rewrite N.eqb_refl.
  - intros [Hc Hs]%andb_true_iff. apply negb_true_iff in Hc.
    rewrite Hc, IH by assumption. reflexivity.
Qed.

(** Splitting a joined list of lines gives the lines back, when none of
    them holds the separator. *)
Lemma split_join sep lines :
  lines <> [] ->
  Forall (fun l => forallb (fun c => negb (c =? sep)) l = true) lines ->
  split sep (join [sep] lines) = lines.
Proof.
  induction lines as [|l [|l' lines] IH]; [congruence| |]; intros _ Hall.
  - simpl. apply split_one_line. now inversion Hall.
  - inversion Hall as [|? ? Hl Hrest]; subst.
    change (join [sep] (l :: l' :: lines)) with (l ++ sep :: join [sep] (l' :: lines)).
    rewrite split_app_sep by assumption. f_equal. apply IH; [discriminate|assumption].
Qed.

Lemma prompt_line_one_line m text :
  one_line text -> forallb (fun c => negb (c =? 10)) (prompt_line m text) = true.
Proof.
  intros Ht. unfold prompt_line. rewrite !forallb_app, Ht.
  assert (forallb (fun c => negb (c =? 10)) (decimal m) = true) as ->.
  { pose proof (uint_digits_digits (Nat.to_uint m)) as Hd. fold (decimal m) in Hd.
    rewrite forallb_forall in Hd |- *. intros c Hc. specialize (Hd c Hc).
    unfold is_digit in Hd. apply andb_true_iff in Hd as [H1%N.leb_le H2%N.leb_le].
    apply negb_true_iff, N.eqb_neq. lia. }
  reflexivity.
Qed.

Lemma prompt_lines_shift i chunk :
  imap (fun idx text => lit "[" ++ decimal (i + idx) ++ lit "]: " ++ text) chunk
  = imap (fun idx => prompt_line (i + idx)) chunk.
Proof. reflexivity. Qed.

(** The map after the prompt lines of a chunk have been recorded. *)
Lemma record_prompt_lines chunk i translations m :
  fold_left record_line (imap (fun idx => prompt_line (i + idx)) chunk) translations
    !! decimal m
  = if bool_decide (i <= m < i + length chunk)%nat
    then parsed_back <$> chunk !! (m - i)%nat
    else translations !! decimal m.
Proof.
  revert i translations. induction chunk as [|x chunk IH]; intros i translations.
  - simpl. rewrite bool_decide_eq_false_2 by lia. reflexivity.
  - cbn [imap fold_left]. unfold record_line at 2.
    rewrite Nat.add_0_r, line_match_prompt_line.
    rewrite (imap_ext _ (fun idx => prompt_line (S i + idx)))
      by (intros idx t _; unfold compose; now rewrite Nat.add_succ_r).
    rewrite IH. cbn [length].
    destruct (decide (m = i)) as [->|Hne].
    + rewrite bool_decide_eq_false_2 by lia.
      rewrite bool_decide_eq_true_2 by lia.
      rewrite lookup_insert_eq, Nat.sub_diag. reflexivity.
    + destruct (decide (S i <= m < S i + length chunk)%nat) as [Hin|Hout].
      * rewrite !bool_decide_eq_true_2 by lia.
        replace (m - i)%nat with (S (m - S i)) by lia. reflexivity.
      * rewrite !bool_decide_eq_false_2 by lia.
        apply lookup_insert_ne. intros H%decimal_inj. congruence.
Qed.

Lemma js_or_empty s : js_or (Some s) [] = s.
Proof. now destruct s. Qed.

Lemma chunk_at_lookup allText i j :
  (j < chunkSize)%nat -> chunk_at allText i !! j = allText !! (i + j)%nat.
Proof.
  intros Hj. unfold chunk_at. rewrite lookup_take_lt by assumption.
  apply lookup_drop.
Qed.

Lemma chunk_at_length allText i :
  length (chunk_at allText i) = Nat.min chunkSize (length allText - i).
Proof. unfold chunk_at. now rewrite length_take, length_drop. Qed.

(** A pass-through oracle's response to the prompt of a chunk is read back
    line by line. *)
Lemma echo_response allText i :
  Forall one_line allText -> (i < length allText)%nat ->
  split 10 (promptText i (chunk_at allText i))
  = imap (fun idx => prompt_line (i + idx)) (chunk_at allText i).
Proof.
  intros Hall Hi. unfold promptText. rewrite prompt_lines_shift.
  apply split_join.
  - intros H. apply (f_equal length) in H.
    rewrite length_imap, chunk_at_length in H. unfold chunkSize in H.
    simpl length in H. lia.
  - apply Forall_lookup_2. intros j l Hl.
    rewrite list_lookup_imap in Hl.
    destruct (chunk_at allText i !! j) as [t|] eqn:Ht; [|discriminate].
    injection Hl as <-. apply prompt_line_one_line.
    rewrite Forall_forall in Hall. apply Hall.
    unfold chunk_at in Ht. apply list_elem_of_lookup_2 in Ht.
    now apply subseteq_take, subseteq_drop in Ht.
Qed.

Section EchoLoop.
Context (E : env).
Hypothesis pass_through : forall system user, oracle E system user = Ok (Some user).

(** Step 2 with a pass-through oracle never throws, and fills the entry of
    every id from [i] on with the text read back from its prompt line. *)
Lemma echo_translate_from jobId targetLanguage allText :
  Forall one_line allText ->
  forall n i w translations,
    (length allText - i <= n)%nat ->
    exists w' translations',
      translate_from E jobId targetLanguage allText i w translations
      = (w', Ok translations')
      /\ forall m,
           translations' !! decimal m
           = if bool_decide (i <= m < length allText)%nat
             then parsed_back <$> allText !! m
             else translations !! decimal m.
Proof.
  intros Hall. induction n as [|n IH]; intros i w translations Hn;
    rewrite translate_from_step.
  - destruct (Nat.ltb_spec i (length allText)); [lia|].
    eexists _, _. split; [reflexivity|]. intros m.
    now rewrite bool_decide_eq_false_2 by lia.
  - destruct (Nat.ltb_spec i (length allText)) as [Hi|Hi].
    + rewrite pass_through, js_or_empty. unfold record_response.
      rewrite echo_response by assumption.
      edestruct (IH (i + chunkSize)%nat) as (w' & tr' & -> & Htr');
        [unfold chunkSize; lia|].
      eexists _, _. split; [reflexivity|]. intros m. rewrite Htr'.
      rewrite record_prompt_lines, chunk_at_length.
      destruct (decide (i + chunkSize <= m < length allText)%nat) as [H1|H1].
      * now rewrite !bool_decide_eq_true_2 by lia.
      * rewrite (bool_decide_eq_false_2 _ H1).
        destruct (decide (i <= m < length allText)%nat) as [H2|H2].
        -- rewrite !bool_decide_eq_true_2 by lia.
           rewrite chunk_at_lookup by lia. do 2 f_equal. lia.
        -- now rewrite !bool_decide_eq_false_2 by lia.
    + eexists _, _. split; [reflexivity|]. intros m.
      now rewrite bool_decide_eq_false_2 by lia.
Qed.

End EchoLoop.

Lemma line_terminator_space c : is_line_terminator c = true -> is_space c = true.
Proof.
  unfold is_line_terminator, is_space.
  destruct (N.eqb_spec c 0x0A) as [->|_]; [reflexivity|].
  destruct (N.eqb_spec c 0x0D) as [->|_]; [reflexivity|].
  destruct (N.eqb_spec c 0x2028) as [->|_]; [reflexivity|].
  destruct (N.eqb_spec c 0x2029) as [->|_]; [reflexivity|].
  discriminate.
Qed.

Lemma printable_not_space c : 32 < c <= 126 -> is_space c = false.
Proof.
  intros Hc. unfold is_space.
  repeat (apply orb_false_intro); try (apply N.eqb_neq; lia);
    apply andb_false_iff; [right|left]; apply N.leb_gt; lia.
Qed.

Lemma drop_while_snoc f a c : f c = false -> drop_while f (a ++ [c]) <> [].
Proof.
  intros Hc. induction a as [|x a IH]; simpl; [now rewrite Hc|].
  destruct (f x); [exact IH|discriminate].
Qed.

(** A text is non-blank when something is left after its leading white
    space. *)
Lemma nonblank_spec p1 : nonblank p1 = truthy (drop_while is_space p1).
Proof.
  unfold nonblank, trim.
  destruct (drop_while is_space p1) as [|c r] eqn:E; [reflexivity|].
  pose proof (drop_while_head _ _ _ _ E) as Hc.
  cbn [rev].
  pose proof (drop_while_snoc is_space (rev r) c Hc) as Hne.
  destruct (drop_while is_space (rev r ++ [c])) as [|y ys]; [congruence|].
  cbn [rev]. destruct (rev ys); reflexivity.
Qed.

(** Of a non-blank text, the first unit that is not white space is read
    back. *)
Lemma parsed_back_head p1 :
  nonblank p1 = true ->
  exists c r, parsed_back p1 = c :: r /\ is_space c = false.
Proof.
  rewrite nonblank_spec. unfold parsed_back.
  destruct (drop_while is_space p1) as [|c r] eqn:E; [discriminate|]. intros _.
  pose proof (drop_while_head _ _ _ _ E) as Hc.
  assert (is_line_terminator c = false) as Hlt.
  { destruct (is_line_terminator c) eqn:H; [|reflexivity].
    apply line_terminator_space in H. congruence. }
  cbn [take_while]. rewrite Hlt. cbn [negb]. eauto.
Qed.

Lemma cleanChar_head c :
  is_space c = false -> exists x r, cleanChar c = x :: r /\ is_space x = false.
Proof.
  intros Hc.
  destruct (cleanChar_cases c) as [(img & H & ->)|[(_ & _ & ->)|(_ & _ & ->)]].
  - apply charMap_Some in H as (_ & Hne & Himg).
    destruct img as [|x r]; [congruence|]. exists x, r. split; [reflexivity|].
    inversion Himg as [|? ? Hx _]; subst. apply printable_not_space. lia.
  - eauto.
  - eexists _, _. split; reflexivity.
Qed.

Lemma nonblank_cons c r : is_space c = false -> nonblank (c :: r) = true.
Proof. intros Hc. rewrite nonblank_spec. cbn [drop_while]. now rewrite Hc. Qed.

(** What is read back of a non-blank text and then sanitized is non-blank. *)
Lemma nonblank_clean_parsed p1 :
  nonblank p1 = true -> nonblank (cleanText (parsed_back p1)) = true.
Proof.
  intros (c & r & -> & Hc)%parsed_back_head.
  rewrite cleanText_concat. cbn [map concat].
  destruct (cleanChar_head c Hc) as (x & r' & -> & Hx).
  now apply nonblank_cons.
Qed.

Lemma forallb_take_while f g s :
  forallb f s = true -> forallb f (take_while g s) = true.
Proof.
  induction s as [|c s IH]; simpl; [reflexivity|].
  intros [Hc Hs]%andb_true_iff. destruct (g c); simpl; [|reflexivity].
  now rewrite Hc, IH.
Qed.

Lemma forallb_drop_while f g s :
  forallb f s = true -> forallb f (drop_while g s) = true.
Proof.
  induction s as [|c s IH]; simpl; [reflexivity|].
  intros [Hc Hs]%andb_true_iff. destruct (g c); simpl; [auto|].
  now rewrite Hc, Hs.
Qed.

Lemma cleanChar_not_lt c : not_lt c = true -> forallb not_lt (cleanChar c) = true.
Proof.
  intros Hc.
  destruct (cleanChar_cases c) as [(img & H & ->)|[(_ & _ & ->)|(_ & _ & ->)]].
  - apply charMap_Some in H as (_ & _ & Himg).
    apply forallb_forall. intros x Hx. rewrite List.Forall_forall in Himg.
    specialize (Himg x Hx). unfold not_lt. apply negb_true_iff, N.eqb_neq. lia.
  - simpl. now rewrite Hc.
  - reflexivity.
Qed.

Lemma cleanText_not_lt s : forallb not_lt s = true -> forallb not_lt (cleanText s) = true.
Proof.
  rewrite cleanText_concat. induction s as [|c s IH]; simpl; [reflexivity|].
  intros [Hc Hs]%andb_true_iff.
  now rewrite forallb_app, cleanChar_not_lt, IH.
Qed.

(** What is read back of the capture of a non-blank run and then sanitized
    is a capture. *)
Lemma capture_clean_parsed p1 :
  capture p1 -> nonblank p1 = true -> capture (cleanText (parsed_back p1)).
Proof.
  intros [_ Hp] Hb. split.
  - apply nonblank_nonempty, nonblank_clean_parsed, Hb.
  - apply cleanText_not_lt. unfold parsed_back.
    now apply forallb_take_while, forallb_drop_while.
Qed.

Lemma same_shape_echo toks : canonical toks -> same_shape toks (echo_tokens toks).
Proof.
  induction toks as [|[c|p1] toks IH]; simpl.
  - constructor.
  - intros [_ Hc]. constructor; [reflexivity|exact (IH Hc)].
  - intros [Hp Hc]. constructor; [|exact (IH Hc)].
    destruct (nonblank p1) eqn:Hb; [now apply capture_clean_parsed|exact Hp].
Qed.

Lemma units_echo_tokens toks :
  units (echo_tokens toks) = map (fun p1 => cleanText (parsed_back p1)) (units toks).
Proof.
  induction toks as [|[c|p1] toks IH]; simpl; [reflexivity|exact IH|].
  destruct (nonblank p1) eqn:Hb; simpl.
  - rewrite nonblank_clean_parsed by assumption. simpl. now rewrite IH.
  - now rewrite Hb.
Qed.

(** With every unit's entry filled as a pass-through oracle fills it, the
    reassembly writes the tokens of the round trip. *)
Lemma pieces_echo translations toks pre post :
  (forall id p1, (pre ++ units toks ++ post) !! id = Some p1 ->
                 translations !! decimal id = Some (parsed_back p1)) ->
  concat (pieces translations (length pre) toks) = render (echo_tokens toks).
Proof.
  revert pre. induction toks as [|[c|p1] toks IH]; intros pre H.
  - reflexivity.
  - cbn [pieces echo_tokens map]. rewrite render_cons, List.concat_cons.
    f_equal. apply IH, H.
  - change (units (Run p1 :: toks))
      with ((if nonblank p1 then [p1] else []) ++ units toks) in H.
    cbn [pieces echo_tokens map].
    destruct (nonblank p1) eqn:Hb; cbn [app] in H;
      rewrite render_cons, List.concat_cons; cbn [token_text].
    + rewrite (H (length pre) p1) by (now apply list_lookup_middle).
      destruct (parsed_back_head p1 Hb) as (c & r & E & _).
      unfold js_or. rewrite E. cbn [truthy]. rewrite <- E.
      unfold run_text. f_equal.
      specialize (IH (pre ++ [p1])). rewrite length_app, Nat.add_1_r in IH.
      apply IH. intros id p Hid. apply H. now rewrite <- app_assoc in Hid.
    + f_equal. apply IH, H.
Qed.

Lemma parsed_back_plain p1 : plain p1 -> parsed_back p1 = p1.
Proof. intros [H1 H2]. unfold parsed_back. rewrite H1. now apply take_while_end. Qed.

(** C1, as stated, fails: a run that starts with a space comes back without
    it, because the line pattern skips the white space after the colon. *)
Lemma C1_counterexample :
  ~ (forall (E : env) (file_bytes : bytes) (jobId targetLanguage : jsstring)
            (w : world) (z : list entry),
        (forall system user, oracle E system user = Ok (Some user)) ->
        readZip E file_bytes = Ok z ->
        NoDup (map entryName z) ->
        gather z <> [] ->
        exists w' out,
          handlePptxTranslation E file_bytes jobId targetLanguage w = (w', Ok out)
          /\ gather out = map cleanText (gather z)).
Proof.
  intros H.
  set (z := [slide 1 (lit "<a:p><a:r><a:t> a</a:t></a:r></a:p>")]).
  destruct (H (sample_env z []) [] (lit "job") (lit "Turkish") empty_world z)
    as (w' & out & Hrun & Hout).
  - reflexivity.
  - reflexivity.
  - apply NoDup_singleton.
  - vm_compute. discriminate.
  - vm_compute in Hrun. injection Hrun as _ <-.
    vm_compute in Hout. discriminate Hout.
Qed.

Section RoundTrip.
Context (E : env).

(** C1, amended: for an archive with distinct part names and at least one
    text unit, none holding a line feed, and a pass-through oracle, the
    handler sends an archive with one part for each part of the input, under
    the same name; the parts that are not slides are sent unchanged, and
    each slide part is sent as the encoding of a text whose non-blank runs
    are, in order, the sanitized read-back texts of the original runs of
    that part (the original without its leading white space, up to its
    first line terminator), hence the sanitized originals when these have no
    leading white space and no line terminator. *)
Theorem C1_pass_through_round_trip (file_bytes : bytes)
    (jobId targetLanguage : jsstring) (w : world) (z : list entry) :
  (forall system user, oracle E system user = Ok (Some user)) ->
  readZip E file_bytes = Ok z ->
  NoDup (map entryName z) ->
  gather z <> [] ->
  Forall one_line (gather z) ->
  exists w' out,
    handlePptxTranslation E file_bytes jobId targetLanguage w = (w', Ok out)
    /\ length out = length z
    /\ Permutation (map entryName out) (map entryName z)
    /\ forall e, In e z ->
         (is_slide (entryName e) = false -> In e out)
         /\ (is_slide (entryName e) = true ->
             exists content',
               In {| entryName := entryName e; data := utf8_encode content' |} out
               /\ units (scan_runs content')
                  = map (fun p1 => cleanText (parsed_back p1)) (units (entry_tokens e))
               /\ (Forall plain (units (entry_tokens e)) ->
                   units (scan_runs content') = map cleanText (units (entry_tokens e)))).
Proof.
  intros Hecho Hzip Hnd Hne Hlines.
  unfold handlePptxTranslation. rewrite Hzip.
  destruct (Nat.eqb_spec (length (gather z)) 0) as [H0|_].
  { destruct (gather z); [congruence|discriminate]. }
  edestruct (echo_translate_from E Hecho jobId targetLanguage (gather z) Hlines
               (length (gather z)) 0%nat) as (w' & tr & -> & Htr); [lia|].
  eexists _, _. split; [reflexivity|].
  rewrite reconstruct_rebuild by assumption.
  split; [rewrite (Permutation_length (toBuffer_perm E _)); apply rebuild_length|].
  split; [rewrite (Permutation_map entryName (toBuffer_perm E _));
          now rewrite rebuild_names|].
  intros e [k Hk]%In_lookup.
  pose proof (rebuild_lookup tr z 0%nat k e Hk) as Hout. unfold rebuilt_entry in Hout.
  split; intros Hs; rewrite Hs in Hout;
    [now apply toBuffer_In, (lookup_In _ k)|].
  eexists. split; [apply toBuffer_In, (lookup_In _ k), Hout|].
  cbn [Nat.add].
  rewrite (pieces_echo tr (entry_tokens e) _
             (concat (map entry_units (drop (S k) z)))).
  - rewrite scan_runs_render.
    + rewrite units_echo_tokens. split; [reflexivity|].
      intros Hplain. apply map_ext_Forall.
      eapply List.Forall_impl; [|exact Hplain].
      intros p Hp. simpl. now rewrite parsed_back_plain.
    + eapply canonical_same_shape; [apply same_shape_echo|];
        apply canonical_scan_runs.
  - intros id p Hid.
    assert (gather z !! id = Some p) as Hg.
    { rewrite gather_units, <- (take_drop_middle z k e Hk), map_app, concat_app.
      cbn [map concat]. unfold entry_units at 2. now rewrite Hs. }
    rewrite Htr. pose proof (lookup_lt_Some _ _ _ Hg) as Hlt.
    rewrite bool_decide_eq_true_2 by lia. now rewrite Hg.
Qed.

End RoundTrip.

End EchoFacts.

(** ** The layout of the PDF *)

Section LayoutFacts.
Context (E : env).
Local Open Scope Q_scope.

Lemma Qltb_lt a b : Qltb a b = true <-> (a < b)%Q.
Proof.
  unfold Qltb. rewrite negb_true_iff. split.
  - intros H. apply Qnot_le_lt. intros Hle. apply Qle_bool_iff in Hle. congruence.
  - intros H. apply not_true_is_false. intros Hle%Qle_bool_iff.
    exact (Qlt_not_le _ _ H Hle).
Qed.

Lemma Qltb_ge a b : Qltb a b = false <-> (b <= a)%Q.
Proof.
  unfold Qltb. rewrite negb_false_iff. apply Qle_bool_iff.
Qed.

Lemma chained_snoc before ds d :
  chained E before (ds ++ [d])
  <-> chained E before ds /\ follows E (before ++ ds) (draw_page d, draw_y d).
Proof.
  revert before. induction ds as [|x ds IH]; intros before; simpl.
  - rewrite app_nil_r. tauto.
  - rewrite IH, <- app_assoc. simpl. tauto.
Qed.

Lemma at_rest_ready c :
  page_fits E -> at_rest E c -> (margin + fontSize <= cur_y c)%Q.
Proof.
  unfold at_rest, follows, page_fits. intros Hfit.
  destruct (last (cur_draws c)) as [d|].
  - intros (adv & _ & H). unfold next_position in H.
    destruct (Qltb _ _) eqn:Hlt; injection H as _ ->; [exact Hfit|].
    now apply Qltb_ge.
  - intros [= _ ->]. exact Hfit.
Qed.

Lemma check_page_at_rest c : page_fits E -> at_rest E c -> check_page E c = c.
Proof.
  intros Hfit Hc. unfold check_page.
  pose proof (at_rest_ready c Hfit Hc) as Hy. apply Qltb_ge in Hy. now rewrite Hy.
Qed.

Lemma check_page_draws c : cur_draws (check_page E c) = cur_draws c.
Proof. unfold check_page. now destruct (Qltb _ _). Qed.

(** A draw that returns leaves the cursor of the text drawn. *)
Lemma drawText_Ok text c c' : drawText E text c = Ok c' -> c' = drawn text c.
Proof. unfold drawText. destruct (encodeText E text); congruence. Qed.

(** After a draw and an advance, the page test puts the cursor at rest. *)
Lemma check_page_after_draw c text adv :
  line_advance adv -> at_rest E (check_page E (advance adv (drawn text c))).
Proof.
  intros Hadv. unfold at_rest, follows. rewrite check_page_draws.
  cbn [advance drawn cur_draws]. rewrite last_snoc.
  exists adv. split; [exact Hadv|].
  unfold check_page, next_position. cbn [advance drawn cur_y cur_page draw_y draw_page].
  now destruct (Qltb _ _).
Qed.

Lemma check_page_pending c : pending c -> at_rest E (check_page E c).
Proof.
  intros (d & Hd & Hp & Hy). unfold at_rest, follows.
  rewrite check_page_draws, Hd. exists (fontSize + 10)%Q.
  split; [now right|].
  unfold check_page, next_position, new_page. rewrite Hy, Hp.
  destruct (Qltb _ _); cbn [cur_page cur_y]; [reflexivity|].
  now rewrite Hy, Hp.
Qed.

Lemma drawn_chained c text :
  chained E [] (cur_draws c) -> at_rest E c ->
  chained E [] (cur_draws (drawn text c)).
Proof.
  intros Hch Hrest. cbn [drawn cur_draws]. apply chained_snoc. split; assumption.
Qed.

(** The loop over the words keeps the draws chained E and leaves the cursor
    at rest. *)
Lemma place_words_chained words c currentLine :
  page_fits E -> chained E [] (cur_draws c) -> at_rest E c ->
  chained E [] (cur_draws (fst (place_words E c currentLine words)))
  /\ at_rest E (fst (place_words E c currentLine words)).
Proof.
  intros Hfit. revert c currentLine.
  induction words as [|word words IH]; intros c currentLine Hch Hrest; simpl.
  - split; assumption.
  - destruct (testWidth E currentLine word _) as [w|m]; [|split; assumption].
    destruct (Qltb (maxWidth E) w).
    + destruct (drawText E _ c) as [c1|m] eqn:Hdraw; [|split; assumption].
      apply drawText_Ok in Hdraw. subst c1. apply IH.
      * rewrite check_page_draws. cbn [advance cur_draws].
        now apply drawn_chained.
      * apply check_page_after_draw. now left.
    + now apply IH.
Qed.

(** The body of the loop over the lines keeps the draws chained E and leaves
    the cursor at rest or pending. *)
Lemma place_line_chained c line :
  page_fits E -> chained E [] (cur_draws c) -> at_rest E c \/ pending c ->
  chained E [] (cur_draws (fst (place_line E c line)))
  /\ (at_rest E (fst (place_line E c line)) \/ pending (fst (place_line E c line))).
Proof.
  intros Hfit Hch Hc. unfold place_line.
  assert (at_rest E (check_page E c)) as Hrest.
  { destruct Hc as [Hc|Hc]; [now rewrite check_page_at_rest|now apply check_page_pending]. }
  pose proof (place_words_chained (split 32%N line) (check_page E c) [] Hfit) as H.
  rewrite check_page_draws in H. specialize (H Hch Hrest).
  destruct (place_words E (check_page E c) [] (split 32%N line)) as [c' [cur|m]];
    cbn [fst] in H |- *; destruct H as [Hch' Hrest']; [|now auto].
  destruct (truthy cur); cbn [fst]; [|now auto].
  destruct (drawText E _ c') as [c1|m] eqn:Hdraw; cbn [fst]; [|now auto].
  apply drawText_Ok in Hdraw. subst c1.
  split; [now apply drawn_chained|]. right.
  eexists. cbn [advance drawn cur_draws cur_page cur_y].
  rewrite last_snoc. split; [reflexivity|]. split; reflexivity.
Qed.

Lemma place_lines_chained lines c :
  page_fits E -> chained E [] (cur_draws c) -> at_rest E c \/ pending c ->
  chained E [] (cur_draws (fst (place_lines E c lines))).
Proof.
  intros Hfit. revert c. induction lines as [|line lines IH]; intros c Hch Hc; simpl.
  - exact Hch.
  - pose proof (place_line_chained c line Hfit Hch Hc) as [Hch' Hc'].
    destruct (place_line E c line) as [c' [[]|m]]; cbn [fst] in *; [|exact Hch'].
    now apply IH.
Qed.

Lemma follows_ready ds pos :
  page_fits E -> follows E ds pos -> margin + fontSize <= snd pos.
Proof.
  unfold follows, page_fits. intros Hfit. destruct (last ds) as [d|].
  - intros (adv & _ & ->). unfold next_position.
    destruct (Qltb _ _) eqn:Hlt; cbn [snd]; [exact Hfit|]. now apply Qltb_ge.
  - intros ->. exact Hfit.
Qed.

Lemma line_advance_pos adv : line_advance adv -> 0 < adv.
Proof. intros [->| ->]; reflexivity. Qed.

Lemma follows_below d pos :
  (exists adv, line_advance adv /\ pos = next_position E d adv) ->
  (draw_page d < fst pos)%nat \/ (draw_page d = fst pos /\ snd pos < draw_y d).
Proof.
  intros (adv & Hadv%line_advance_pos & ->). unfold next_position.
  destruct (Qltb _ _); cbn [fst snd]; [left; lia|right].
  split; [reflexivity|]. lra.
Qed.

Lemma chained_ready before ds :
  page_fits E -> chained E before ds ->
  Forall (fun d => margin + fontSize <= draw_y d) ds.
Proof.
  intros Hfit. revert before. induction ds as [|d ds IH]; intros before; simpl.
  - constructor.
  - intros [Hd Hrest]. constructor; [|now apply (IH (before ++ [d]))].
    exact (follows_ready _ _ Hfit Hd).
Qed.

Lemma chained_adjacent before ds l1 d1 d2 l2 :
  chained E before ds -> ds = l1 ++ d1 :: d2 :: l2 ->
  exists adv, line_advance adv /\ (draw_page d2, draw_y d2) = next_position E d1 adv.
Proof.
  revert before ds. induction l1 as [|x l1 IH]; intros before ds Hch ->; simpl in Hch.
  - destruct Hch as (_ & Hd2 & _). unfold follows in Hd2.
    now rewrite last_snoc in Hd2.
  - destruct Hch as [_ Hch]. exact (IH _ _ Hch eq_refl).
Qed.

Lemma below_trans d1 d2 d3 : below d1 d2 -> below d2 d3 -> below d1 d3.
Proof.
  unfold below. intros [H1|[H1 Hy1]] [H2|[H2 Hy2]].
  - left; lia.
  - left; lia.
  - left; lia.
  - right. split; [congruence|]. now apply Qlt_trans with (draw_y d2).
Qed.

Lemma chained_sorted before ds : chained E before ds -> StronglySorted below ds.
Proof.
  intros Hch. apply Sorted_StronglySorted; [exact below_trans|].
  revert before Hch. induction ds as [|d ds IH]; intros before Hch; [constructor|].
  destruct Hch as [_ Hch]. constructor; [exact (IH _ Hch)|].
  destruct ds as [|d2 ds]; constructor.
  destruct Hch as [Hd2 _]. unfold follows in Hd2. rewrite last_snoc in Hd2.
  exact (follows_below d _ Hd2).
Qed.

(** C5: provided a page can hold a line, the lines are drawn from the top
    margin of the first page on; every line is drawn at least one font size
    above the bottom margin; of two drawn lines the later one is on a later
    page or strictly lower on the same page; and the line drawn next after a
    line stands one advance lower on the same page, unless that advance
    brings the cursor within one font size of the bottom margin, in which
    case it stands at the top margin of a new page. *)
Theorem C5_layout_cursor (translatedText : jsstring) :
  page_fits E ->
  let ds := cur_draws (fst (layout E translatedText)) in
  Forall (fun d => margin <= draw_y d /\ margin + fontSize <= draw_y d) ds
  /\ StronglySorted below ds
  /\ (forall l1 d1 d2 l2, ds = l1 ++ d1 :: d2 :: l2 ->
        exists adv, line_advance adv
                    /\ (draw_page d2, draw_y d2) = next_position E d1 adv)
  /\ (forall d l, ds = d :: l ->
        draw_page d = 0%nat /\ draw_y d = page_height E - margin).
Proof.
  intros Hfit ds.
  assert (chained E [] ds) as Hch.
  { apply place_lines_chained; [exact Hfit|exact I|]. left. reflexivity. }
  split; [|split; [|split]].
  - eapply List.Forall_impl; [|exact (chained_ready [] ds Hfit Hch)].
    intros d Hd. split; [|exact Hd]. unfold fontSize in Hd. lra.
  - exact (chained_sorted [] ds Hch).
  - intros l1 d1 d2 l2 Hds. exact (chained_adjacent [] ds l1 d1 d2 l2 Hch Hds).
  - intros d l Hds. rewrite Hds in Hch. destruct Hch as [Hd _].
    now injection Hd.
Qed.

End LayoutFacts.

(** ** No word is lost by the layout *)

Section WordFacts.
Local Open Scope N_scope.

Lemma split_nonempty sep s : split sep s <> [].
Proof.
  induction s as [|c s IH]; simpl; [discriminate|].
  destruct (c =? sep); [discriminate|]. destruct (split sep s); discriminate.
Qed.

(** Splitting is a morphism for the separator. *)
Lemma split_app sep a b :
  split sep (a ++ sep :: b) = split sep a ++ split sep b.
Proof.
  induction a as [|c a IH]; simpl.
  - now rewrite N.eqb_refl.
  - destruct (c =? sep); [now rewrite IH|]. rewrite IH.
    pose proof (split_nonempty sep a). destruct (split sep a); [congruence|reflexivity].
Qed.

Lemma split_prefix sep a r :
  forallb (fun c => negb (c =? sep)) a = true ->
  split sep (a ++ r) =
  match split sep r with
  | [] => [a]
  | w :: ws => (a ++ w) :: ws
  end.
Proof.
  pose proof (split_nonempty sep r) as Hr.
  induction a as [|c a IH]; simpl.
  - intros _. destruct (split sep r); [congruence|reflexivity].
  - intros [Hc Ha]%andb_true_iff. apply negb_true_iff in Hc. rewrite Hc, IH by assumption.
    destruct (split sep r); [congruence|reflexivity].
Qed.

Lemma split_pieces sep s :
  Forall (fun w => forallb (fun c => negb (c =? sep)) w = true) (split sep s).
Proof.
  induction s as [|c s IH]; simpl; [repeat constructor|].
  destruct (c =? sep) eqn:Hc; [now constructor|].
  destruct (split sep s) as [|w ws]; [repeat constructor; simpl; now rewrite Hc|].
  inversion IH; subst. constructor; [|assumption]. simpl. now rewrite Hc.
Qed.

Lemma split_Forall (P : N -> Prop) sep s :
  Forall P s -> Forall (Forall P) (split sep s).
Proof.
  induction 1 as [|c s Hc Hs IH]; cbn [split].
  - repeat constructor.
  - destruct (c =? sep).
    + constructor; [constructor|exact IH].
    + destruct (split sep s) as [|w ws]; [repeat constructor; exact Hc|].
      apply List.Forall_cons_iff in IH as [Hw Hws].
      constructor; [constructor; assumption|exact Hws].
Qed.

Lemma split_Forall_pieces (P : N -> Prop) sep s :
  Forall (fun u => u = sep \/ P u) s -> Forall (Forall P) (split sep s).
Proof.
  induction 1 as [|c s Hc Hs IH]; cbn [split].
  - repeat constructor.
  - destruct (N.eqb_spec c sep) as [->|Hne].
    + constructor; [constructor|exact IH].
    + destruct Hc as [Hc|Hc]; [contradiction|].
      destruct (split sep s) as [|w ws]; [repeat constructor; exact Hc|].
      apply List.Forall_cons_iff in IH as [Hw Hws].
      constructor; [constructor; assumption|exact Hws].
Qed.

Lemma split_no_separator sep s : ~ In sep s -> split sep s = [s].
Proof.
  induction s as [|c s IH]; intros H; cbn [split]; [reflexivity|].
  destruct (N.eqb_spec c sep) as [->|_]; [exfalso; apply H; now left|].
  rewrite IH; [reflexivity|]. intros Hin. apply H. now right.
Qed.

Lemma words_of_app a b : words_of (a ++ 32 :: b) = words_of a ++ words_of b.
Proof. unfold words_of. now rewrite split_app, List.filter_app. Qed.

Lemma words_of_nil : words_of [] = [].
Proof. reflexivity. Qed.

Lemma cleanChar_space : cleanChar 32 = [32].
Proof. reflexivity. Qed.

Lemma cleanChar_no_space c :
  c <> 32 -> forallb (fun x => negb (x =? 32)) (cleanChar c) = true.
Proof.
  intros Hc.
  destruct (cleanChar_cases c) as [(img & H & ->)|[(_ & _ & ->)|(_ & _ & ->)]].
  - apply charMap_Some in H as (_ & _ & Himg).
    apply forallb_forall. intros x Hx. rewrite List.Forall_forall in Himg.
    specialize (Himg x Hx). apply negb_true_iff, N.eqb_neq. lia.
  - simpl. apply N.eqb_neq in Hc. now rewrite Hc.
  - reflexivity.
Qed.

(** Sanitizing commutes with splitting at spaces. *)
Lemma split_cleanText s : split 32 (cleanText s) = map cleanText (split 32 s).
Proof.
  rewrite cleanText_concat. induction s as [|c s IH]; [reflexivity|].
  cbn [map concat split].
  destruct (N.eqb_spec c 32) as [->|Hc].
  - rewrite cleanChar_space. cbn [app split map]. rewrite N.eqb_refl.
    now rewrite IH.
  - rewrite split_prefix by now apply cleanChar_no_space.
    rewrite IH. pose proof (split_nonempty 32 s).
    destruct (split 32 s) as [|w ws]; [congruence|].
    cbn [map]. f_equal. rewrite !cleanText_concat. reflexivity.
Qed.

Lemma truthy_cleanText w : truthy (cleanText w) = truthy w.
Proof.
  destruct w as [|c w]; [reflexivity|].
  pose proof (cleanText_nonempty (c :: w)) as H.
  destruct (cleanText (c :: w)); [now exfalso; apply H|reflexivity].
Qed.

Lemma words_of_cleanText s : words_of (cleanText s) = map cleanText (words_of s).
Proof.
  unfold words_of. rewrite split_cleanText.
  induction (split 32 s) as [|w ws IH]; [reflexivity|].
  cbn [map List.filter]. rewrite truthy_cleanText.
  destruct (truthy w); cbn [map]; now rewrite IH.
Qed.

(** The words of the pieces of a line are the words of the line. *)
Lemma words_of_pieces s : flat_map words_of (split 32 s) = words_of s.
Proof.
  unfold words_of at 2. pose proof (split_pieces 32 s) as H.
  induction H as [|w ws Hw _ IH]; [reflexivity|].
  cbn [flat_map List.filter]. rewrite IH. unfold words_of at 1.
  rewrite split_one_line by assumption. cbn [List.filter].
  now destruct (truthy w).
Qed.

End WordFacts.

Section LayoutWords.
Context (E : env) (alphabet : N -> Prop).
Hypothesis measurable :
  forall text, Forall alphabet text ->
    exists w, widthOfTextAtSize E text fontSize = Ok w.

Lemma drawn_words_drawn text c :
  drawn_words (drawn text c) = drawn_words c ++ words_of text.
Proof.
  unfold drawn_words. cbn [drawn cur_draws].
  rewrite flat_map_app. simpl. now rewrite app_nil_r.
Qed.

Lemma drawn_words_check_page c : drawn_words (check_page E c) = drawn_words c.
Proof. unfold drawn_words. now rewrite check_page_draws. Qed.

Lemma testWidth_total currentLine word testLine :
  Forall alphabet testLine ->
  exists w, testWidth E currentLine word testLine = Ok w.
Proof.
  intros H. unfold testWidth. destruct (measurable testLine H) as [w ->]. eauto.
Qed.

(** A text that can be measured can be drawn once sanitized. *)
Lemma drawText_measured text c :
  Forall alphabet text ->
  drawText E (cleanText text) c = Ok (drawn (cleanText text) c).
Proof.
  intros H. destruct (measurable text H) as [w Hw]. unfold drawText.
  now rewrite (draws_what_it_measures E text fontSize w Hw).
Qed.

Lemma testLine_alphabet currentLine word :
  (truthy currentLine = true -> alphabet 32) ->
  Forall alphabet currentLine -> Forall alphabet word ->
  Forall alphabet (if truthy currentLine then currentLine ++ lit " " ++ word else word).
Proof.
  intros Hsp Hc Hw. destruct (truthy currentLine); [|exact Hw].
  apply Forall_app. split; [exact Hc|]. constructor; [now apply Hsp|exact Hw].
Qed.

(** The loop over the words returns, and what is drawn together with what
    is still accumulated holds every word seen.  The space is in the
    alphabet as soon as the loop joins two words. *)
Lemma place_words_words words c currentLine :
  Forall alphabet currentLine ->
  Forall (Forall alphabet) words ->
  alphabet 32 \/ (currentLine = [] /\ (length words <= 1)%nat) \/ words = [] ->
  exists c' currentLine',
    place_words E c currentLine words = (c', Ok currentLine')
    /\ Forall alphabet currentLine'
    /\ drawn_words c' ++ words_of (cleanText currentLine')
       = drawn_words c ++ words_of (cleanText currentLine)
         ++ map cleanText (flat_map words_of words).
Proof.
  revert c currentLine.
  induction words as [|word words IH]; intros c currentLine Hc Hws Hsp.
  - eexists _, _. split; [reflexivity|]. split; [exact Hc|].
    simpl. now rewrite app_nil_r.
  - apply List.Forall_cons_iff in Hws as [Hw Hws].
    assert (alphabet 32 \/ words = []) as Hsp'.
    { destruct Hsp as [H|[[_ H]|H]]; [now left| |discriminate].
      right. destruct words; [reflexivity|simpl in H; lia]. }
    assert (Forall alphabet
              (if truthy currentLine then currentLine ++ lit " " ++ word else word))
      as Htest.
    { apply testLine_alphabet; [|exact Hc|exact Hw].
      intros Ht. destruct Hsp as [H|[[-> _]|H]]; [exact H|discriminate|discriminate]. }
    cbn [place_words flat_map].
    destruct (testWidth_total currentLine word _ Htest) as [w ->].
    rewrite map_app, <- words_of_cleanText.
    destruct (Qltb (maxWidth E) w).
    + rewrite (drawText_measured currentLine c Hc).
      destruct (IH (check_page E (advance (fontSize + 5) (drawn (cleanText currentLine) c)))
                   word Hw Hws) as (c' & cur' & -> & Hcur & H).
      { destruct Hsp' as [H|H]; [now left|now right; right]. }
      eexists _, _. split; [reflexivity|]. split; [exact Hcur|]. rewrite H.
      rewrite drawn_words_check_page.
      change (drawn_words (advance _ ?x)) with (drawn_words x).
      rewrite drawn_words_drawn. now rewrite <- !app_assoc.
    + destruct (IH c (if truthy currentLine then currentLine ++ lit " " ++ word else word)
                  Htest Hws)
        as (c' & cur' & -> & Hcur & H).
      { destruct Hsp' as [H|H]; [now left|now right; right]. }
      eexists _, _. split; [reflexivity|]. split; [exact Hcur|]. rewrite H. f_equal.
      assert (words_of (cleanText (if truthy currentLine
                                   then currentLine ++ lit " " ++ word else word))
              = words_of (cleanText currentLine) ++ words_of (cleanText word)) as ->.
      { destruct currentLine as [|x xs]; [reflexivity|]. cbn [truthy].
        change (lit " " ++ word) with ([32%N] ++ word).
        rewrite !cleanText_app.
        change (cleanText [32%N]) with [32%N].
        apply words_of_app. }
      now rewrite <- app_assoc.
Qed.

Lemma place_line_words c line :
  Forall alphabet line ->
  exists c',
    place_line E c line = (c', Ok tt)
    /\ drawn_words c' = drawn_words c ++ map cleanText (words_of line).
Proof.
  intros Hline. unfold place_line.
  destruct (place_words_words (split 32%N line) (check_page E c) [])
    as (c' & cur' & -> & Hcur & H).
  { constructor. }
  { now apply split_Forall. }
  { destruct (in_dec N.eq_dec 32%N line) as [Hin|Hout].
    - left. rewrite List.Forall_forall in Hline. now apply Hline.
    - right; left. split; [reflexivity|]. now rewrite split_no_separator. }
  rewrite drawn_words_check_page, words_of_pieces in H.
  change (words_of (cleanText [])) with (@nil jsstring) in H. cbn [app] in H.
  destruct cur' as [|x xs] eqn:Hcur'; cbn [truthy].
  - eexists. split; [reflexivity|]. rewrite <- H.
    change (words_of (cleanText [])) with (@nil jsstring). now rewrite app_nil_r.
  - rewrite (drawText_measured (x :: xs) c' Hcur).
    eexists. split; [reflexivity|].
    change (drawn_words (advance _ ?x)) with (drawn_words x).
    now rewrite drawn_words_drawn.
Qed.

Lemma place_lines_words lines c :
  Forall (Forall alphabet) lines ->
  exists c',
    place_lines E c lines = (c', Ok tt)
    /\ drawn_words c' = drawn_words c ++ map cleanText (flat_map words_of lines).
Proof.
  revert c. induction lines as [|line lines IH]; intros c Hlines;
    cbn [place_lines flat_map].
  - eexists. split; [reflexivity|]. now rewrite app_nil_r.
  - apply List.Forall_cons_iff in Hlines as [Hline Hlines].
    destruct (place_line_words c line Hline) as (c1 & -> & H1).
    destruct (IH c1 Hlines) as (c2 & -> & H2).
    eexists. split; [reflexivity|]. now rewrite H2, H1, map_app, app_assoc.
Qed.

(** X29: when the font measures every text written in an alphabet, also
    when it finds a word alone wider than the text area, the layout of a
    text made of units of that alphabet and of line feeds returns without
    throwing, and the non-empty words of the drawn lines are, in order, the
    sanitized non-empty words of the lines of the text: the wide word is
    drawn, and so is every word after it. *)
Theorem layout_keeps_every_word (translatedText : jsstring) :
  Forall (fun u => u = 10%N \/ alphabet u) translatedText ->
  exists c,
    layout E translatedText = (c, Ok tt)
    /\ flat_map (fun d => words_of (draw_text d)) (cur_draws c)
       = map cleanText (flat_map words_of (split 10%N translatedText)).
Proof.
  intros Htext. unfold layout.
  destruct (place_lines_words (split 10%N translatedText) (first_page E))
    as (c & -> & H); [now apply split_Forall_pieces|].
  exists c. split; [reflexivity|exact H].
Qed.

End LayoutWords.

(** C6 at a translated text of two lines separated by a carriage return
    and a line feed, with a font that measures printable ASCII only: the
    sanitizer keeps the carriage return; the first word the loop measures
    ends in it, so the measurement throws; the call in the [catch] measures
    the same word and throws again; the layout throws before anything is
    drawn, and so does the handler. *)
Theorem C6_layout_throws_on_carriage_return :
  let text := lit "line1" ++ [13; 10]%N ++ lit "line2" in
  let E := strict_env text in
  cleanText text = text
  /\ testWidth E [] (lit "line1" ++ [13%N]) (lit "line1" ++ [13%N])
     = Throw (lit "WinAnsi cannot encode")
  /\ layout E text = (first_page E, Throw (lit "WinAnsi cannot encode"))
  /\ snd (handlePdfTranslation E [] (lit "job") (lit "French") empty_world)
     = Throw (lit "WinAnsi cannot encode").
Proof. vm_compute. repeat split; reflexivity. Qed.

(** ** The dispatch on the file name *)

Section RouteFacts.

(** C4, as stated, fails: a file named [notes.txt] (here one that holds a
    PDF) is handed to the PDF handler, and when the text layer can be read
    the request succeeds. *)
Lemma C4_counterexample :
  ~ (forall (E : env) (req : request) (f : file) (w : world),
        req_file req = Some f ->
        other_name E f ->
        status_code (snd (translate_route E req w)) <> 200%N).
Proof.
  intros H.
  apply (H (sample_env [] (lit "Hello world")) sample_request
           {| originalname := lit "notes.txt"; file_content := lit "%PDF-1.7" |}
           empty_world).
  - reflexivity.
  - split; reflexivity.
  - vm_compute. reflexivity.
Qed.

(** C4, amended: a request whose file name, lower-cased, does not end in
    [.pptx] is processed in PDF text-layer mode whatever the name or the
    content: the route answers what the PDF handler returns (status 200 and
    the document) or reports what it throws (status 500 and the message);
    the route has no error of its own for an unsupported format. *)
Theorem C4_other_names_go_to_pdf (E : env) (req : request) (f : file) (w : world) :
  req_file req = Some f ->
  endsWith (lit ".pptx") (toLowerCase E (originalname f)) = false ->
  translate_route E req w =
  let jobId := js_or (body_jobId req) (now E) in
  let targetLanguage := js_or (body_targetLanguage req) (lit "Turkish") in
  let w0 := set_job jobId {| job_status := starting;
                             job_message := lit "Initializing..." |} w in
  match handlePdfTranslation E (file_content f) jobId targetLanguage w0 with
  | (w1, Ok d) => (w1, {| status_code := 200; res_body := Pdf d |})
  | (w1, Throw m) =>
      (set_job jobId {| job_status := error; job_message := m |} w1,
       {| status_code := 500;
          res_body := Text (lit "An error occurred during translation: " ++ m) |})
  end.
Proof.
  intros Hf Hname. unfold translate_route, dispatch, isPptx.
  rewrite Hf, Hname. cbv zeta.
  destruct (handlePdfTranslation E _ _ _ _) as [w1 [d|m]]; reflexivity.
Qed.

End RouteFacts.

(** ** More on the sanitizer and the string builtins *)

Section SanitizerMore.
Local Open Scope N_scope.

(** X1: The strings that [cleanText] returns unchanged are exactly the
    strings of units at most 127. *)
Theorem cleanText_fixed_iff (text : jsstring) :
  cleanText text = text <-> Forall (fun c => c <= 127) text.
Proof.
  split.
  - intros H. rewrite <- H. apply cleanText_7bit.
  - apply cleanText_fixed.
Qed.

Lemma charTable_lengths :
  Forall (fun kv => (length (snd kv) <= 4)%nat) charTable.
Proof. unfold charTable. repeat (apply List.Forall_cons; [simpl; lia|]). apply List.Forall_nil. Qed.

Lemma cleanChar_length c : (1 <= length (cleanChar c) <= 4)%nat.
Proof.
  destruct (cleanChar_cases c) as [(img & H & ->)|[(_ & _ & ->)|(_ & _ & ->)]];
    [|simpl; lia|simpl; lia].
  pose proof (charMap_Some _ _ H) as (_ & Hne & _).
  apply assoc_In in H. pose proof charTable_lengths as HT.
  rewrite List.Forall_forall in HT. specialize (HT _ H). simpl in HT.
  destruct img; [congruence|simpl in *; lia].
Qed.

(** X2: Sanitizing never shortens a string and at most quadruples its
    length (the longest image, of the trademark sign, has four units). *)
Theorem cleanText_length (text : jsstring) :
  (length text <= length (cleanText text) <= 4 * length text)%nat.
Proof.
  rewrite cleanText_concat. induction text as [|c text IH]; simpl; [lia|].
  rewrite length_app. pose proof (cleanChar_length c). lia.
Qed.

Lemma cleanChar_line_feed : cleanChar 10 = [10].
Proof. reflexivity. Qed.

Lemma cleanChar_no_line_feed c :
  c <> 10 -> forallb (fun x => negb (x =? 10)) (cleanChar c) = true.
Proof.
  intros Hc.
  destruct (cleanChar_cases c) as [(img & H & ->)|[(_ & _ & ->)|(_ & _ & ->)]].
  - apply charMap_Some in H as (_ & _ & Himg).
    apply forallb_forall. intros x Hx. rewrite List.Forall_forall in Himg.
    specialize (Himg x Hx). apply negb_true_iff, N.eqb_neq. lia.
  - simpl. apply N.eqb_neq in Hc. now rewrite Hc.
  - reflexivity.
Qed.

(** X3: Sanitizing keeps the lines of a text: the lines of the sanitized
    text are the sanitized lines, one for one. *)
Theorem cleanText_lines (text : jsstring) :
  split 10 (cleanText text) = map cleanText (split 10 text).
Proof.
  rewrite cleanText_concat. induction text as [|c text IH]; [reflexivity|].
  cbn [map concat split].
  destruct (N.eqb_spec c 10) as [->|Hc].
  - rewrite cleanChar_line_feed. cbn [app split map]. rewrite N.eqb_refl.
    now rewrite IH.
  - rewrite split_prefix by now apply cleanChar_no_line_feed.
    rewrite IH. pose proof (split_nonempty 10 text).
    destruct (split 10 text) as [|w ws]; [congruence|].
    cbn [map]. f_equal. rewrite !cleanText_concat. reflexivity.
Qed.

(** Joining the pieces of a split with the separator gives the string
    back: [s.split(sep).join(sep)] is [s]. *)
Lemma join_split (sep : N) (s : jsstring) : join [sep] (split sep s) = s.
Proof.
  induction s as [|c s IH]; [reflexivity|]. cbn [split].
  pose proof (split_nonempty sep s) as Hne.
  destruct (N.eqb_spec c sep) as [->|Hc].
  - destruct (split sep s) as [|w ws]; [congruence|].
    change (join [sep] ([] :: w :: ws)) with (sep :: join [sep] (w :: ws)).
    now rewrite IH.
  - destruct (split sep s) as [|w [|w' ws]]; [congruence| |].
    + simpl in *. now rewrite IH.
    + change (join [sep] ((c :: w) :: w' :: ws))
        with (c :: (w ++ [sep] ++ join [sep] (w' :: ws))).
      change (join [sep] (w :: w' :: ws))
        with (w ++ [sep] ++ join [sep] (w' :: ws)) in IH.
      now rewrite IH.
Qed.

Lemma endsWith_short p s : (length s < length p)%nat -> endsWith p s = false.
Proof. intros H. unfold endsWith. destruct (Nat.leb_spec (length p) (length s)); [lia|reflexivity]. Qed.

Lemma endsWith_app p r : endsWith p (r ++ p) = true.
Proof.
  unfold endsWith. rewrite length_app.
  destruct (Nat.leb_spec (length p) (length r + length p)); [|lia]. cbn [andb].
  replace (length r + length p - length p)%nat with (length r) by lia.
  rewrite drop_app_length. rewrite <- (app_nil_r p) at 2. apply startsWith_app.
Qed.

Lemma endsWith_true p s : endsWith p s = true -> exists r, s = r ++ p.
Proof.
  unfold endsWith. intros [Hlen Hs]%andb_true_iff.
  apply Nat.leb_le in Hlen. apply startsWith_true in Hs.
  exists (take (length s - length p) s).
  rewrite <- (take_drop (length s - length p) s) at 1. f_equal.
  rewrite Hs. rewrite drop_ge; [now rewrite app_nil_r|].
  rewrite length_drop. lia.
Qed.

Lemma endsWith_long p a r :
  (length p <= length r)%nat -> endsWith p (a ++ r) = endsWith p r.
Proof.
  intros H. unfold endsWith. rewrite length_app.
  destruct (Nat.leb_spec (length p) (length a + length r)); [|lia].
  destruct (Nat.leb_spec (length p) (length r)); [|lia]. cbn [andb].
  rewrite drop_app_ge by lia. do 2 f_equal. lia.
Qed.

(** X4: The parts both loops take for slides are exactly those named
    [ppt/slides/slide], then anything, then [.xml]. *)
Theorem is_slide_iff (name : jsstring) :
  is_slide name = true
  <-> exists mid, name = lit "ppt/slides/slide" ++ mid ++ lit ".xml".
Proof.
  unfold is_slide. split.
  - intros [Hp Hs]%andb_true_iff. apply startsWith_true in Hp.
    change (length (lit "ppt/slides/slide")) with 16%nat in Hp.
    set (r := drop 16 name) in *. rewrite Hp in Hs.
    destruct (Nat.lt_ge_cases (length r) 4) as [Hshort|Hlong].
    + exfalso. destruct r as [|a [|b [|c [|d r]]]]; simpl in Hshort; try lia;
        vm_compute in Hs; discriminate Hs.
    + rewrite endsWith_long in Hs by exact Hlong.
      apply endsWith_true in Hs as [mid Hmid].
      exists mid. now rewrite Hp, Hmid.
  - intros [mid ->]. rewrite startsWith_app. cbn [andb].
    rewrite app_assoc. apply endsWith_app.
Qed.

End SanitizerMore.

(** ** The UTF-8 round trip *)

Section Utf8Facts.
Local Open Scope N_scope.

Lemma land_low_bits b k base :
  base mod 2 ^ k = 0 -> base <= b < base + 2 ^ k ->
  N.land b (N.ones k) = b - base.
Proof.
  intros Hbase Hb. rewrite N.land_ones.
  assert (2 ^ k <> 0) as Hk by (apply N.pow_nonzero; discriminate).
  pose proof (N.div_mod base (2 ^ k) Hk) as Hdm. rewrite Hbase, N.add_0_r in Hdm.
  symmetry. apply (N.mod_unique b (2 ^ k) (base / 2 ^ k)); [lia|].
  rewrite <- Hdm. lia.
Qed.

Lemma lor_shiftl_low a x k :
  x < 2 ^ k -> N.lor (N.shiftl a k) x = 2 ^ k * a + x.
Proof.
  intros Hx.
  assert (N.land (N.shiftl a k) x = 0) as Hdisj.
  { apply N.bits_inj_0. intros n. rewrite N.land_spec.
    destruct (N.lt_ge_cases n k) as [Hn|Hn].
    - now rewrite N.shiftl_spec_low.
    - rewrite <- (N.mod_small x (2 ^ k)) by assumption.
      rewrite N.mod_pow2_bits_high by assumption. apply andb_false_r. }
  rewrite <- N.lxor_lor, <- N.add_nocarry_lxor by assumption.
  rewrite N.shiftl_mul_pow2. lia.
Qed.

Lemma continuation_bits r : r < 64 -> N.land (0x80 + r) 0x3F = r.
Proof.
  intros. change 0x3F with (N.ones 6).
  rewrite (land_low_bits _ 6 0x80) by (reflexivity || (change (2 ^ 6) with 64; lia)).
  lia.
Qed.

Lemma decode_one b rest :
  b <= 0x7F -> utf8_decode_from None (b :: rest) = b :: utf8_decode_from None rest.
Proof.
  intros Hb. cbn [utf8_decode_from]. unfold utf8_lead.
  destruct (N.leb_spec b 0x7F); [reflexivity|lia].
Qed.

Lemma decode_two q r rest :
  2 <= q <= 31 -> r < 64 ->
  utf8_decode_from None (0xC0 + q :: 0x80 + r :: rest)
  = utf16_of_code_point (64 * q + r) ++ utf8_decode_from None rest.
Proof.
  intros Hq Hr. cbn [utf8_decode_from]. unfold utf8_lead.
  destruct (N.leb_spec (0xC0 + q) 0x7F); [lia|].
  destruct (N.leb_spec 0xC2 (0xC0 + q)); [|lia].
  destruct (N.leb_spec (0xC0 + q) 0xDF); [|lia].
  cbn [andb utf8_decode_from lower_boundary upper_boundary code_point bytes_needed].
  destruct (N.leb_spec 0x80 (0x80 + r)); [|lia].
  destruct (N.leb_spec (0x80 + r) 0xBF); [|lia]. cbn [andb].
  change 0x1F with (N.ones 5).
  rewrite (land_low_bits _ 5 0xC0) by (reflexivity || (change (2 ^ 5) with 32; lia)).
  rewrite continuation_bits by assumption.
  rewrite (lor_shiftl_low _ r 6) by assumption.
  do 2 f_equal. change (2 ^ 6) with 64. lia.
Qed.

Lemma decode_three q1 q2 q3 rest :
  q1 <= 15 -> q2 < 64 -> q3 < 64 ->
  (q1 = 0 -> 32 <= q2) -> (q1 = 13 -> q2 < 32) ->
  utf8_decode_from None (0xE0 + q1 :: 0x80 + q2 :: 0x80 + q3 :: rest)
  = utf16_of_code_point (64 * (64 * q1 + q2) + q3) ++ utf8_decode_from None rest.
Proof.
  intros H1 H2 H3 Hlow Hhigh. cbn [utf8_decode_from]. unfold utf8_lead.
  destruct (N.leb_spec (0xE0 + q1) 0x7F); [lia|].
  destruct (N.leb_spec 0xC2 (0xE0 + q1)); [|lia].
  destruct (N.leb_spec (0xE0 + q1) 0xDF); [lia|].
  destruct (N.leb_spec 0xE0 (0xE0 + q1)); [|lia].
  destruct (N.leb_spec (0xE0 + q1) 0xEF); [|lia].
  cbn [andb utf8_decode_from lower_boundary upper_boundary code_point bytes_needed].
  assert (((if 0xE0 + q1 =? 0xE0 then 0xA0 else 0x80) <=? 0x80 + q2) = true) as ->.
  { destruct (N.eqb_spec (0xE0 + q1) 0xE0); apply N.leb_le; [|lia].
    assert (q1 = 0) as E by lia. specialize (Hlow E). lia. }
  assert ((0x80 + q2 <=? (if 0xE0 + q1 =? 0xED then 0x9F else 0xBF)) = true) as ->.
  { destruct (N.eqb_spec (0xE0 + q1) 0xED); apply N.leb_le; [|lia].
    assert (q1 = 13) as E by lia. specialize (Hhigh E). lia. }
  cbn [andb utf8_decode_from lower_boundary upper_boundary code_point bytes_needed].
  destruct (N.leb_spec 0x80 (0x80 + q3)); [|lia].
  destruct (N.leb_spec (0x80 + q3) 0xBF); [|lia]. cbn [andb].
  change 0xF with (N.ones 4).
  rewrite (land_low_bits _ 4 0xE0) by (reflexivity || (change (2 ^ 4) with 16; lia)).
  rewrite !continuation_bits by assumption.
  rewrite (lor_shiftl_low _ q2 6) by assumption.
  rewrite (lor_shiftl_low _ q3 6) by assumption.
  do 2 f_equal. change (2 ^ 6) with 64. lia.
Qed.

Lemma decode_four q1 q2 q3 q4 rest :
  q1 <= 4 -> q2 < 64 -> q3 < 64 -> q4 < 64 ->
  (q1 = 0 -> 16 <= q2) -> (q1 = 4 -> q2 < 16) ->
  utf8_decode_from None
    (0xF0 + q1 :: 0x80 + q2 :: 0x80 + q3 :: 0x80 + q4 :: rest)
  = utf16_of_code_point (64 * (64 * (64 * q1 + q2) + q3) + q4)
    ++ utf8_decode_from None rest.
Proof.
  intros H1 H2 H3 H4 Hlow Hhigh. cbn [utf8_decode_from]. unfold utf8_lead.
  destruct (N.leb_spec (0xF0 + q1) 0x7F); [lia|].
  destruct (N.leb_spec 0xC2 (0xF0 + q1)); [|lia].
  destruct (N.leb_spec (0xF0 + q1) 0xDF); [lia|].
  destruct (N.leb_spec 0xE0 (0xF0 + q1)); [|lia].
  destruct (N.leb_spec (0xF0 + q1) 0xEF); [lia|].
  destruct (N.leb_spec 0xF0 (0xF0 + q1)); [|lia].
  destruct (N.leb_spec (0xF0 + q1) 0xF4); [|lia].
  cbn [andb utf8_decode_from lower_boundary upper_boundary code_point bytes_needed].
  assert (((if 0xF0 + q1 =? 0xF0 then 0x90 else 0x80) <=? 0x80 + q2) = true) as ->.
  { destruct (N.eqb_spec (0xF0 + q1) 0xF0); apply N.leb_le; [|lia].
    assert (q1 = 0) as E by lia. specialize (Hlow E). lia. }
  assert ((0x80 + q2 <=? (if 0xF0 + q1 =? 0xF4 then 0x8F else 0xBF)) = true) as ->.
  { destruct (N.eqb_spec (0xF0 + q1) 0xF4); apply N.leb_le; [|lia].
    assert (q1 = 4) as E by lia. specialize (Hhigh E). lia. }
  cbn [andb utf8_decode_from lower_boundary upper_boundary code_point bytes_needed].
  destruct (N.leb_spec 0x80 (0x80 + q3)); [|lia].
  destruct (N.leb_spec (0x80 + q3) 0xBF); [|lia].
  cbn [andb utf8_decode_from lower_boundary upper_boundary code_point bytes_needed].
  destruct (N.leb_spec 0x80 (0x80 + q4)); [|lia].
  destruct (N.leb_spec (0x80 + q4) 0xBF); [|lia]. cbn [andb].
  change 0x7 with (N.ones 3).
  rewrite (land_low_bits _ 3 0xF0) by (reflexivity || (change (2 ^ 3) with 8; lia)).
  rewrite !continuation_bits by assumption.
  rewrite (lor_shiftl_low _ q2 6) by assumption.
  rewrite (lor_shiftl_low _ q3 6) by assumption.
  rewrite (lor_shiftl_low _ q4 6) by assumption.
  do 2 f_equal. change (2 ^ 6) with 64. lia.
Qed.

Ltac div_mod_facts a b :=
  pose proof (N.div_mod a b ltac:(discriminate));
  pose proof (N.mod_lt a b ltac:(discriminate)).

Lemma low_six_bits cp : N.land cp 0x3F = cp mod 64.
Proof. change 0x3F with (N.ones 6). now rewrite N.land_ones. Qed.

Lemma shiftr_6 cp : N.shiftr cp 6 = cp / 64.
Proof. now rewrite N.shiftr_div_pow2. Qed.

Lemma shiftr_12 cp : N.shiftr cp 12 = cp / 64 / 64.
Proof. rewrite N.shiftr_div_pow2, N.Div0.div_div. reflexivity. Qed.

Lemma shiftr_18 cp : N.shiftr cp 18 = cp / 64 / 64 / 64.
Proof. rewrite N.shiftr_div_pow2, !N.Div0.div_div. reflexivity. Qed.

Lemma utf16_of_unit cp : cp < 0x10000 -> utf16_of_code_point cp = [cp].
Proof.
  intros H. unfold utf16_of_code_point.
  destruct (N.ltb_spec cp 0x10000); [reflexivity|lia].
Qed.

(** Decoding the encoding of a scalar value gives its UTF-16 form back,
    whatever follows. *)
Lemma decode_code_point cp rest :
  scalar_value cp ->
  utf8_decode_from None (utf8_of_code_point cp ++ rest)
  = utf16_of_code_point cp ++ utf8_decode_from None rest.
Proof.
  intros [Hmax Hsur]. unfold utf8_of_code_point.
  destruct (N.ltb_spec cp 0x80) as [H1|H1].
  { cbn [app]. rewrite decode_one by lia. now rewrite utf16_of_unit by lia. }
  destruct (N.ltb_spec cp 0x800) as [H2|H2].
  { cbn [app]. rewrite low_six_bits, shiftr_6.
    div_mod_facts cp 64.
    rewrite decode_two.
    - do 2 f_equal. lia.
    - generalize dependent (cp / 64). generalize dependent (cp mod 64). intros. lia.
    - assumption. }
  destruct (N.ltb_spec cp 0x10000) as [H3|H3].
  { cbn [app]. rewrite !low_six_bits, shiftr_6, shiftr_12.
    div_mod_facts cp 64. div_mod_facts (cp / 64) 64.
    rewrite decode_three.
    - do 2 f_equal. lia.
    - generalize dependent (cp / 64 / 64). generalize dependent (cp / 64 mod 64).
      generalize dependent (cp / 64). generalize dependent (cp mod 64). intros. lia.
    - assumption.
    - assumption.
    - generalize dependent (cp / 64 / 64). generalize dependent (cp / 64 mod 64).
      generalize dependent (cp / 64). generalize dependent (cp mod 64). intros. lia.
    - generalize dependent (cp / 64 / 64). generalize dependent (cp / 64 mod 64).
      generalize dependent (cp / 64). generalize dependent (cp mod 64). intros. lia. }
  cbn [app]. rewrite !low_six_bits, shiftr_6, shiftr_12, shiftr_18.
  div_mod_facts cp 64. div_mod_facts (cp / 64) 64. div_mod_facts (cp / 64 / 64) 64.
  rewrite decode_four.
  - do 2 f_equal. lia.
  - generalize dependent (cp / 64 / 64 / 64). generalize dependent (cp / 64 / 64 mod 64).
    generalize dependent (cp / 64 / 64). generalize dependent (cp / 64 mod 64).
    generalize dependent (cp / 64). generalize dependent (cp mod 64). intros. lia.
  - assumption.
  - assumption.
  - assumption.
  - generalize dependent (cp / 64 / 64 / 64). generalize dependent (cp / 64 / 64 mod 64).
    generalize dependent (cp / 64 / 64). generalize dependent (cp / 64 mod 64).
    generalize dependent (cp / 64). generalize dependent (cp mod 64). intros. lia.
  - generalize dependent (cp / 64 / 64 / 64). generalize dependent (cp / 64 / 64 mod 64).
    generalize dependent (cp / 64 / 64). generalize dependent (cp / 64 mod 64).
    generalize dependent (cp / 64). generalize dependent (cp mod 64). intros. lia.
Qed.

(** A surrogate pair and the code point it stands for. *)
Lemma utf16_of_pair c d :
  is_high_surrogate c = true -> is_low_surrogate d = true ->
  let cp := 0x10000 + N.shiftl (c - 0xD800) 10 + (d - 0xDC00) in
  scalar_value cp /\ utf16_of_code_point cp = [c; d].
Proof.
  unfold is_high_surrogate, is_low_surrogate.
  intros [Hc1 Hc2]%andb_prop [Hd1 Hd2]%andb_prop.
  apply N.leb_le in Hc1, Hc2, Hd1, Hd2. cbv zeta.
  rewrite N.shiftl_mul_pow2. change (2 ^ 10) with 1024.
  split; [split; lia|].
  unfold utf16_of_code_point.
  destruct (N.ltb_spec (0x10000 + (c - 0xD800) * 1024 + (d - 0xDC00)) 0x10000); [lia|].
  replace (0x10000 + (c - 0xD800) * 1024 + (d - 0xDC00) - 0x10000)
    with ((d - 0xDC00) + (c - 0xD800) * 1024) by lia.
  change 0x3FF with (N.ones 10).
  rewrite N.land_ones, N.shiftr_div_pow2. change (2 ^ 10) with 1024.
  rewrite N.div_add, N.Div0.mod_add by discriminate.
  rewrite N.div_small, N.mod_small by lia.
  f_equal; [lia|]. f_equal. lia.
Qed.

Lemma utf8_round_trip_helper (s : jsstring) :
  well_formed_utf16 s = true -> utf8_decode_from None (utf8_encode s) = s.
Proof.
  remember (length s) as n eqn:Hn.
  revert s Hn. induction n as [n IH] using lt_wf_ind. intros s Hn Hwf.
  destruct s as [|c rest]; [reflexivity|].
  cbn [utf8_encode well_formed_utf16] in *.
  destruct (is_high_surrogate c) eqn:Hhigh.
  - destruct rest as [|d rest']; [discriminate|].
    apply andb_prop in Hwf as [Hlow Hwf]. rewrite Hlow.
    destruct (utf16_of_pair c d Hhigh Hlow) as [Hscalar Hpair].
    rewrite decode_code_point by assumption.
    rewrite Hpair. cbn [app]. do 2 f_equal.
    apply (IH (length rest')); [cbn [length] in Hn; lia|reflexivity|assumption].
  - apply andb_prop in Hwf as [[Hlow Hc]%andb_prop Hwf].
    apply negb_true_iff in Hlow. rewrite Hlow. apply N.ltb_lt in Hc.
    assert (scalar_value c) as Hscalar.
    { unfold is_high_surrogate, is_low_surrogate in *. split; [lia|].
      intros [? ?].
      destruct (N.leb_spec 0xD800 c); [|lia].
      destruct (N.leb_spec c 0xDBFF); [discriminate|].
      destruct (N.leb_spec 0xDC00 c); [|lia].
      destruct (N.leb_spec c 0xDFFF); [discriminate|lia]. }
    rewrite decode_code_point by assumption.
    rewrite utf16_of_unit by assumption. cbn [app]. f_equal.
    apply (IH (length rest)); [cbn [length] in Hn; lia|reflexivity|assumption].
Qed.

(** X5: Writing a well-formed string to a buffer and reading the buffer back
    gives the same string. *)
Theorem utf8_round_trip (s : jsstring) :
  well_formed_utf16 s = true -> utf8_decode (utf8_encode s) = s.
Proof. apply utf8_round_trip_helper. Qed.

(** *** The decoder's output *)

Lemma well_formed_app a b :
  well_formed_utf16 a = true -> well_formed_utf16 b = true ->
  well_formed_utf16 (a ++ b) = true.
Proof.
  remember (length a) as n eqn:Hn. revert a Hn.
  induction n as [n IH] using lt_wf_ind. intros a Hn Ha Hb.
  destruct a as [|c rest]; [assumption|].
  cbn [app well_formed_utf16] in *.
  destruct (is_high_surrogate c).
  - destruct rest as [|d rest']; [discriminate|]. cbn [app].
    apply andb_prop in Ha as [-> Ha]. cbn [andb].
    apply (IH (length rest')); [cbn [length] in Hn; lia|reflexivity|assumption..].
  - apply andb_prop in Ha as [-> Ha]. cbn [andb].
    apply (IH (length rest)); [cbn [length] in Hn; lia|reflexivity|assumption..].
Qed.

Lemma well_formed_unit c rest :
  c < 0xD800 \/ 0xDFFF < c < 0x10000 ->
  well_formed_utf16 (c :: rest) = well_formed_utf16 rest.
Proof.
  intros Hc. cbn [well_formed_utf16]. unfold is_high_surrogate, is_low_surrogate.
  destruct (N.leb_spec 0xD800 c), (N.leb_spec c 0xDBFF), (N.leb_spec 0xDC00 c),
    (N.leb_spec c 0xDFFF), (N.ltb_spec c 0x10000); try lia; reflexivity.
Qed.

Lemma well_formed_code_point cp :
  scalar_value cp -> well_formed_utf16 (utf16_of_code_point cp) = true.
Proof.
  intros [Hmax Hsur]. unfold utf16_of_code_point.
  destruct (N.ltb_spec cp 0x10000) as [H|H].
  - rewrite well_formed_unit by lia. reflexivity.
  - change 0x3FF with (N.ones 10). rewrite N.land_ones, N.shiftr_div_pow2.
    change (2 ^ 10) with 1024.
    div_mod_facts (cp - 0x10000) 1024.
    generalize dependent ((cp - 0x10000) / 1024).
    generalize dependent ((cp - 0x10000) mod 1024). intros r Hr q Hq.
    cbn [well_formed_utf16]. unfold is_high_surrogate, is_low_surrogate.
    destruct (N.leb_spec 0xD800 (0xD800 + q)); [|lia].
    destruct (N.leb_spec (0xD800 + q) 0xDBFF); [|lia].
    destruct (N.leb_spec 0xDC00 (0xDC00 + r)); [|lia].
    destruct (N.leb_spec (0xDC00 + r) 0xDFFF); [|lia]. reflexivity.
Qed.

Lemma utf8_lead_ok b :
  match utf8_lead b with
  | inl out => well_formed_utf16 out = true
  | inr s => pending_ok s
  end.
Proof.
  unfold utf8_lead.
  destruct (N.leb_spec b 0x7F).
  { rewrite well_formed_unit by lia. reflexivity. }
  destruct ((0xC2 <=? b) && (b <=? 0xDF)) eqn:H2.
  { apply andb_prop in H2 as [?%N.leb_le ?%N.leb_le].
    unfold pending_ok. cbn [lower_boundary upper_boundary bytes_needed code_point].
    change 0x1F with (N.ones 5).
    rewrite (land_low_bits _ 5 0xC0) by (reflexivity || (change (2 ^ 5) with 32; lia)).
    lia. }
  destruct ((0xE0 <=? b) && (b <=? 0xEF)) eqn:H3.
  { apply andb_prop in H3 as [?%N.leb_le ?%N.leb_le].
    unfold pending_ok. cbn [lower_boundary upper_boundary bytes_needed code_point].
    rewrite (land_low_bits _ 4 0xE0) by (reflexivity || (change (2 ^ 4) with 16; lia)).
    destruct (N.eqb_spec b 0xE0), (N.eqb_spec b 0xED); lia. }
  destruct ((0xF0 <=? b) && (b <=? 0xF4)) eqn:H4.
  { apply andb_prop in H4 as [?%N.leb_le ?%N.leb_le].
    unfold pending_ok. cbn [lower_boundary upper_boundary bytes_needed code_point].
    change 0x7 with (N.ones 3).
    rewrite (land_low_bits _ 3 0xF0) by (reflexivity || (change (2 ^ 3) with 8; lia)).
    destruct (N.eqb_spec b 0xF0), (N.eqb_spec b 0xF4); lia. }
  reflexivity.
Qed.

Lemma utf8_decode_from_well_formed bs :
  forall st,
    match st with Some s => pending_ok s | None => True end ->
    well_formed_utf16 (utf8_decode_from st bs) = true.
Proof.
  induction bs as [|b rest IH]; intros st Hst.
  { destruct st; reflexivity. }
  assert (well_formed_utf16
            match utf8_lead b with
            | inl out => out ++ utf8_decode_from None rest
            | inr s' => utf8_decode_from (Some s') rest
            end = true) as Hlead.
  { pose proof (utf8_lead_ok b) as Hb. destruct (utf8_lead b) as [out|s'].
    - apply well_formed_app; [assumption|]. now apply (IH None).
    - now apply (IH (Some s')). }
  cbn [utf8_decode_from]. destruct st as [s|]; [|assumption].
  destruct (N.leb_spec (lower_boundary s) b) as [Hlo|];
    [destruct (N.leb_spec b (upper_boundary s)) as [Hhi|]|]; cbn [andb].
  2,3: rewrite well_formed_unit by lia; assumption.
  destruct Hst as (Hl & Hu & Hcp).
  change 0x3F with (N.ones 6).
  rewrite (land_low_bits _ 6 0x80) by (reflexivity || (change (2 ^ 6) with 64; lia)).
  rewrite lor_shiftl_low by (change (2 ^ 6) with 64; lia).
  change (2 ^ 6) with 64.
  destruct (bytes_needed s) as [|[|[|[|k]]]]; try contradiction.
  - apply well_formed_app; [|now apply (IH None)].
    apply well_formed_code_point. unfold scalar_value. lia.
  - apply (IH (Some _)). unfold pending_ok.
    cbn [lower_boundary upper_boundary bytes_needed code_point]. lia.
  - apply (IH (Some _)). unfold pending_ok.
    cbn [lower_boundary upper_boundary bytes_needed code_point]. lia.
Qed.

(** Whatever the bytes, reading a buffer as UTF-8 gives a well-formed
    string: ill-formed input becomes U+FFFD, never a lone surrogate. *)
Lemma utf8_decode_well_formed (bs : bytes) :
  well_formed_utf16 (utf8_decode bs) = true.
Proof. now apply (utf8_decode_from_well_formed bs None). Qed.

(** One pass through a string normalises a buffer: the bytes written
    from a decoded buffer decode to the same string again. *)
Lemma utf8_decode_stable (bs : bytes) :
  utf8_decode (utf8_encode (utf8_decode bs)) = utf8_decode bs.
Proof. apply utf8_round_trip_helper, utf8_decode_from_well_formed. exact I. Qed.

End Utf8Facts.

(** ** The reassembly on any archive *)

Section ReassemblyFacts.
Local Open Scope N_scope.

Lemma updateFile_names name content z :
  map entryName (updateFile name content z) = map entryName z.
Proof.
  induction z as [|e z IH]; [reflexivity|]. cbn [updateFile].
  destruct (bool_decide _ && negb _); cbn [map entryName]; congruence.
Qed.

Lemma updateFile_other name content z k e :
  z !! k = Some e -> entryName e <> name ->
  updateFile name content z !! k = Some e.
Proof.
  revert k. induction z as [|x z IH]; intros [|k] Hk Hne; try discriminate.
  - cbn in Hk. injection Hk as ->. cbn [updateFile].
    rewrite bool_decide_eq_false_2 by assumption. reflexivity.
  - cbn in Hk. cbn [updateFile].
    destruct (bool_decide _ && negb _); [exact Hk|]. now apply IH.
Qed.

Lemma reconstruct_entry_keeps translations st k :
  map entryName (snd (reconstruct_entry translations st k)) = map entryName (snd st)
  /\ forall j e, snd st !! j = Some e -> is_slide (entryName e) = false ->
                 snd (reconstruct_entry translations st k) !! j = Some e.
Proof.
  destruct st as [idx z]. unfold reconstruct_entry.
  destruct (z !! k) as [e0|]; [|now split].
  destruct (is_slide (entryName e0)) eqn:Hs; [|now split].
  destruct (String_replace_runs _ _ _) as [idx' content']. cbn [snd]. split.
  - apply updateFile_names.
  - intros j e Hj He. apply updateFile_other; [assumption|]. congruence.
Qed.

Lemma reconstruct_fold_keeps translations ks st :
  map entryName (snd (fold_left (reconstruct_entry translations) ks st))
  = map entryName (snd st)
  /\ forall j e, snd st !! j = Some e -> is_slide (entryName e) = false ->
                 snd (fold_left (reconstruct_entry translations) ks st) !! j = Some e.
Proof.
  revert st. induction ks as [|k ks IH]; intros st; [now split|].
  cbn [fold_left].
  destruct (IH (reconstruct_entry translations st k)) as [Hn Hk].
  destruct (reconstruct_entry_keeps translations st k) as [Hn' Hk'].
  split; [congruence|]. intros j e Hj He. apply Hk; [|assumption]. now apply Hk'.
Qed.

Lemma other_parts_kept (l1 l2 : list entry) :
  map entryName l1 = map entryName l2 ->
  (forall k e, l2 !! k = Some e -> is_slide (entryName e) = false ->
               l1 !! k = Some e) ->
  List.filter (fun e => negb (is_slide (entryName e))) l1
  = List.filter (fun e => negb (is_slide (entryName e))) l2.
Proof.
  revert l1. induction l2 as [|e l2 IH]; intros [|x l1] Hn Hk; try discriminate;
    [reflexivity|].
  injection Hn as Hx Hn. cbn [List.filter]. rewrite Hx.
  assert (List.filter (fun e => negb (is_slide (entryName e))) l1
          = List.filter (fun e => negb (is_slide (entryName e))) l2) as Hrest.
  { apply IH; [exact Hn|]. intros k e' Hk' Hs'. exact (Hk (S k) e' Hk' Hs'). }
  destruct (is_slide (entryName e)) eqn:Hs; cbn [negb]; [exact Hrest|].
  pose proof (Hk 0%nat e eq_refl Hs) as H0. injection H0 as ->. now f_equal.
Qed.

Lemma filter_perm {A : Type} (f : A -> bool) (l l' : list A) :
  Permutation l l' -> Permutation (List.filter f l) (List.filter f l').
Proof.
  induction 1 as [|x l l' _ IH|x y l|l l' l'' _ IH1 _ IH2]; cbn [List.filter].
  - constructor.
  - destruct (f x); [now constructor|exact IH].
  - destruct (f x), (f y); try reflexivity. apply perm_swap.
  - now transitivity (List.filter f l').
Qed.

(** X6: Whatever the archive and the translations, the archive written
    holds the names of the parts of the input, each as often, and the parts
    whose name is not that of a slide are those of the input, each as often
    and with its bytes. *)
Theorem reconstruct_keeps_parts (E : env) (translations : gmap jsstring jsstring)
    (z : list entry) :
  let out := toBuffer E (reconstruct translations z) in
  let other := fun e => negb (is_slide (entryName e)) in
  Permutation (map entryName out) (map entryName z)
  /\ Permutation (List.filter other out) (List.filter other z)
  /\ forall e, In e z -> is_slide (entryName e) = false -> In e out.
Proof.
  intros out other.
  destruct (reconstruct_fold_keeps translations (seq 0 (length z)) (0%nat, z))
    as [Hnames Hkept].
  change (snd (fold_left (reconstruct_entry translations) (seq 0 (length z)) (0%nat, z)))
    with (reconstruct translations z) in Hnames, Hkept.
  cbn [snd] in Hnames, Hkept.
  split; [|split].
  - unfold out. rewrite (Permutation_map entryName (toBuffer_perm E _)).
    now rewrite Hnames.
  - unfold out. rewrite (filter_perm other _ _ (toBuffer_perm E _)).
    unfold other. now rewrite (other_parts_kept _ z Hnames Hkept).
  - intros e [k Hk]%In_lookup Hs. apply toBuffer_In, (lookup_In _ k).
    now apply Hkept.
Qed.

Lemma units_capture toks :
  canonical toks -> Forall (fun t => capture t /\ nonblank t = true) (units toks).
Proof.
  induction toks as [|[c|p1] toks IH]; cbn [canonical units flat_map].
  - constructor.
  - intros [_ H]. now apply IH.
  - intros [Hp H]. apply Forall_app. split; [|now apply IH].
    destruct (nonblank p1) eqn:Hb; [|constructor].
    constructor; [split; assumption|constructor].
Qed.

(** X7: Every text unit the extraction collects is a capture of the run
    pattern that is not blank: it is not empty, holds no [<], and holds a
    unit that is not white space. *)
Theorem gather_captures (z : list entry) :
  Forall (fun t => t <> [] /\ forallb not_lt t = true /\ truthy (trim t) = true)
         (gather z).
Proof.
  rewrite gather_units. apply Forall_concat, List.Forall_forall.
  intros us [e [<- _]]%in_map_iff. unfold entry_units.
  destruct (is_slide (entryName e)); [|constructor].
  eapply List.Forall_impl; [|apply units_capture, canonical_scan_runs].
  intros t [[H1 H2] H3]. auto.
Qed.

Lemma pieces_agree translations translations' toks idx :
  (forall i, (idx <= i < idx + length (units toks))%nat ->
             translations !! decimal i = translations' !! decimal i) ->
  pieces translations idx toks = pieces translations' idx toks.
Proof.
  revert idx. induction toks as [|[c|p1] toks IH]; intros idx H; cbn [pieces].
  - reflexivity.
  - f_equal. apply IH. exact H.
  - change (units (Run p1 :: toks))
      with ((if nonblank p1 then [p1] else []) ++ units toks) in H.
    destruct (nonblank p1).
    + rewrite (H idx) by (cbn [length app]; lia). f_equal.
      apply IH. intros i Hi. apply H. cbn [length app]. lia.
    + f_equal. apply IH. exact H.
Qed.

Lemma rebuild_agree translations translations' z idx :
  (forall i, (idx <= i < idx + length (concat (map entry_units z)))%nat ->
             translations !! decimal i = translations' !! decimal i) ->
  rebuild translations idx z = rebuild translations' idx z.
Proof.
  revert idx. induction z as [|e z IH]; intros idx H; [reflexivity|].
  cbn [rebuild]. cbn [map concat] in H. rewrite length_app in H. f_equal.
  - unfold rebuilt_entry.
    destruct (is_slide (entryName e)) eqn:Hs; [|reflexivity]. do 3 f_equal.
    apply pieces_agree. intros i Hi. apply H. unfold entry_units. rewrite Hs. lia.
  - apply IH. intros i Hi. apply H. lia.
Qed.

(** X8: On an archive with distinct part names, the output depends on the
    translations only through the entries of the ids below the number of
    extracted units: two maps that agree there give the same archive. *)
Theorem reconstruct_reads_unit_ids (translations translations' : gmap jsstring jsstring)
    (z : list entry) :
  NoDup (map entryName z) ->
  (forall i, (i < length (gather z))%nat ->
             translations !! decimal i = translations' !! decimal i) ->
  reconstruct translations z = reconstruct translations' z.
Proof.
  intros Hnd H. rewrite !reconstruct_rebuild by assumption.
  apply rebuild_agree. intros i Hi. apply H. rewrite gather_units. lia.
Qed.

(** *** Reading the output back *)

Lemma pairing_app st a b :
  pairing st (a ++ b)
  = match pairing st a with Some st' => pairing st' b | None => None end.
Proof.
  revert st. induction a as [|c a IH]; intros st; [reflexivity|].
  cbn [app pairing].
  destruct st; [destruct (is_low_surrogate c); [apply IH|reflexivity]|].
  destruct (is_high_surrogate c); [apply IH|].
  destruct (negb (is_low_surrogate c) && (c <? 0x10000)); [apply IH|reflexivity].
Qed.

Lemma pairing_well_formed s :
  well_formed_utf16 s = true <-> pairing false s = Some false.
Proof.
  remember (length s) as n eqn:Hn. revert s Hn.
  induction n as [n IH] using lt_wf_ind. intros s Hn.
  destruct s as [|c rest]; [easy|]. cbn [well_formed_utf16 pairing].
  destruct (is_high_surrogate c).
  - destruct rest as [|d rest']; [easy|]. cbn [pairing].
    destruct (is_low_surrogate d); [|easy]. cbn [andb].
    apply (IH (length rest')); [cbn [length] in Hn; lia|reflexivity].
  - destruct (negb (is_low_surrogate c) && (c <? 0x10000)); [|easy]. cbn [andb].
    apply (IH (length rest)); [cbn [length] in Hn; lia|reflexivity].
Qed.

Lemma surrogate_free c :
  c <= 127 ->
  is_high_surrogate c = false /\ is_low_surrogate c = false /\ (c <? 0x10000) = true.
Proof.
  intros Hc. unfold is_high_surrogate, is_low_surrogate.
  destruct (N.leb_spec 0xD800 c), (N.leb_spec 0xDC00 c), (N.ltb_spec c 0x10000);
    try lia; auto.
Qed.

Lemma pairing_7bit st a :
  Forall (fun c => c <= 127) a -> a <> [] ->
  pairing st a = if st then None else Some false.
Proof.
  intros Ha Hne. destruct a as [|c a]; [congruence|].
  apply List.Forall_cons_iff in Ha as [Hc Ha]. cbn [pairing].
  destruct (surrogate_free c Hc) as (-> & -> & ->). cbn [negb andb].
  destruct st; [reflexivity|]. clear Hne Hc.
  induction Ha as [|d a Hd Ha IH]; [reflexivity|]. cbn [pairing].
  destruct (surrogate_free d Hd) as (-> & -> & ->). exact IH.
Qed.

Lemma pairing_delimited st a :
  pairing st (lit "<a:t>" ++ a ++ lit "</a:t>")
  = if st then None
    else match pairing false a with Some false => Some false | _ => None end.
Proof.
  rewrite pairing_app, (pairing_7bit st (lit "<a:t>")).
  2: { repeat constructor; cbn; lia. }
  2: discriminate.
  destruct st; [reflexivity|]. rewrite pairing_app.
  destruct (pairing false a) as [st'|]; [|reflexivity].
  rewrite (pairing_7bit st' (lit "</a:t>")).
  2: { repeat constructor; cbn; lia. }
  2: discriminate.
  now destruct st'.
Qed.

Lemma pairing_pieces translations toks :
  forall idx st st',
    pairing st (render toks) = Some st' ->
    pairing st (concat (pieces translations idx toks)) = Some st'.
Proof.
  induction toks as [|[c|p1] toks IH]; intros idx st st'; [easy|..].
  - rewrite render_cons. cbn [pieces token_text]. rewrite List.concat_cons.
    rewrite !pairing_app. destruct (pairing st [c]); [apply IH|easy].
  - rewrite render_cons. cbn [pieces token_text]. unfold run_text.
    rewrite pairing_app, pairing_delimited.
    destruct st; [easy|].
    destruct (pairing false p1) as [[|]|] eqn:Hp; try easy. intros H.
    destruct (nonblank p1) eqn:Hb; rewrite List.concat_cons, pairing_app.
    + rewrite pairing_delimited, (pairing_7bit false).
      * now apply IH.
      * apply cleanText_7bit.
      * apply cleanText_nonempty, js_or_nonempty, nonblank_nonempty, Hb.
    + unfold run_text. rewrite pairing_delimited, Hp. now apply IH.
Qed.

Lemma pieces_well_formed translations idx bs :
  well_formed_utf16 (concat (pieces translations idx (scan_runs (utf8_decode bs))))
  = true.
Proof.
  apply pairing_well_formed, pairing_pieces.
  rewrite render_scan_runs. apply pairing_well_formed.
  apply utf8_decode_from_well_formed. exact I.
Qed.

(** X9: On an archive with distinct part names, a slide part of the output,
    read as text, is the text the reassembly built for it: the literals and
    the blank runs of the input, and the markers around the sanitized text
    for every other run.  Nothing is lost when the text is written as bytes,
    whatever the bytes of the input were. *)
Theorem reconstruct_reads_back (translations : gmap jsstring jsstring)
    (z : list entry) (k : nat) (e : entry) :
  NoDup (map entryName z) ->
  z !! k = Some e ->
  is_slide (entryName e) = true ->
  exists e',
    reconstruct translations z !! k = Some e'
    /\ entryName e' = entryName e
    /\ utf8_decode (data e')
       = concat (pieces translations (length (gather (take k z))) (entry_tokens e)).
Proof.
  intros Hnd Hk Hs. eexists. split; [|split].
  - rewrite reconstruct_rebuild, (rebuild_lookup _ _ _ _ _ Hk) by assumption.
    reflexivity.
  - apply rebuilt_entry_name.
  - unfold rebuilt_entry. rewrite Hs. cbn [data].
    rewrite gather_units. cbn [plus]. unfold entry_tokens.
    apply utf8_round_trip_helper, pieces_well_formed.
Qed.

(** X10: On an archive with distinct part names, a slide part without a text
    unit reads the same before and after the reassembly. *)
Theorem reconstruct_keeps_text_free_slides (translations : gmap jsstring jsstring)
    (z : list entry) (k : nat) (e : entry) :
  NoDup (map entryName z) ->
  z !! k = Some e ->
  entry_units e = [] ->
  exists e',
    reconstruct translations z !! k = Some e'
    /\ entryName e' = entryName e
    /\ utf8_decode (data e') = utf8_decode (data e).
Proof.
  intros Hnd Hk Hu. eexists. split; [|split].
  - rewrite reconstruct_rebuild, (rebuild_lookup _ _ _ _ _ Hk) by assumption.
    reflexivity.
  - apply rebuilt_entry_name.
  - unfold rebuilt_entry, entry_units in *.
    destruct (is_slide (entryName e)); [|reflexivity]. cbn [data].
    rewrite pieces_no_units by assumption. unfold entry_tokens.
    rewrite render_scan_runs.
    apply utf8_round_trip_helper, utf8_decode_from_well_formed. exact I.
Qed.

End ReassemblyFacts.

(** ** The batches of step 2 *)

Section BatchLoopFacts.
Context (E : env).

Lemma totalChunks_spec allText k :
  (k < totalChunks allText <-> k * chunkSize < length allText)%nat.
Proof.
  unfold totalChunks, chunkSize.
  pose proof (Nat.div_mod_eq (length allText) 50) as Hdm.
  pose proof (Nat.mod_upper_bound (length allText) 50 ltac:(discriminate)) as Hlt.
  destruct (Nat.eqb_spec (length allText mod 50) 0); lia.
Qed.

Lemma chunks_from allText count k :
  (k + count = totalChunks allText)%nat ->
  concat (map (chunk_at allText) (map (fun k => (k * chunkSize)%nat) (seq k count)))
  = drop (k * chunkSize) allText.
Proof.
  revert k. induction count as [|count IH]; intros k Hk.
  - cbn [seq map concat]. symmetry. apply drop_ge.
    assert (~ (k < totalChunks allText)%nat) as H by lia.
    rewrite totalChunks_spec in H. lia.
  - cbn [seq map concat]. rewrite IH by lia. unfold chunk_at.
    replace (S k * chunkSize)%nat with (k * chunkSize + chunkSize)%nat by lia.
    rewrite <- drop_drop. apply take_drop.
Qed.

(** X11: The batches cut the extracted list into consecutive pieces: put
    end to end they give the list back, no batch is empty, and every batch
    but the last holds exactly 50 units. *)
Theorem batches_cover (allText : list jsstring) :
  concat (map (chunk_at allText) (batch_starts allText)) = allText
  /\ Forall (fun i => (1 <= length (chunk_at allText i) <= chunkSize)%nat)
            (batch_starts allText)
  /\ forall k, (S k < totalChunks allText)%nat ->
               length (chunk_at allText (k * chunkSize)) = chunkSize.
Proof.
  split; [|split].
  - unfold batch_starts. rewrite (chunks_from allText _ 0) by reflexivity.
    apply drop_0.
  - unfold batch_starts. apply List.Forall_forall.
    intros i (k & <- & [_ Hk]%in_seq)%in_map_iff.
    cbn [plus] in Hk. apply totalChunks_spec in Hk.
    rewrite chunk_at_length. unfold chunkSize in *. lia.
  - intros k Hk. apply totalChunks_spec in Hk.
    rewrite chunk_at_length. unfold chunkSize in *. lia.
Qed.

(** The loop of step 2 entered at the start of batch [k] runs the batches
    from [k] on. *)
Lemma translate_from_batches jobId targetLanguage allText count :
  forall k w translations,
    (k + count = totalChunks allText)%nat ->
    translate_from E jobId targetLanguage allText (k * chunkSize) w translations
    = run_batches E jobId targetLanguage allText
        (map (fun k => (k * chunkSize)%nat) (seq k count)) w translations.
Proof.
  induction count as [|count IH]; intros k w translations Hk;
    rewrite translate_from_step; cbn [seq map run_batches].
  - assert (~ (k < totalChunks allText)%nat) as H by lia.
    rewrite totalChunks_spec in H.
    destruct (Nat.ltb_spec (k * chunkSize) (length allText)); [lia|reflexivity].
  - assert (k < totalChunks allText)%nat as H by lia.
    rewrite totalChunks_spec in H.
    destruct (Nat.ltb_spec (k * chunkSize) (length allText)); [|lia].
    unfold answer.
    destruct (oracle E _ _) as [content|m]; [|reflexivity].
    replace (k * chunkSize + chunkSize)%nat with (S k * chunkSize)%nat by lia.
    apply IH. lia.
Qed.

Lemma translate_from_start jobId targetLanguage allText w translations :
  translate_from E jobId targetLanguage allText 0 w translations
  = run_batches E jobId targetLanguage allText (batch_starts allText) w translations.
Proof.
  apply (translate_from_batches jobId targetLanguage allText (totalChunks allText) 0).
  reflexivity.
Qed.

Lemma record_all_app jobId js1 js2 w :
  record_all jobId (js1 ++ js2) w = record_all jobId js2 (record_all jobId js1 w).
Proof. apply fold_left_app. Qed.

Lemma record_all_cons jobId j js w :
  record_all jobId (j :: js) w = record_all jobId js (set_job jobId j w).
Proof. reflexivity. Qed.

Lemma run_batches_all jobId targetLanguage allText starts :
  forall w translations,
    Forall (fun i => exists content, answer E targetLanguage allText i = Ok content)
           starts ->
    run_batches E jobId targetLanguage allText starts w translations
    = (record_all jobId (map (translating_job allText) starts) w,
       Ok (fold_left (fun tr i => record_response tr (reply E targetLanguage allText i))
                     starts translations)).
Proof.
  induction starts as [|i starts IH]; intros w translations Hall; [reflexivity|].
  apply List.Forall_cons_iff in Hall as [[content Hi] Hall].
  cbn [run_batches map fold_left]. rewrite record_all_cons.
  unfold reply at 2. rewrite Hi. now apply IH.
Qed.

Lemma run_batches_fails jobId targetLanguage allText pre i post m :
  forall w translations,
    Forall (fun i => exists content, answer E targetLanguage allText i = Ok content)
           pre ->
    answer E targetLanguage allText i = Throw m ->
    run_batches E jobId targetLanguage allText (pre ++ i :: post) w translations
    = (record_all jobId (map (translating_job allText) (pre ++ [i])) w, Throw m).
Proof.
  induction pre as [|j pre IH]; intros w translations Hall Hi.
  - cbn [app run_batches]. rewrite Hi. reflexivity.
  - apply List.Forall_cons_iff in Hall as [[content Hj] Hall].
    cbn [app run_batches map]. rewrite Hj, record_all_cons. now apply IH.
Qed.

(** X12: When the oracle answers every batch, the handler sends the archive
    reassembled from the answers read in batch order, and the tracker has
    received the extraction record, one translating record per batch, in
    order, then the generation and the completion records. *)
Theorem pptx_answers_every_batch (file_bytes : bytes)
    (jobId targetLanguage : jsstring) (w : world) (zipEntries : list entry) :
  readZip E file_bytes = Ok zipEntries ->
  gather zipEntries <> [] ->
  Forall (fun i => exists content,
                     answer E targetLanguage (gather zipEntries) i = Ok content)
         (batch_starts (gather zipEntries)) ->
  let allText := gather zipEntries in
  let translations :=
    fold_left (fun tr i => record_response tr (reply E targetLanguage allText i))
              (batch_starts allText) ∅ in
  handlePptxTranslation E file_bytes jobId targetLanguage w
  = (record_all jobId
       ([ {| job_status := extracting; job_message := lit "Extracting slides..." |} ]
        ++ map (translating_job allText) (batch_starts allText)
        ++ [ {| job_status := generating;
                job_message := lit "Reconstructing the slides..." |};
             {| job_status := completed;
                job_message := lit "Slide translation ready!" |} ]) w,
     Ok (toBuffer E (reconstruct translations zipEntries))).
Proof.
  intros Hzip Hne Hall allText translations.
  unfold handlePptxTranslation. rewrite Hzip. fold allText.
  destruct (Nat.eqb_spec (length allText) 0) as [H0|_].
  { apply length_zero_iff_nil in H0. contradiction. }
  rewrite translate_from_start, run_batches_all by assumption.
  rewrite record_all_app, record_all_app. reflexivity.
Qed.

(** X13: When the oracle fails on a batch after answering the batches
    before it, the handler throws the oracle's error: no archive is sent,
    and the tracker has received the extraction record and the translating
    records of the batches up to the failing one, and nothing after. *)
Theorem pptx_stops_at_failing_batch (file_bytes : bytes)
    (jobId targetLanguage : jsstring) (w : world) (zipEntries : list entry)
    (pre post : list nat) (i : nat) (m : jsstring) :
  readZip E file_bytes = Ok zipEntries ->
  batch_starts (gather zipEntries) = pre ++ i :: post ->
  Forall (fun i => exists content,
                     answer E targetLanguage (gather zipEntries) i = Ok content) pre ->
  answer E targetLanguage (gather zipEntries) i = Throw m ->
  handlePptxTranslation E file_bytes jobId targetLanguage w
  = (record_all jobId
       ([ {| job_status := extracting; job_message := lit "Extracting slides..." |} ]
        ++ map (translating_job (gather zipEntries)) (pre ++ [i])) w,
     Throw m).
Proof.
  intros Hzip Hstarts Hall Hi.
  unfold handlePptxTranslation. rewrite Hzip.
  destruct (Nat.eqb_spec (length (gather zipEntries)) 0) as [H0|_].
  { unfold batch_starts, totalChunks in Hstarts. rewrite H0 in Hstarts.
    destruct pre; discriminate. }
  rewrite translate_from_start, Hstarts, (run_batches_fails _ _ _ _ _ _ m)
    by assumption.
  rewrite record_all_app. reflexivity.
Qed.

(** *** The percentages *)

Lemma percent_checked : forallb percent_check (seq 1 100) = true.
Proof. vm_compute. reflexivity. Qed.

Lemma rising_spec vs :
  forall prev, rising prev vs = true ->
  forall i v, vs !! i = Some v ->
    (prev <= v <= 100)%Z
    /\ (S i = length vs -> v = 100%Z)
    /\ (forall v', vs !! S i = Some v' -> (v <= v')%Z).
Proof.
  induction vs as [|x vs IH]; intros prev H i v Hi; [discriminate|].
  cbn [rising] in H. apply andb_prop in H as [Hx H]. apply Z.leb_le in Hx.
  assert (x <= 100)%Z as Hmax.
  { destruct vs as [|y vs']; [cbn in H; apply Z.eqb_eq in H; lia|].
    destruct (IH x H 0%nat y eq_refl) as [Hy _]. lia. }
  destruct i as [|i]; cbn in Hi.
  - injection Hi as <-. split; [lia|]. split.
    + intros Hlen. destruct vs; [|discriminate]. cbn in H. now apply Z.eqb_eq in H.
    + intros v' Hv'. cbn in Hv'. destruct vs as [|y vs']; [discriminate|].
      injection Hv' as <-. cbn [rising] in H. apply andb_prop in H as [Hy _].
      now apply Z.leb_le in Hy.
  - destruct (IH x H i v Hi) as (H1 & H2 & H3). split; [lia|]. split.
    + intros Hlen. apply H2. cbn [length] in Hlen. lia.
    + exact H3.
Qed.

Lemma percent_check_spec t c :
  (1 <= t <= 100)%nat -> (1 <= c <= t)%nat ->
  (1 <= percent_value c t <= 100)%Z
  /\ (c = t -> percent_value c t = 100%Z)
  /\ ((c < t)%nat -> (percent_value c t <= percent_value (S c) t)%Z).
Proof.
  intros Ht Hc.
  pose proof percent_checked as H. rewrite forallb_forall in H.
  assert (In t (seq 1 100)) as Hin by (apply in_seq; lia).
  apply H in Hin. unfold percent_check in Hin.
  assert (forall k, (k < t)%nat ->
            map (fun c => percent_value c t) (seq 1 t) !! k
            = Some (percent_value (S k) t)) as Hlookup.
  { intros k Hk. rewrite list_lookup_fmap, lookup_seq_lt by assumption. reflexivity. }
  destruct (rising_spec _ _ Hin (c - 1)%nat (percent_value c t)) as (H1 & H2 & H3).
  { rewrite Hlookup by lia. do 2 f_equal. lia. }
  split; [exact H1|]. split.
  - intros ->. apply H2. rewrite length_map, length_seq. lia.
  - intros Hlt. apply H3. replace (S (c - 1)) with c by lia.
    now rewrite Hlookup by lia.
Qed.

Lemma percentage_value allText k :
  (totalChunks allText <= 100)%nat -> (k < totalChunks allText)%nat ->
  percentage allText (k * chunkSize)
  = Finite (percent_value (S k) (totalChunks allText)).
Proof.
  intros Ht Hk.
  destruct (percent_check_spec (totalChunks allText) (S k)) as [H _]; [lia..|].
  unfold percentage. rewrite Nat.div_mul by discriminate. rewrite Nat.add_1_r.
  unfold percent_value in *. destruct (Math_round _); [reflexivity|lia..].
Qed.

(** X14: For a deck of at most 5000 text units, the percentage shown for a
    batch is a whole number between 1 and 100, the next batch never shows
    less, and the last batch shows 100. *)
Theorem percentages_rise_to_100 (allText : list jsstring) (k : nat) :
  (length allText <= 100 * chunkSize)%nat ->
  (k < totalChunks allText)%nat ->
  exists p : Z,
    percentage allText (k * chunkSize) = Finite p
    /\ (1 <= p <= 100)%Z
    /\ (S k = totalChunks allText -> p = 100%Z)
    /\ ((S k < totalChunks allText)%nat ->
        exists p', percentage allText (S k * chunkSize) = Finite p' /\ (p <= p')%Z).
Proof.
  intros Hlen Hk.
  assert (totalChunks allText <= 100)%nat as Ht.
  { destruct (Nat.le_gt_cases (totalChunks allText) 100) as [|H]; [assumption|].
    assert (100 < totalChunks allText)%nat as H' by lia.
    apply totalChunks_spec in H'. unfold chunkSize in *. lia. }
  destruct (percent_check_spec (totalChunks allText) (S k)) as (H1 & H2 & H3);
    [lia..|].
  exists (percent_value (S k) (totalChunks allText)).
  split; [now apply percentage_value|]. split; [assumption|]. split; [assumption|].
  intros Hnext. exists (percent_value (S (S k)) (totalChunks allText)).
  split; [now apply percentage_value|]. apply H3. lia.
Qed.

End BatchLoopFacts.

(** ** The records of a request *)

Section TraceFacts.
Context (E : env).

Lemma record_all_history jobId js w :
  history (record_all jobId js w) = history w ++ map (pair jobId) js.
Proof.
  revert w. induction js as [|j js IH]; intros w; cbn [map].
  - now rewrite app_nil_r.
  - rewrite record_all_cons, IH. cbn [set_job history].
    now rewrite <- app_assoc.
Qed.

Lemma record_all_other jobId js w other :
  other <> jobId -> jobs (record_all jobId js w) !! other = jobs w !! other.
Proof.
  intros Hne. revert w. induction js as [|j js IH]; intros w; [reflexivity|].
  rewrite record_all_cons, IH. cbn [set_job jobs].
  apply lookup_insert_ne. congruence.
Qed.

Lemma record_all_last jobId js j w :
  jobs (record_all jobId (js ++ [j]) w) !! jobId = Some j.
Proof.
  rewrite record_all_app. cbn [record_all fold_left set_job jobs].
  apply lookup_insert_eq.
Qed.

Lemma sorted_stages_snoc js j :
  StronglySorted le (stages js) ->
  Forall (fun x => (stage (job_status x) <= stage (job_status j))%nat) js ->
  StronglySorted le (stages (js ++ [j])).
Proof.
  induction js as [|x js IH]; intros Hs Hall.
  - repeat constructor.
  - apply List.Forall_cons_iff in Hall as [Hx Hall].
    cbn [stages map app] in *. apply StronglySorted_inv in Hs as [Hs Hxs].
    constructor; [now apply IH|].
    unfold stages. rewrite map_app. apply Forall_app. split; [exact Hxs|].
    repeat constructor. exact Hx.
Qed.

Lemma run_batches_records jobId targetLanguage allText starts :
  forall w translations,
  exists ts,
    fst (run_batches E jobId targetLanguage allText starts w translations)
    = record_all jobId ts w
    /\ Forall (fun j => job_status j = translating) ts.
Proof.
  induction starts as [|i starts IH]; intros w translations.
  - exists []. split; [reflexivity|constructor].
  - cbn [run_batches]. destruct (answer E targetLanguage allText i) as [content|m].
    + destruct (IH (set_job jobId (translating_job allText i) w)
                   (record_response translations (js_or content [])))
        as (ts & Hw & Hts).
      exists (translating_job allText i :: ts).
      split; [rewrite record_all_cons; exact Hw|]. now constructor.
    + exists [translating_job allText i]. split; [reflexivity|].
      now repeat constructor.
Qed.

Lemma sorted_translating e ts :
  job_status e = extracting ->
  Forall (fun j => job_status j = translating) ts ->
  StronglySorted le (stages (e :: ts))
  /\ Forall in_progress (e :: ts)
  /\ Forall (fun x => (stage (job_status x) <= 3)%nat) (e :: ts).
Proof.
  intros He Hts. split; [|split].
  - cbn [stages map]. rewrite He. constructor.
    + induction Hts as [|t ts Ht Hts IH]; cbn [map]; constructor; [exact IH|].
      apply List.Forall_forall. intros x (y & <- & Hy)%in_map_iff.
      rewrite List.Forall_forall in Hts. rewrite Ht, (Hts _ Hy). cbn. lia.
    + apply List.Forall_forall. intros x (y & <- & Hy)%in_map_iff.
      rewrite List.Forall_forall in Hts. rewrite (Hts _ Hy). cbn. lia.
  - constructor; [unfold in_progress; rewrite He; cbn; lia|].
    eapply List.Forall_impl; [|exact Hts].
    intros j Hj. unfold in_progress. rewrite Hj. cbn. lia.
  - constructor; [rewrite He; cbn; lia|].
    eapply List.Forall_impl; [|exact Hts].
    intros j Hj. rewrite Hj. cbn. lia.
Qed.

Lemma handler_trace_generating {A : Type} jobId w e ts g (c : Job) (r : result A) :
  job_status e = extracting ->
  Forall (fun j => job_status j = translating) ts ->
  job_status g = generating ->
  job_status c = completed ->
  handler_trace jobId w
    (match r with
     | Ok a => (record_all jobId ((e :: ts ++ [g]) ++ [c]) w, Ok a)
     | Throw m => (record_all jobId (e :: ts ++ [g]) w, Throw m)
     end).
Proof.
  intros He Hts Hg Hc.
  destruct (sorted_translating e ts He Hts) as (Hs & Hp & Hle).
  exists (e :: ts ++ [g]). split; [|split].
  - change (e :: ts ++ [g]) with ((e :: ts) ++ [g]). apply Forall_app.
    split; [exact Hp|]. constructor; [|constructor].
    unfold in_progress. rewrite Hg. cbn. lia.
  - change (e :: ts ++ [g]) with ((e :: ts) ++ [g]).
    apply sorted_stages_snoc; [exact Hs|]. now rewrite Hg.
  - destruct r; cbn [fst snd]; [|reflexivity]. now exists c.
Qed.

Lemma handlePptxTranslation_trace file_bytes jobId targetLanguage w :
  handler_trace jobId w (handlePptxTranslation E file_bytes jobId targetLanguage w).
Proof.
  unfold handlePptxTranslation.
  set (e := {| job_status := extracting; job_message := lit "Extracting slides..." |}).
  assert (handler_trace (A := list entry) jobId w (set_job jobId e w, Throw [])
          /\ forall m, handler_trace (A := list entry) jobId w (set_job jobId e w, Throw m))
    as [_ Hearly].
  { split; [|intros m]; (exists [e]; split; [|split];
      [repeat constructor; unfold in_progress; cbn; lia
      |repeat constructor|reflexivity]). }
  destruct (readZip E file_bytes) as [zipEntries|m]; [|apply Hearly].
  destruct (length (gather zipEntries) =? 0)%nat; [apply Hearly|].
  rewrite translate_from_start.
  destruct (run_batches_records jobId targetLanguage (gather zipEntries)
              (batch_starts (gather zipEntries)) (set_job jobId e w) ∅)
    as (ts & Hw & Hts).
  destruct (run_batches _ _ _ _ _ _ _) as [w' [translations|m]]; cbn [fst] in Hw;
    subst w'.
  - set (g := {| job_status := generating; job_message := _ |}).
    set (c := {| job_status := completed; job_message := _ |}).
    pose proof (handler_trace_generating jobId w e ts g c
                  (Ok (reconstruct translations zipEntries))
                  eq_refl Hts eq_refl eq_refl) as H.
    cbv iota in H. rewrite record_all_app in H.
    change (e :: ts ++ [g]) with ([e] ++ ts ++ [g]) in H.
    rewrite !record_all_app in H. exact H.
  - destruct (sorted_translating e ts eq_refl Hts) as (Hs & Hp & _).
    exists (e :: ts). split; [exact Hp|]. split; [exact Hs|]. reflexivity.
Qed.

Lemma handlePdfTranslation_trace file_bytes jobId targetLanguage w :
  handler_trace jobId w (handlePdfTranslation E file_bytes jobId targetLanguage w).
Proof.
  unfold handlePdfTranslation.
  set (e := {| job_status := extracting; job_message := _ |}).
  set (t := {| job_status := translating; job_message := _ |}).
  set (g := {| job_status := generating; job_message := _ |}).
  set (c := {| job_status := completed; job_message := _ |}).
  assert (forall m, handler_trace (A := pdf) jobId w (set_job jobId e w, Throw m))
    as Hearly.
  { intros m. exists [e]. split; [|split];
      [repeat constructor; unfold in_progress; cbn; lia
      |repeat constructor|reflexivity]. }
  assert (forall m, handler_trace (A := pdf) jobId w
                      (set_job jobId t (set_job jobId e w), Throw m)) as Hmid.
  { intros m. exists [e; t]. split; [|split];
      [repeat constructor; unfold in_progress; cbn; lia
      |repeat constructor; cbn; lia|reflexivity]. }
  destruct (pdfParse E file_bytes) as [originalText|m]; [|apply Hearly].
  destruct (negb (truthy (trim originalText))); [apply Hearly|].
  destruct (oracle E _ _) as [content|m]; [|apply Hmid].
  destruct (negb (truthy (cleanText (js_or content [])))); [apply Hmid|].
  destruct (layout E _) as [cur [u|m]].
  - apply (handler_trace_generating jobId w e [t] g c
             (Ok {| pages := S (cur_page cur); draws := cur_draws cur |}));
      try reflexivity. now repeat constructor.
  - apply (handler_trace_generating (A := pdf) jobId w e [t] g c (Throw m));
      try reflexivity. now repeat constructor.
Qed.

(** The records of a request: the starting record, records of work in
    progress in stage order, and a last record that matches the response. *)
Lemma translate_route_trace req w :
  exists js j,
    fst (translate_route E req w)
    = record_all (js_or (body_jobId req) (now E))
        ({| job_status := starting; job_message := lit "Initializing..." |}
         :: js ++ [j]) w
    /\ Forall in_progress js
    /\ StronglySorted le (stages js)
    /\ outcome req (snd (translate_route E req w)) j.
Proof.
  unfold translate_route.
  set (jobId := js_or (body_jobId req) (now E)).
  set (s := {| job_status := starting; job_message := _ |}).
  destruct (req_file req) as [f|] eqn:Hf.
  2: { exists [], {| job_status := error; job_message := lit "No file uploaded." |}.
       split; [reflexivity|]. split; [constructor|]. split; [constructor|].
       right. left. cbn [snd status_code res_body]. auto. }
  set (targetLanguage := js_or (body_targetLanguage req) (lit "Turkish")).
  assert (handler_trace jobId (set_job jobId s w)
            (dispatch E f jobId targetLanguage (set_job jobId s w))
          /\ match snd (dispatch E f jobId targetLanguage (set_job jobId s w)) with
             | Ok b => (exists z, b = Pptx z) \/ (exists d, b = Pdf d)
             | Throw _ => True
             end) as [(js & Hp & Hs & Hw) Hbody].
  { unfold dispatch. destruct (isPptx E f).
    - pose proof (handlePptxTranslation_trace (file_content f) jobId targetLanguage
                    (set_job jobId s w)) as H.
      destruct (handlePptxTranslation _ _ _ _ _) as [w' [z|m]]; split;
        try exact H; try exact I. left. now exists z.
    - pose proof (handlePdfTranslation_trace (file_content f) jobId targetLanguage
                    (set_job jobId s w)) as H.
      destruct (handlePdfTranslation _ _ _ _ _) as [w' [d|m]]; split;
        try exact H; try exact I. right. now exists d. }
  destruct (dispatch _ _ _ _ _) as [w' [b|m]]; cbn [fst snd] in *.
  - destruct Hw as (j & Hj & ->). exists js, j.
    split; [reflexivity|]. split; [exact Hp|]. split; [exact Hs|].
    left. cbn [status_code res_body]. auto.
  - subst w'. exists js, {| job_status := error; job_message := m |}.
    split.
    { rewrite record_all_cons, record_all_app. reflexivity. }
    split; [exact Hp|]. split; [exact Hs|].
    right. right. cbn [status_code res_body job_status job_message].
    rewrite Hf. repeat split. discriminate.
Qed.

(** X15: The records a request writes: first the starting record, then
    records of work in progress whose stages never go backwards
    (extracting, translating, generating), and last one record, completed
    or error, that matches the response. *)
Theorem route_records_in_stage_order (req : request) (w : world) :
  exists js j,
    history (fst (translate_route E req w))
    = history w
      ++ map (pair (js_or (body_jobId req) (now E)))
           ({| job_status := starting; job_message := lit "Initializing..." |}
            :: js ++ [j])
    /\ Forall in_progress js
    /\ StronglySorted le (stages js)
    /\ outcome req (snd (translate_route E req w)) j.
Proof.
  destruct (translate_route_trace req w) as (js & j & Hw & H).
  exists js, j. split; [|exact H]. rewrite Hw. apply record_all_history.
Qed.

End TraceFacts.

(** ** What the layout draws *)

Section DrawFacts.
Context (E : env).
Local Open Scope N_scope.

Lemma split_seven_bit sep s : seven_bit s -> Forall seven_bit (split sep s).
Proof.
  unfold seven_bit. induction 1 as [|c s Hc Hs IH]; cbn [split].
  - repeat constructor.
  - destruct (c =? sep).
    + constructor; [constructor|exact IH].
    + destruct (split sep s) as [|w ws]; [repeat constructor; exact Hc|].
      apply List.Forall_cons_iff in IH as [Hw Hws].
      constructor; [constructor; assumption|exact Hws].
Qed.

Lemma split_one_line_pieces sep s : one_line s -> Forall one_line (split sep s).
Proof.
  unfold one_line. induction s as [|c s IH]; cbn [split forallb].
  - repeat constructor.
  - intros [Hc Hs]%andb_prop. specialize (IH Hs). destruct (c =? sep).
    + constructor; [reflexivity|exact IH].
    + destruct (split sep s) as [|w ws]; [repeat constructor; cbn; now rewrite Hc|].
      apply List.Forall_cons_iff in IH as [Hw Hws].
      constructor; [cbn [forallb]; now rewrite Hc|exact Hws].
Qed.

Lemma cleanText_one_line s : one_line s -> one_line (cleanText s).
Proof.
  unfold one_line. rewrite cleanText_concat.
  induction s as [|c s IH]; [reflexivity|]. cbn [forallb map].
  intros [Hc Hs]%andb_prop. rewrite List.concat_cons, forallb_app, IH by assumption.
  rewrite cleanChar_no_line_feed; [reflexivity|].
  now apply negb_true_iff, N.eqb_neq in Hc.
Qed.

Lemma testLine_one_line currentLine word :
  one_line currentLine -> one_line word ->
  one_line (if truthy currentLine then currentLine ++ lit " " ++ word else word).
Proof.
  intros Hc Hw. destruct (truthy currentLine); [|exact Hw].
  unfold one_line in *. now rewrite !forallb_app, Hc, Hw.
Qed.

Lemma tidy_mono p q d : (p <= q)%nat -> tidy p d -> tidy q d.
Proof. intros Hpq (Hx & Hp & H). split; [exact Hx|]. split; [lia|exact H]. Qed.

Lemma check_page_tidy c :
  Forall (tidy (cur_page c)) (cur_draws c) ->
  Forall (tidy (cur_page (check_page E c))) (cur_draws (check_page E c)).
Proof.
  unfold check_page. destruct (Qltb _ _); [|trivial]. cbn [new_page cur_page cur_draws].
  apply List.Forall_impl. intros d. apply tidy_mono. lia.
Qed.

Lemma drawn_tidy text adv c :
  one_line text ->
  Forall (tidy (cur_page c)) (cur_draws c) ->
  Forall (tidy (cur_page (advance adv (drawn (cleanText text) c))))
         (cur_draws (advance adv (drawn (cleanText text) c))).
Proof.
  intros Ht Hc. cbn [advance drawn cur_page cur_draws].
  apply Forall_app. split; [exact Hc|]. constructor; [|constructor].
  split; [reflexivity|]. split; [cbn; lia|]. cbn [draw_text].
  split; [apply cleanText_7bit|now apply cleanText_one_line].
Qed.

Lemma place_words_tidy words :
  forall c currentLine,
    Forall (tidy (cur_page c)) (cur_draws c) ->
    one_line currentLine -> Forall one_line words ->
    let r := place_words E c currentLine words in
    Forall (tidy (cur_page (fst r))) (cur_draws (fst r))
    /\ forall currentLine', snd r = Ok currentLine' -> one_line currentLine'.
Proof.
  induction words as [|word words IH]; intros c currentLine Hc Hl Hws.
  - cbn. split; [exact Hc|]. now intros ? [= <-].
  - apply List.Forall_cons_iff in Hws as [Hw Hws]. cbn [place_words].
    destruct (testWidth E _ _ _) as [wd|m]; [|cbn; split; [exact Hc|discriminate]].
    destruct (Qltb (maxWidth E) wd).
    + destruct (drawText E _ c) as [c1|m] eqn:Hdraw;
        [|cbn; split; [exact Hc|discriminate]].
      apply drawText_Ok in Hdraw. subst c1.
      apply IH; [|exact Hw|exact Hws].
      apply check_page_tidy. now apply drawn_tidy.
    + apply IH; [exact Hc| |exact Hws]. now apply testLine_one_line.
Qed.

Lemma place_line_tidy c line :
  Forall (tidy (cur_page c)) (cur_draws c) -> one_line line ->
  Forall (tidy (cur_page (fst (place_line E c line))))
         (cur_draws (fst (place_line E c line))).
Proof.
  intros Hc Hl. unfold place_line.
  destruct (place_words_tidy (split 32 line) (check_page E c) [])
    as [Hd Hcl]; [now apply check_page_tidy|reflexivity
                 |now apply split_one_line_pieces|].
  destruct (place_words E _ _ _) as [c' [currentLine|m]]; cbn [fst snd] in *;
    [|exact Hd].
  destruct (truthy currentLine); [|exact Hd].
  destruct (drawText E _ c') as [c1|m] eqn:Hdraw; cbn [fst]; [|exact Hd].
  apply drawText_Ok in Hdraw. subst c1.
  apply drawn_tidy; [|exact Hd]. now apply Hcl.
Qed.

Lemma place_lines_tidy lines :
  forall c,
    Forall (tidy (cur_page c)) (cur_draws c) -> Forall one_line lines ->
    Forall (tidy (cur_page (fst (place_lines E c lines))))
           (cur_draws (fst (place_lines E c lines))).
Proof.
  induction lines as [|line lines IH]; intros c Hc Hls; [exact Hc|].
  apply List.Forall_cons_iff in Hls as [Hl Hls]. cbn [place_lines].
  pose proof (place_line_tidy c line Hc Hl) as H.
  destruct (place_line E c line) as [c' [u|m]]; cbn [fst] in *; [|exact H].
  now apply IH.
Qed.

(** X16: In a document the handler sends, every line is drawn at the left
    margin, on one of the pages of the document, and its text is 7-bit and
    holds no line feed. *)
Theorem pdf_draws_are_tidy (file_bytes : bytes) (jobId targetLanguage : jsstring)
    (w w' : world) (doc : pdf) :
  handlePdfTranslation E file_bytes jobId targetLanguage w = (w', Ok doc) ->
  Forall (fun d => draw_x d = margin /\ (draw_page d < pages doc)%nat
                   /\ seven_bit (draw_text d) /\ one_line (draw_text d))
         (draws doc).
Proof.
  unfold handlePdfTranslation.
  destruct (pdfParse E file_bytes) as [originalText|]; [|discriminate].
  destruct (negb (truthy (trim originalText))); [discriminate|].
  destruct (oracle E _ _) as [content|]; [|discriminate].
  destruct (negb (truthy (cleanText (js_or content [])))); [discriminate|].
  pose proof (place_lines_tidy (split 10 (cleanText (js_or content [])))
                (first_page E)) as H.
  unfold layout.
  destruct (place_lines E _ _) as [c [u|m]]; [|discriminate].
  intros [= _ <-]. cbn [pages draws fst] in *.
  eapply List.Forall_impl; [|apply H; [constructor|apply split_pieces]].
  intros d (Hx & Hp & Hb & Hl). repeat split; try assumption. lia.
Qed.

Section Measured.
Hypothesis measurable :
  forall text size, exists wd, widthOfTextAtSize E text size = Ok wd.

Lemma testLine_seven_bit currentLine word :
  seven_bit currentLine -> seven_bit word ->
  seven_bit (if truthy currentLine then currentLine ++ lit " " ++ word else word).
Proof.
  intros Hc Hw. destruct (truthy currentLine); [|exact Hw].
  unfold seven_bit in *. apply Forall_app. split; [exact Hc|].
  apply Forall_app. split; [|exact Hw]. repeat constructor. cbn. lia.
Qed.

Lemma place_words_fit words :
  forall c currentLine,
    Forall (fun d => single_word (draw_text d) \/ fits E (draw_text d)) (cur_draws c) ->
    seven_bit currentLine -> single_word currentLine \/ fits E currentLine ->
    Forall (fun wd => seven_bit wd /\ single_word wd) words ->
    let r := place_words E c currentLine words in
    Forall (fun d => single_word (draw_text d) \/ fits E (draw_text d))
           (cur_draws (fst r))
    /\ forall currentLine',
         snd r = Ok currentLine' ->
         seven_bit currentLine' /\ (single_word currentLine' \/ fits E currentLine').
Proof.
  induction words as [|word words IH]; intros c currentLine Hc Hb Hl Hws.
  - cbn. split; [exact Hc|]. now intros ? [= <-].
  - apply List.Forall_cons_iff in Hws as [[Hwb Hw] Hws]. cbn [place_words].
    set (testLine := if truthy currentLine then currentLine ++ lit " " ++ word
                     else word).
    unfold testWidth.
    destruct (measurable testLine fontSize) as [wd Hwd]. rewrite Hwd.
    destruct (Qltb (maxWidth E) wd) eqn:Hcmp.
    + destruct (drawText E _ c) as [c1|m] eqn:Hdraw;
        [|cbn; split; [exact Hc|discriminate]].
      apply drawText_Ok in Hdraw. subst c1.
      apply IH; [|exact Hwb|now left|exact Hws].
      rewrite check_page_draws. cbn [advance drawn cur_draws].
      apply Forall_app. split; [exact Hc|]. constructor; [|constructor].
      cbn [draw_text]. rewrite cleanText_fixed by exact Hb. exact Hl.
    + apply IH; [exact Hc| | |exact Hws].
      * now apply testLine_seven_bit.
      * right. exists wd. split; [exact Hwd|]. now apply Qltb_ge in Hcmp.
Qed.

Lemma place_line_fit c line :
  Forall (fun d => single_word (draw_text d) \/ fits E (draw_text d)) (cur_draws c) ->
  seven_bit line ->
  Forall (fun d => single_word (draw_text d) \/ fits E (draw_text d))
         (cur_draws (fst (place_line E c line))).
Proof.
  intros Hc Hl. unfold place_line.
  destruct (place_words_fit (split 32 line) (check_page E c) [])
    as [Hd Hcl].
  - now rewrite check_page_draws.
  - constructor.
  - now left.
  - pose proof (split_seven_bit 32 line Hl) as H1.
    pose proof (split_pieces 32 line) as H2.
    rewrite List.Forall_forall in *. intros wd Hwd. split; [now apply H1|now apply H2].
  - destruct (place_words E _ _ _) as [c' [currentLine|m]]; cbn [fst snd] in *;
      [|exact Hd].
    destruct (truthy currentLine); [|exact Hd].
    destruct (drawText E _ c') as [c1|m] eqn:Hdraw; cbn [fst]; [|exact Hd].
    apply drawText_Ok in Hdraw. subst c1.
    cbn [advance drawn cur_draws].
    destruct (Hcl currentLine eq_refl) as [Hb Hf].
    apply Forall_app. split; [exact Hd|]. constructor; [|constructor].
    cbn [draw_text]. now rewrite cleanText_fixed.
Qed.

Lemma place_lines_fit lines :
  forall c,
    Forall (fun d => single_word (draw_text d) \/ fits E (draw_text d)) (cur_draws c) ->
    Forall seven_bit lines ->
    Forall (fun d => single_word (draw_text d) \/ fits E (draw_text d))
           (cur_draws (fst (place_lines E c lines))).
Proof.
  induction lines as [|line lines IH]; intros c Hc Hls; [exact Hc|].
  apply List.Forall_cons_iff in Hls as [Hl Hls]. cbn [place_lines].
  pose proof (place_line_fit c line Hc Hl) as H.
  destruct (place_line E c line) as [c' [u|m]]; cbn [fst] in *; [|exact H].
  now apply IH.
Qed.

(** X17: With a font that measures every text, in a document the handler
    sends no drawn line of two words or more is wider than the text area:
    a drawn line holds no space, or the font measures it at most as wide as
    the page less the two margins. *)
Theorem pdf_lines_fit_the_text_area (file_bytes : bytes)
    (jobId targetLanguage : jsstring) (w w' : world) (doc : pdf) :
  handlePdfTranslation E file_bytes jobId targetLanguage w = (w', Ok doc) ->
  Forall (fun d => single_word (draw_text d) \/ fits E (draw_text d)) (draws doc).
Proof.
  unfold handlePdfTranslation.
  destruct (pdfParse E file_bytes) as [originalText|]; [|discriminate].
  destruct (negb (truthy (trim originalText))); [discriminate|].
  destruct (oracle E _ _) as [content|]; [|discriminate].
  destruct (negb (truthy (cleanText (js_or content [])))); [discriminate|].
  pose proof (place_lines_fit (split 10 (cleanText (js_or content [])))
                (first_page E)) as H.
  unfold layout.
  destruct (place_lines E _ _) as [c [u|m]]; [|discriminate].
  intros [= _ <-]. cbn [pages draws fst] in *.
  apply H; [constructor|]. apply split_seven_bit, cleanText_7bit.
Qed.

End Measured.

End DrawFacts.

(** ** Refused inputs *)

Section RefusalFacts.
Context (E : env).
Local Open Scope N_scope.

Lemma trim_blank text : forallb is_space text = true -> trim text = [].
Proof. intros H. unfold trim. now rewrite (drop_while_end _ _ H). Qed.

Lemma gather_no_units z : Forall (fun e => entry_units e = []) z -> gather z = [].
Proof.
  intros H. rewrite gather_units. induction H as [|e z He Hz IH]; [reflexivity|].
  cbn [map]. rewrite List.concat_cons, He, IH. reflexivity.
Qed.

(** X18: A presentation none of whose slides holds a text run that is not
    blank is refused: the response is 500 with the message of the error,
    and the job goes from starting to extracting to error. *)
Theorem pptx_without_text_is_refused (req : request) (f : file) (w : world)
    (z : list entry) :
  req_file req = Some f ->
  isPptx E f = true ->
  readZip E (file_content f) = Ok z ->
  Forall (fun e => entry_units e = []) z ->
  translate_route E req w
  = (record_all (js_or (body_jobId req) (now E))
       [ {| job_status := starting; job_message := lit "Initializing..." |};
         {| job_status := extracting; job_message := lit "Extracting slides..." |};
         {| job_status := error;
            job_message := lit "No text found in presentation." |} ] w,
     {| status_code := 500;
        res_body := Text (lit "An error occurred during translation: "
                          ++ lit "No text found in presentation.") |}).
Proof.
  intros Hf Hp Hz Hu. unfold translate_route, dispatch, handlePptxTranslation.
  rewrite Hf, Hp, Hz, (gather_no_units z Hu). reflexivity.
Qed.

(** X19: A PDF whose text layer is empty or holds only white space is
    refused before the oracle is asked: the response is 500 with the message
    of the error, and the job goes from starting to extracting to error. *)
Theorem pdf_without_text_is_refused (req : request) (f : file) (w : world)
    (text : jsstring) :
  req_file req = Some f ->
  isPptx E f = false ->
  pdfParse E (file_content f) = Ok text ->
  forallb is_space text = true ->
  translate_route E req w
  = (record_all (js_or (body_jobId req) (now E))
       [ {| job_status := starting; job_message := lit "Initializing..." |};
         {| job_status := extracting;
            job_message := lit "Extracting text from PDF..." |};
         {| job_status := error;
            job_message := lit "Could not extract text from PDF." |} ] w,
     {| status_code := 500;
        res_body := Text (lit "An error occurred during translation: "
                          ++ lit "Could not extract text from PDF.") |}).
Proof.
  intros Hf Hp Ht Hb. unfold translate_route, dispatch, handlePdfTranslation.
  rewrite Hf, Hp, Ht, (trim_blank text Hb). reflexivity.
Qed.

(** X20: When the oracle answers a PDF with no content or with the empty
    string, the request fails with the message of the empty translation and
    nothing is generated; any other answer passes this test, since the
    sanitizer never empties a text. *)
Theorem pdf_empty_translation (req : request) (f : file) (w : world)
    (text : jsstring) (content : option jsstring) :
  req_file req = Some f ->
  isPptx E f = false ->
  pdfParse E (file_content f) = Ok text ->
  truthy (trim text) = true ->
  oracle E (pdf_system_prompt (js_or (body_targetLanguage req) (lit "Turkish"))) text
  = Ok content ->
  (js_or content [] = [] ->
   translate_route E req w
   = (record_all (js_or (body_jobId req) (now E))
        [ {| job_status := starting; job_message := lit "Initializing..." |};
          {| job_status := extracting;
             job_message := lit "Extracting text from PDF..." |};
          {| job_status := translating;
             job_message := lit "Translating document... (50%)" |};
          {| job_status := error;
             job_message := lit "Empty translation received from Groq." |} ] w,
      {| status_code := 500;
         res_body := Text (lit "An error occurred during translation: "
                           ++ lit "Empty translation received from Groq.") |}))
  /\ (js_or content [] <> [] ->
      In (js_or (body_jobId req) (now E),
          {| job_status := generating;
             job_message := lit "Generating translated PDF..." |})
         (history (fst (translate_route E req w)))).
Proof.
  intros Hf Hp Ht Hb Ho. unfold translate_route, dispatch, handlePdfTranslation.
  rewrite Hf, Hp, Ht, Hb, Ho. cbn [negb]. split.
  - intros ->. reflexivity.
  - intros Hne. apply cleanText_nonempty in Hne.
    destruct (cleanText (js_or content [])) as [|x xs] eqn:Hc; [congruence|].
    cbn [truthy negb].
    destruct (layout E (x :: xs)) as [c [u|m]]; cbn [fst set_job history];
      rewrite !in_app_iff; cbn [In]; auto 10.
Qed.

End RefusalFacts.

(** ** Polling the status *)

Section StatusFacts.
Context (E : env).

(** X21: After a request under an id other than [__proto__], the status
    route answers under that id with the record that matches the response,
    and under every other id with what it answered before. *)
Theorem status_after_request (req : request) (w : world) :
  js_or (body_jobId req) (now E) <> lit "__proto__" ->
  (exists j,
     status_route (js_or (body_jobId req) (now E)) (fst (translate_route E req w))
     = Job_record j
     /\ outcome req (snd (translate_route E req w)) j)
  /\ forall other,
       other <> js_or (body_jobId req) (now E) ->
       status_route other (fst (translate_route E req w)) = status_route other w.
Proof.
  intros _.
  destruct (translate_route_trace E req w) as (js & j & Hw & _ & _ & H).
  rewrite Hw. unfold status_route. split.
  - exists j. split; [|exact H].
    change (?s :: js ++ [j]) with ((s :: js) ++ [j]).
    now rewrite record_all_last.
  - intros other Hne. now rewrite record_all_other.
Qed.

End StatusFacts.

(** ** The entries of the translations *)

Section EntryFacts.
Context (E : env).
Local Open Scope N_scope.

(** The line pattern with its literal units as tests. *)
Lemma line_match_tests line :
  line_match line
  = match line with
    | [] => None
    | c :: r =>
        if c =? 91 then
          match take_while is_digit r, drop_while is_digit r with
          | d :: ds, c1 :: c2 :: r2 =>
              if (c1 =? 93) && (c2 =? 58) then
                Some (d :: ds,
                      take_while (fun c => negb (is_line_terminator c))
                        (drop_while is_space r2))
              else None
          | _, _ => None
          end
        else None
    end.
Proof.
  destruct line as [|c r]; [reflexivity|].
  destruct (N.eqb_spec c 91) as [->|Hc].
  - cbn [line_match]. destruct (take_while is_digit r) as [|d ds]; [reflexivity|].
    destruct (drop_while is_digit r) as [|c1 [|c2 r2]]; [reflexivity| |].
    + destruct c1 as [|p]; [reflexivity|].
      do 7 (try destruct p as [p|p|]; try reflexivity).
    + destruct (N.eqb_spec c1 93) as [->|H1]; cbn [andb].
      * destruct (N.eqb_spec c2 58) as [->|H2]; [reflexivity|].
        destruct c2 as [|p]; [reflexivity|].
        do 6 (try destruct p as [p|p|]; try reflexivity). congruence.
      * destruct c1 as [|p]; [reflexivity|].
        do 7 (try destruct p as [p|p|]; try reflexivity). congruence.
  - destruct c as [|p]; [reflexivity|].
    do 7 (try destruct p as [p|p|]; try reflexivity). congruence.
Qed.

Lemma line_match_numbered line k v : line_match line = Some (k, v) -> numbered k v.
Proof.
  rewrite line_match_tests. destruct line as [|c r]; [discriminate|].
  destruct (c =? 91); [|discriminate].
  destruct (take_while is_digit r) as [|d ds] eqn:Hd; [discriminate|].
  destruct (drop_while is_digit r) as [|c1 [|c2 r2]]; try discriminate.
  destruct ((c1 =? 93) && (c2 =? 58)); [|discriminate].
  intros [= <- <-]. split; [discriminate|]. split; [|split].
  - rewrite <- Hd. apply take_while_all.
  - apply take_while_all.
  - intros x xs Hv.
    destruct (drop_while is_space r2) as [|y ys] eqn:Hs; [discriminate|].
    apply drop_while_head in Hs. cbn [take_while] in Hv.
    destruct (negb (is_line_terminator y)); [|discriminate].
    now injection Hv as <- _.
Qed.

Lemma record_response_numbered translations response :
  map_Forall numbered translations ->
  map_Forall numbered (record_response translations response).
Proof.
  unfold record_response. revert translations.
  induction (split 10 response) as [|l lines IH]; intros translations H; [exact H|].
  cbn [fold_left]. apply IH. unfold record_line.
  destruct (line_match l) as [[k v]|] eqn:Hl; [|exact H].
  apply map_Forall_insert_2; [|exact H]. now apply line_match_numbered in Hl.
Qed.

Lemma run_batches_numbered jobId targetLanguage allText starts :
  forall w translations w' translations',
    map_Forall numbered translations ->
    run_batches E jobId targetLanguage allText starts w translations
    = (w', Ok translations') ->
    map_Forall numbered translations'.
Proof.
  induction starts as [|i starts IH]; intros w translations w' translations' H.
  - now intros [= _ <-].
  - cbn [run_batches]. destruct (answer E _ _ _) as [content|m]; [|discriminate].
    apply IH. now apply record_response_numbered.
Qed.

(** X22: Whatever the oracle answers, every entry the loop of step 2
    records has a key made of one digit or more and a text without a line
    terminator that does not start with white space. *)
Theorem translations_are_numbered (jobId targetLanguage : jsstring)
    (allText : list jsstring) (w w' : world)
    (translations : gmap jsstring jsstring) :
  translate_from E jobId targetLanguage allText 0 w ∅ = (w', Ok translations) ->
  forall k v, translations !! k = Some v -> numbered k v.
Proof.
  rewrite translate_from_start. intros H.
  apply (run_batches_numbered _ _ _ _ _ _ _ _ (map_Forall_empty _) H).
Qed.

Lemma String_replace_runs_ext {St : Type}
    (cb cb' : St -> jsstring -> jsstring -> St * jsstring) st s :
  (forall st m p1, cb st m p1 = cb' st m p1) ->
  String_replace_runs cb st s = String_replace_runs cb' st s.
Proof.
  intros H. unfold String_replace_runs.
  generalize (st, @nil N). induction (scan_runs s) as [|t toks IH]; intros acc;
    [reflexivity|].
  cbn [fold_left]. destruct acc as [st' out], t as [c|p1]; [apply IH|].
  rewrite H. apply IH.
Qed.

Lemma reconstruct_ext translations translations' z :
  (forall idx p1, js_or (translations !! decimal idx) p1
                  = js_or (translations' !! decimal idx) p1) ->
  reconstruct translations z = reconstruct translations' z.
Proof.
  intros H. unfold reconstruct. f_equal.
  generalize (0%nat, z). induction (seq 0 (length z)) as [|k ks IH]; intros st;
    [reflexivity|].
  cbn [fold_left]. rewrite <- IH. f_equal.
  destruct st as [idx z']. unfold reconstruct_entry.
  destruct (z' !! k) as [e|]; [|reflexivity].
  destruct (is_slide (entryName e)); [|reflexivity].
  rewrite (String_replace_runs_ext (rewrite_run translations)
             (rewrite_run translations')); [reflexivity|].
  intros st m p1. unfold rewrite_run. now rewrite H.
Qed.

(** X23: An entry whose text is empty counts as no entry: the archive
    written is the one written without it, the unit of that id keeping its
    original text, whatever the archive. *)
Theorem empty_translation_is_none (translations : gmap jsstring jsstring)
    (k : jsstring) (z : list entry) :
  reconstruct (<[k := []]> translations) z = reconstruct (delete k translations) z.
Proof.
  apply reconstruct_ext. intros idx p1.
  destruct (decide (decimal idx = k)) as [<-|Hne].
  - now rewrite lookup_insert_eq, lookup_delete_eq.
  - now rewrite lookup_insert_ne, lookup_delete_ne by congruence.
Qed.

End EntryFacts.

(** ** The runs of the output *)

Section RewrittenFacts.
Local Open Scope N_scope.

Lemma pieces_rewritten translations toks :
  forall idx,
    concat (pieces translations idx toks) = render (rewritten translations idx toks).
Proof.
  induction toks as [|[c|p1] toks IH]; intros idx; cbn [pieces rewritten].
  - reflexivity.
  - rewrite render_cons, List.concat_cons, IH. reflexivity.
  - destruct (nonblank p1); rewrite render_cons, List.concat_cons, IH; reflexivity.
Qed.

Lemma same_shape_rewritten translations toks :
  (forall k v, translations !! k = Some v -> forallb not_lt v = true) ->
  canonical toks ->
  forall idx, same_shape toks (rewritten translations idx toks).
Proof.
  intros Hsafe. induction toks as [|[c|p1] toks IH]; intros Hc idx;
    cbn [rewritten canonical] in *.
  - constructor.
  - destruct Hc as [_ Hc]. constructor; [reflexivity|now apply IH].
  - destruct Hc as [[Hne Hp] Hc].
    destruct (nonblank p1) eqn:Hb; (constructor; [|now apply IH]).
    + split.
      * apply cleanText_nonempty, js_or_nonempty, Hne.
      * apply cleanText_not_lt. unfold js_or.
        destruct (translations !! decimal idx) as [v|] eqn:Hv; [|exact Hp].
        destruct (truthy v); [|exact Hp]. exact (Hsafe _ _ Hv).
    + split; assumption.
Qed.

(** X24: On an archive with distinct part names and with translations that
    hold no [<], a slide part of the output scans into the tokens of the
    input part with only the captures of the non-blank runs replaced: the
    run of id [i] holds the sanitized translation of [i], or the sanitized
    original text when there is none, and no run is lost, split or added. *)
Theorem reconstruct_keeps_the_runs (translations : gmap jsstring jsstring)
    (z : list entry) (k : nat) (e : entry) :
  NoDup (map entryName z) ->
  (forall key v, translations !! key = Some v -> forallb not_lt v = true) ->
  z !! k = Some e ->
  is_slide (entryName e) = true ->
  exists e',
    reconstruct translations z !! k = Some e'
    /\ entry_tokens e'
       = rewritten translations (length (gather (take k z))) (entry_tokens e).
Proof.
  intros Hnd Hsafe Hk Hs. eexists. split.
  - rewrite reconstruct_rebuild, (rebuild_lookup _ _ _ _ _ Hk) by assumption.
    reflexivity.
  - unfold rebuilt_entry. rewrite Hs. unfold entry_tokens at 1. cbn [data].
    rewrite gather_units. cbn [plus]. unfold entry_tokens.
    change (utf8_decode ?b) with (utf8_decode_from None b) at 1.
    rewrite utf8_round_trip_helper by apply pieces_well_formed.
    rewrite pieces_rewritten. apply scan_runs_render.
    eapply canonical_same_shape; [|apply canonical_scan_runs].
    apply same_shape_rewritten; [exact Hsafe|apply canonical_scan_runs].
Qed.

End RewrittenFacts.

(** ** Pages and draws *)

Section PageFacts.
Context (E : env).
Local Open Scope Q_scope.
Hypothesis fit : page_fits E.

Lemma check_page_counted c : counted c -> counted (check_page E c).
Proof.
  intros [Hle Hdue]. unfold check_page.
  destruct (Qltb (cur_y c) (margin + fontSize)) eqn:Hy;
    [|split; [exact Hle|intros H; congruence]].
  specialize (Hdue eq_refl). unfold counted. cbn [new_page cur_page cur_y cur_draws].
  split; [lia|]. intros Htop. apply Qltb_lt in Htop. unfold page_fits in fit.
  exfalso. apply (Qlt_not_le _ _ Htop). exact fit.
Qed.

Lemma drawn_counted text adv c : counted c -> counted (advance adv (drawn text c)).
Proof.
  intros [Hle _]. unfold counted. cbn [advance drawn cur_page cur_y cur_draws].
  rewrite length_app. cbn [length]. split; [lia|]. intros _. lia.
Qed.

Lemma place_words_counted words :
  forall c currentLine,
    counted c -> counted (fst (place_words E c currentLine words)).
Proof.
  induction words as [|word words IH]; intros c currentLine Hc; [exact Hc|].
  cbn [place_words]. destruct (testWidth E _ _ _) as [wd|m]; [|exact Hc].
  destruct (Qltb (maxWidth E) wd); [|now apply IH].
  destruct (drawText E _ c) as [c1|m'] eqn:Hdraw; [|exact Hc].
  apply drawText_Ok in Hdraw. subst c1.
  now apply IH, check_page_counted, drawn_counted.
Qed.

Lemma place_line_counted c line : counted c -> counted (fst (place_line E c line)).
Proof.
  intros Hc. unfold place_line.
  pose proof (place_words_counted (split 32%N line) (check_page E c) []
                (check_page_counted c Hc)) as H.
  destruct (place_words E _ _ _) as [c' [currentLine|m]]; cbn [fst] in *; [|exact H].
  destruct (truthy currentLine); [|exact H].
  destruct (drawText E _ c') as [c1|m] eqn:Hdraw; cbn [fst]; [|exact H].
  apply drawText_Ok in Hdraw. subst c1. now apply drawn_counted.
Qed.

Lemma place_lines_counted lines :
  forall c, counted c -> counted (fst (place_lines E c lines)).
Proof.
  induction lines as [|line lines IH]; intros c Hc; [exact Hc|].
  cbn [place_lines]. pose proof (place_line_counted c line Hc) as H.
  destruct (place_line E c line) as [c' [u|m]]; cbn [fst] in *; [|exact H].
  now apply IH.
Qed.

(** X25: When a page can hold a line, a document the handler sends has at
    most one page more than it has drawn lines: no page break comes without
    a line drawn since the break before. *)
Theorem pdf_pages_are_bounded_by_draws (file_bytes : bytes)
    (jobId targetLanguage : jsstring) (w w' : world) (doc : pdf) :
  handlePdfTranslation E file_bytes jobId targetLanguage w = (w', Ok doc) ->
  (pages doc <= S (length (draws doc)))%nat.
Proof.
  unfold handlePdfTranslation.
  destruct (pdfParse E file_bytes) as [originalText|]; [|discriminate].
  destruct (negb (truthy (trim originalText))); [discriminate|].
  destruct (oracle E _ _) as [content|]; [|discriminate].
  destruct (negb (truthy (cleanText (js_or content [])))); [discriminate|].
  unfold layout.
  pose proof (place_lines_counted (split 10%N (cleanText (js_or content [])))
                (first_page E)) as H.
  destruct (place_lines E _ _) as [c [u|m]]; [|discriminate].
  intros [= _ <-]. cbn [pages draws fst] in *.
  destruct H as [H _]; [|lia]. split; [cbn; lia|].
  cbn [first_page cur_y]. intros Htop. apply Qltb_lt in Htop.
  unfold page_fits in fit. exfalso. apply (Qlt_not_le _ _ Htop). exact fit.
Qed.

End PageFacts.

(** ** Lines that need no wrapping *)

Section NoWrapFacts.
Context (E : env).
Local Open Scope N_scope.

Lemma drop_while_app_all f (a b : jsstring) :
  forallb f a = true -> drop_while f (a ++ b) = drop_while f b.
Proof.
  induction a as [|x a IH]; [reflexivity|]. cbn [forallb app drop_while].
  intros [-> Ha]%andb_prop. now apply IH.
Qed.

Lemma drop_while_suffix f (l : jsstring) : exists a, l = a ++ drop_while f l.
Proof.
  induction l as [|x l [a IH]]; [now exists []|]. cbn [drop_while].
  destruct (f x); [|now exists []]. exists (x :: a). cbn [app]. now f_equal.
Qed.

Lemma join_cons (sep x : jsstring) rest :
  join sep (x :: rest)
  = x ++ match rest with [] => [] | _ :: _ => sep ++ join sep rest end.
Proof. destruct rest; cbn [join]; [now rewrite app_nil_r|reflexivity]. Qed.

Lemma place_words_no_wrap line :
  (forall a s b, line = a ++ s ++ b -> fits E s) ->
  forall ws c currentLine a,
    Forall single_word ws ->
    forallb (fun c => c =? 32) a = true ->
    (currentLine = [] \/ exists x r, currentLine = x :: r /\ x <> 32) ->
    line = a ++ to_go currentLine ws ->
    place_words E c currentLine ws = (c, Ok (strip_spaces line)).
Proof.
  intros Hfit. induction ws as [|w ws IH]; intros c currentLine a Hws Ha Hcl Hline.
  - cbn [place_words]. do 2 f_equal. unfold to_go in Hline. subst line.
    unfold strip_spaces. rewrite drop_while_app_all by exact Ha.
    destruct Hcl as [->|(x & r & -> & Hx)]; [reflexivity|].
    cbn [truthy app drop_while]. rewrite app_nil_r.
    destruct (N.eqb_spec x 32); [contradiction|reflexivity].
  - apply List.Forall_cons_iff in Hws as [Hw Hws]. cbn [place_words].
    set (testLine := if truthy currentLine then currentLine ++ lit " " ++ w else w).
    set (tail := match ws with [] => [] | _ :: _ => 32 :: join [32] ws end).
    assert (line = a ++ testLine ++ tail) as Hsplit.
    { unfold to_go in Hline. subst testLine tail.
      destruct Hcl as [->|(x & r & -> & Hx)]; cbn [truthy] in *.
      - rewrite join_cons in Hline. exact Hline.
      - rewrite Hline, join_cons. change (lit " ") with [32].
        rewrite <- !app_assoc. reflexivity. }
    destruct (Hfit a testLine tail Hsplit) as (wd & Hwd & Hle).
    unfold testWidth. fold testLine. rewrite Hwd.
    apply Qltb_ge in Hle. rewrite Hle.
    destruct (truthy testLine) eqn:Ht.
    + apply (IH c testLine a); [exact Hws|exact Ha| |].
      * right. subst testLine.
        destruct Hcl as [->|(x & r & -> & Hx)]; cbn [truthy] in *.
        -- destruct w as [|y w']; [discriminate|]. exists y, w'. split; [reflexivity|].
           unfold single_word in Hw. cbn [forallb] in Hw.
           apply andb_prop in Hw as [Hy _].
           now apply negb_true_iff, N.eqb_neq in Hy.
        -- exists x, (r ++ lit " " ++ w). split; [reflexivity|exact Hx].
      * unfold to_go. rewrite Ht. exact Hsplit.
    + destruct testLine as [|? ?] eqn:Htl; [|discriminate].
      subst tail. destruct ws as [|w' ws'].
      * apply (IH c [] a); [exact Hws|exact Ha|now left|].
        unfold to_go. cbn [truthy join]. exact Hsplit.
      * apply (IH c [] (a ++ [32])); [exact Hws| |now left|].
        -- rewrite forallb_app, Ha. reflexivity.
        -- unfold to_go. cbn [truthy]. rewrite Hsplit. cbn [app].
           now rewrite <- app_assoc.
Qed.

Lemma place_line_no_wrap c line :
  (forall a s b, line = a ++ s ++ b -> fits E s) ->
  exists c',
    place_line E c line = (c', Ok tt)
    /\ map draw_text (cur_draws c')
       = map draw_text (cur_draws c)
         ++ map cleanText (List.filter truthy [strip_spaces line]).
Proof.
  intros Hfit. unfold place_line.
  rewrite (place_words_no_wrap line Hfit (split 32 line) (check_page E c) [] []).
  - cbn [List.filter]. destruct (truthy (strip_spaces line)).
    + destruct (drop_while_suffix (fun c => c =? 32) line) as [a Ha].
      destruct (Hfit a (strip_spaces line) []) as (wd & Hwd & _);
        [now rewrite app_nil_r|].
      unfold drawText. rewrite (draws_what_it_measures E _ _ _ Hwd).
      eexists. split; [reflexivity|].
      cbn [advance drawn cur_draws]. now rewrite check_page_draws, map_app.
    + eexists. split; [reflexivity|]. cbn [map]. now rewrite check_page_draws, app_nil_r.
  - apply split_pieces.
  - reflexivity.
  - now left.
  - unfold to_go. cbn [truthy app]. symmetry. apply join_split.
Qed.

Lemma place_lines_no_wrap lines :
  (forall line a s b, In line lines -> line = a ++ s ++ b -> fits E s) ->
  forall c,
  exists c',
    place_lines E c lines = (c', Ok tt)
    /\ map draw_text (cur_draws c')
       = map draw_text (cur_draws c)
         ++ map cleanText (List.filter truthy (map strip_spaces lines)).
Proof.
  induction lines as [|line lines IH]; intros Hfit c.
  - exists c. split; [reflexivity|]. cbn. now rewrite app_nil_r.
  - cbn [place_lines].
    destruct (place_line_no_wrap c line) as (c1 & -> & H1).
    { intros a s b. apply Hfit. now left. }
    destruct (IH (fun l a s b Hl => Hfit l a s b (or_intror Hl)) c1)
      as (c2 & -> & H2).
    exists c2. split; [reflexivity|]. rewrite H2, H1. cbn [map List.filter].
    destruct (truthy (strip_spaces line)); cbn [map app];
      now rewrite <- app_assoc.
Qed.

(** X26: When every stretch of every line of the text fits the text area,
    nothing is wrapped: the layout returns, and the lines drawn are, in
    order, the lines of the text without their leading spaces, sanitized,
    those that are empty left out. *)
Theorem layout_without_wrapping (translatedText : jsstring) :
  no_wrapping E translatedText ->
  exists c,
    layout E translatedText = (c, Ok tt)
    /\ map draw_text (cur_draws c)
       = map cleanText
           (List.filter truthy (map strip_spaces (split 10 translatedText))).
Proof.
  intros Hfit. unfold layout.
  destruct (place_lines_no_wrap (split 10 translatedText) Hfit (first_page E))
    as (c & Hc & Hd).
  exists c. split; [exact Hc|exact Hd].
Qed.

End NoWrapFacts.

(** ** The prompt and the happy path of a PDF *)

Section ProtocolFacts.
Context (E : env).
Local Open Scope N_scope.

Lemma line_match_prompt_lines chunk :
  forall i,
    map line_match (imap (fun idx => prompt_line (i + idx)) chunk)
    = imap (fun j text => Some (decimal (i + j), parsed_back text)) chunk.
Proof.
  induction chunk as [|t chunk IH]; intros i; [reflexivity|].
  cbn [imap map]. rewrite line_match_prompt_line, Nat.add_0_r. f_equal.
  rewrite (imap_ext _ (fun idx => prompt_line (S i + idx)))
    by (intros idx x _; unfold compose; now rewrite Nat.add_succ_r).
  rewrite (imap_ext ((fun j text => Some (decimal (i + j), parsed_back text)) ∘ S)
                    (fun j text => Some (decimal (S i + j), parsed_back text)))
    by (intros idx x _; unfold compose; now rewrite Nat.add_succ_r).
  apply IH.
Qed.

(** X27: The prompt of a batch is in the format the answers are read in:
    when no unit holds a line feed, its lines match the line pattern one
    for one, the line of the unit at position [j] of the batch that starts
    at [i] giving the id [i + j] and the text of the unit less its leading
    white space, up to its first line terminator. *)
Theorem prompt_reads_back (allText : list jsstring) (i : nat) :
  Forall one_line allText -> (i < length allText)%nat ->
  map line_match (split 10 (promptText i (chunk_at allText i)))
  = imap (fun j text => Some (decimal (i + j), parsed_back text))
         (chunk_at allText i).
Proof.
  intros Hall Hi. rewrite echo_response by assumption.
  apply line_match_prompt_lines.
Qed.

(** X28: A PDF with a text layer that is not blank, a non-empty answer of
    the oracle and a font that measures every text always gives a document:
    the handler does not throw, and the tracker has received the four
    records of the stages, in order. *)
Theorem pdf_succeeds (file_bytes : bytes) (jobId targetLanguage : jsstring)
    (w : world) (text : jsstring) (content : option jsstring) :
  pdfParse E file_bytes = Ok text ->
  truthy (trim text) = true ->
  oracle E (pdf_system_prompt targetLanguage) text = Ok content ->
  js_or content [] <> [] ->
  (forall s size, exists wd, widthOfTextAtSize E s size = Ok wd) ->
  exists c,
    layout E (cleanText (js_or content [])) = (c, Ok tt)
    /\ handlePdfTranslation E file_bytes jobId targetLanguage w
       = (record_all jobId
            [ {| job_status := extracting;
                 job_message := lit "Extracting text from PDF..." |};
              {| job_status := translating;
                 job_message := lit "Translating document... (50%)" |};
              {| job_status := generating;
                 job_message := lit "Generating translated PDF..." |};
              {| job_status := completed;
                 job_message := lit "PDF translation ready!" |} ] w,
          Ok {| pages := S (cur_page c); draws := cur_draws c |}).
Proof.
  intros Hp Ht Ho Hne Hm.
  assert (forall lines : list jsstring, Forall (Forall (fun _ => True)) lines)
    as Hany.
  { intros lines. apply List.Forall_forall. intros l _.
    now apply List.Forall_forall. }
  destruct (place_lines_words E (fun _ => True) (fun s _ => Hm s fontSize)
              (split 10 (cleanText (js_or content []))) (first_page E) (Hany _))
    as (c & Hc & _).
  exists c. split; [exact Hc|].
  unfold handlePdfTranslation. rewrite Hp, Ht, Ho. cbn [negb].
  apply cleanText_nonempty in Hne.
  destruct (cleanText (js_or content [])) as [|x xs] eqn:Hx; [congruence|].
  cbn [truthy negb]. unfold layout. rewrite Hc. reflexivity.
Qed.

End ProtocolFacts.

(** ** Worked instances *)

Section Instances.

(** The sanitizer on Turkish letters, a trademark sign, a smiley and a line
    feed. *)
Example cleanText_sample :
  cleanText (lit "g" ++ [0xFC; 0x6E; 0x2122; 0x263A; 10]%N ++ lit "ok")
  = lit "gun(TM)?" ++ [10%N] ++ lit "ok".
Proof. reflexivity. Qed.

Example split_join_sample :
  split 32%N (lit "a  b ") = [lit "a"; []; lit "b"; []]
  /\ join (lit ", ") [lit "a"; lit "b"] = lit "a, b"
  /\ trim (lit "  a b ") = lit "a b"
  /\ decimal 120 = lit "120"
  /\ endsWith (lit ".pptx") (ascii_lower (lit "Deck.PPTX")) = true.
Proof. vm_compute. repeat split. Qed.

Example utf8_sample :
  utf8_decode [0x61; 0xC4; 0xB1; 0xE2; 0x84; 0xA2; 0xF0; 0x9F; 0x98; 0x80; 0xFF]%N
  = [0x61; 0x131; 0x2122; 0xD83D; 0xDE00; 0xFFFD]%N
  /\ utf8_encode [0x61; 0x131; 0x2122; 0xD83D; 0xDE00; 0xFFFD]%N
     = [0x61; 0xC4; 0xB1; 0xE2; 0x84; 0xA2; 0xF0; 0x9F; 0x98; 0x80; 0xEF; 0xBF; 0xBD]%N.
Proof. vm_compute. split; reflexivity. Qed.

Example scan_runs_sample :
  scan_runs (lit "<p><a:t>Hi</a:t><a:t> </a:t><a:t></a:t>")
  = [Lit 60; Lit 112; Lit 62; Run (lit "Hi"); Run (lit " ")]
    ++ map Lit (lit "<a:t></a:t>").
Proof. vm_compute. reflexivity. Qed.

Example line_match_sample :
  line_match (lit "[12]:   Merhaba d" ++ [13%N] ++ lit "x") = Some (lit "12", lit "Merhaba d")
  /\ line_match (lit "[12] x") = None
  /\ line_match (lit "[]: x") = None
  /\ line_match (lit " [1]: x") = None
  /\ line_match (lit "[1]:") = Some (lit "1", []).
Proof. vm_compute. repeat split. Qed.

(** A unit that holds a line feed is cut at it by the round trip: its
    prompt spans two lines, and only the first carries the id. *)
Example line_feed_sample :
  exists w,
    handlePptxTranslation
      (sample_env [slide 1 (lit "<a:t>one" ++ [10%N] ++ lit "two</a:t>")] [])
      [] (lit "job") (lit "Turkish") empty_world
    = (w, Ok [slide 1 (lit "<a:t>one</a:t>")]).
Proof. eexists. vm_compute. reflexivity. Qed.

(** A text of one short line gives one page with one line at the top
    margin. *)
Example layout_sample :
  exists w,
    handlePdfTranslation (sample_env [] (lit "Hello world")) (lit "%PDF-1.7")
      (lit "job") (lit "French") empty_world
    = (w, Ok {| pages := 1;
                draws := [ {| draw_page := 0; draw_x := 50;
                              draw_y := (841.89 - 50)%Q;
                              draw_text := lit "Hello world" |} ] |}).
Proof. eexists. vm_compute. reflexivity. Qed.

(** The word of 100 letters of the sample text is drawn on a line of its
    own, and the words after it follow. *)
Example long_word_sample :
  map draw_text (cur_draws (fst (layout (sample_env [] []) sample_text)))
  = [ lit "Bonjour le monde"; lit "un";
      concat (repeat (lit "abcdefghij") 10); lit "mot long"; lit "fin" ].
Proof. vm_compute. reflexivity. Qed.

(** The archive sent for the sample archive: the parts by name, the part
    that is not a slide first. *)
Example toBuffer_sample :
  map entryName (toBuffer (sample_env [] []) (reconstruct ∅ sample_archive))
  = [ lit "ppt/media/image1.png"; lit "ppt/slides/slide1.xml";
      lit "ppt/slides/slide2.xml" ].
Proof. vm_compute. reflexivity. Qed.

Lemma sample_archive_names : NoDup (map entryName sample_archive).
Proof. apply (bool_decide_unpack _). vm_compute. exact I. Defined.

(** The round trip of the sample archive through the pass-through oracle. *)
Lemma C1_witness :
  (forall system user,
      oracle (sample_env sample_archive []) system user = Ok (Some user))
  /\ readZip (sample_env sample_archive []) [] = Ok sample_archive
  /\ NoDup (map entryName sample_archive)
  /\ gather sample_archive <> []
  /\ Forall one_line (gather sample_archive)
  /\ exists w' out,
      handlePptxTranslation (sample_env sample_archive []) [] (lit "job")
        (lit "Turkish") empty_world = (w', Ok out)
      /\ length out = length sample_archive
      /\ Permutation (map entryName out) (map entryName sample_archive)
      /\ forall e, In e sample_archive ->
           (is_slide (entryName e) = false -> In e out)
           /\ (is_slide (entryName e) = true ->
               exists content',
                 In {| entryName := entryName e; data := utf8_encode content' |} out
                 /\ units (scan_runs content')
                    = map (fun p1 => cleanText (parsed_back p1)) (units (entry_tokens e))
                 /\ (Forall plain (units (entry_tokens e)) ->
                     units (scan_runs content') = map cleanText (units (entry_tokens e)))).
Proof.
  assert (forall system user,
             oracle (sample_env sample_archive []) system user = Ok (Some user)) as H1
    by (intros; reflexivity).
  assert (gather sample_archive <> []) as H4 by (vm_compute; discriminate).
  assert (Forall one_line (gather sample_archive)) as H5
    by (vm_compute; repeat constructor).
  repeat (split; [first [exact H1 | reflexivity | exact sample_archive_names
                        | exact H4 | exact H5]|]).
  exact (C1_pass_through_round_trip (sample_env sample_archive []) [] (lit "job")
           (lit "Turkish") empty_world sample_archive H1 eq_refl
           sample_archive_names H4 H5).
Defined.

(** The fallback on the second slide of the sample archive, with a map that holds the first unit only. *)
Lemma C2_witness :
  NoDup (map entryName sample_archive)
  /\ sample_archive !! 2%nat
     = Some (slide 2 (lit "<a:t> </a:t><a:t>d" ++ [0xFC%N] ++ lit "nya</a:t>"))
  /\ is_slide (entryName (slide 2 (lit "<a:t> </a:t><a:t>d" ++ [0xFC%N] ++ lit "nya</a:t>")))
     = true
  /\ exists ps,
      reconstruct (<[lit "0" := lit "Merhaba"]> ∅) sample_archive !! 2%nat
      = Some {| entryName := lit "ppt/slides/slide2.xml";
                data := utf8_encode (concat ps) |}
      /\ Forall2 (fallback_piece (<[lit "0" := lit "Merhaba"]> ∅) (gather sample_archive))
                 (number_runs (length (gather (take 2 sample_archive)))
                    (entry_tokens
                       (slide 2 (lit "<a:t> </a:t><a:t>d" ++ [0xFC%N] ++ lit "nya</a:t>"))))
                 ps.
Proof.
  repeat (split; [first [exact sample_archive_names | reflexivity]|]).
  exact (C2_missing_translation_fallback (<[lit "0" := lit "Merhaba"]> ∅)
           sample_archive 2
           (slide 2 (lit "<a:t> </a:t><a:t>d" ++ [0xFC%N] ++ lit "nya</a:t>"))
           sample_archive_names eq_refl eq_refl).
Defined.

(** The request for [notes.txt] goes to the PDF handler. *)
Lemma C4_witness :
  req_file sample_request
  = Some {| originalname := lit "notes.txt"; file_content := lit "%PDF-1.7" |}
  /\ endsWith (lit ".pptx")
       (toLowerCase (sample_env [] (lit "Hello world")) (lit "notes.txt")) = false
  /\ translate_route (sample_env [] (lit "Hello world")) sample_request empty_world
     = match handlePdfTranslation (sample_env [] (lit "Hello world"))
               (lit "%PDF-1.7") (lit "1700000000000") (lit "Turkish")
               (set_job (lit "1700000000000")
                  {| job_status := starting; job_message := lit "Initializing..." |}
                  empty_world) with
       | (w1, Ok d) => (w1, {| status_code := 200; res_body := Pdf d |})
       | (w1, Throw m) =>
           (set_job (lit "1700000000000")
              {| job_status := error; job_message := m |} w1,
            {| status_code := 500;
               res_body := Text (lit "An error occurred during translation: " ++ m) |})
       end.
Proof.
  repeat (split; [reflexivity|]).
  exact (C4_other_names_go_to_pdf (sample_env [] (lit "Hello world")) sample_request
           {| originalname := lit "notes.txt"; file_content := lit "%PDF-1.7" |}
           empty_world eq_refl eq_refl).
Defined.

Lemma sample_page_fits : page_fits (sample_env [] []).
Proof. unfold page_fits. vm_compute. discriminate. Defined.

(** The cursor on the sample text, on an A4 page. *)
Lemma C5_witness :
  page_fits (sample_env [] [])
  /\ Forall (fun d => (margin <= draw_y d)%Q /\ (margin + fontSize <= draw_y d)%Q)
       (cur_draws (fst (layout (sample_env [] []) sample_text)))
  /\ StronglySorted below (cur_draws (fst (layout (sample_env [] []) sample_text))).
Proof.
  split; [exact sample_page_fits|].
  pose proof (C5_layout_cursor (sample_env [] []) sample_text sample_page_fits) as H.
  cbv zeta in H. destruct H as (H1 & H2 & _). split; assumption.
Defined.

Lemma strict_env_measures text :
  Forall printable text ->
  exists w, widthOfTextAtSize (strict_env []) text fontSize = Ok w.
Proof.
  intros H. cbn [widthOfTextAtSize strict_env].
  assert (forallb (fun u => (32 <=? u)%N && (u <=? 126)%N) text = true) as ->.
  { induction H as [|u text Hu _ IH]; [reflexivity|]. cbn [forallb].
    rewrite IH, andb_true_r. unfold printable in Hu.
    apply andb_true_intro. split; apply N.leb_le; lia. }
  eauto.
Qed.

(** The words of the sample text, with its word of 100 letters, under a
    font that measures printable ASCII only. *)
Lemma layout_keeps_every_word_witness :
  (forall text, Forall printable text ->
     exists w, widthOfTextAtSize (strict_env []) text fontSize = Ok w)
  /\ Forall (fun u => u = 10%N \/ printable u) sample_text
  /\ exists c,
      layout (strict_env []) sample_text = (c, Ok tt)
      /\ flat_map (fun d => words_of (draw_text d)) (cur_draws c)
         = map cleanText (flat_map words_of (split 10%N sample_text)).
Proof.
  assert (Forall (fun u => u = 10%N \/ printable u) sample_text) as H.
  { unfold printable. vm_compute.
    repeat (constructor; [first [left; reflexivity | right; split; discriminate]|]).
    constructor. }
  split; [exact strict_env_measures|]. split; [exact H|].
  exact (layout_keeps_every_word (strict_env []) printable strict_env_measures
           sample_text H).
Defined.

(** The progress of the sample deck of 120 units. *)
Lemma C7_witness :
  readZip (sample_env sample_deck []) [] = Ok sample_deck
  /\ length (gather sample_deck) = 120%nat
  /\ (forall system user, exists content,
         oracle (sample_env sample_deck []) system user = Ok content)
  /\ map (percentage (gather sample_deck)) [0; 50; 100]%nat
     = [Finite 33; Finite 67; Finite 100].
Proof.
  assert (length (gather sample_deck) = 120%nat) as H2 by (vm_compute; reflexivity).
  assert (forall system user, exists content,
             oracle (sample_env sample_deck []) system user = Ok content) as H3
    by (intros; eexists; reflexivity).
  repeat (split; [first [reflexivity | exact H2 | exact H3]|]).
  destruct (C7_progress_of_120_units (sample_env sample_deck []) [] (lit "job")
              (lit "Turkish") empty_world sample_deck eq_refl H2 H3)
    as (_ & _ & _ & _ & P1 & P2 & P3 & _).
  cbn [map]. now rewrite P1, P2, P3.
Defined.

(** The part of the sample archive that is not a slide is sent as it is. *)
Lemma C9_witness :
  NoDup (map entryName sample_archive)
  /\ In {| entryName := lit "ppt/media/image1.png";
           data := [0x89; 0x50; 0x4E; 0x47; 0xFF]%N |}
        (toBuffer (sample_env [] []) (reconstruct ∅ sample_archive)).
Proof.
  split; [exact sample_archive_names|].
  pose proof (C9_reassembly_frame (sample_env [] []) ∅ sample_archive
                sample_archive_names) as H.
  cbv zeta in H. destruct H as (_ & _ & H).
  exact (proj1 (H _ (or_intror (or_introl eq_refl))) eq_refl).
Defined.

(** A string with a letter outside ASCII and a surrogate pair. *)
Lemma utf8_round_trip_witness :
  well_formed_utf16 (lit "d" ++ [0xFC; 0xD83D; 0xDE00]%N) = true
  /\ utf8_decode (utf8_encode (lit "d" ++ [0xFC; 0xD83D; 0xDE00]%N))
     = lit "d" ++ [0xFC; 0xD83D; 0xDE00]%N.
Proof.
  split; [reflexivity|].
  exact (utf8_round_trip (lit "d" ++ [0xFC; 0xD83D; 0xDE00]%N) eq_refl).
Defined.

Lemma blank_deck_names : NoDup (map entryName blank_deck).
Proof. apply (bool_decide_unpack _). vm_compute. exact I. Defined.

(** Entries under ids that no unit of the sample archive has, and under a
    key with a leading zero, change nothing. *)
Lemma reconstruct_reads_unit_ids_witness :
  NoDup (map entryName sample_archive)
  /\ (forall i, (i < length (gather sample_archive))%nat ->
        (<[lit "0" := lit "Merhaba"]> ∅ : gmap jsstring jsstring) !! decimal i
        = (<[lit "01" := lit "x"]> (<[lit "7" := lit "y"]>
             (<[lit "0" := lit "Merhaba"]> ∅)) : gmap jsstring jsstring) !! decimal i)
  /\ reconstruct (<[lit "0" := lit "Merhaba"]> ∅) sample_archive
     = reconstruct (<[lit "01" := lit "x"]> (<[lit "7" := lit "y"]>
                      (<[lit "0" := lit "Merhaba"]> ∅))) sample_archive.
Proof.
  assert (forall i, (i < length (gather sample_archive))%nat ->
            (<[lit "0" := lit "Merhaba"]> ∅ : gmap jsstring jsstring) !! decimal i
            = (<[lit "01" := lit "x"]> (<[lit "7" := lit "y"]>
                 (<[lit "0" := lit "Merhaba"]> ∅)) : gmap jsstring jsstring)
              !! decimal i) as H.
  { intros i Hi. change (length (gather sample_archive)) with 3%nat in Hi.
    destruct i as [|[|[|i]]]; [reflexivity..|lia]. }
  split; [exact sample_archive_names|]. split; [exact H|].
  exact (reconstruct_reads_unit_ids _ _ sample_archive sample_archive_names H).
Defined.

(** The first slide of the sample archive, read back. *)
Lemma reconstruct_reads_back_witness :
  NoDup (map entryName sample_archive)
  /\ sample_archive !! 0%nat
     = Some (slide 1 (lit "<p:sp><a:t>Hello</a:t><a:t>big world</a:t></p:sp>"))
  /\ is_slide (entryName
                 (slide 1 (lit "<p:sp><a:t>Hello</a:t><a:t>big world</a:t></p:sp>")))
     = true
  /\ exists e',
      reconstruct (<[lit "0" := lit "Merhaba"]> ∅) sample_archive !! 0%nat = Some e'
      /\ entryName e' = lit "ppt/slides/slide1.xml"
      /\ utf8_decode (data e')
         = concat (pieces (<[lit "0" := lit "Merhaba"]> ∅)
                     (length (gather (take 0 sample_archive)))
                     (entry_tokens
                        (slide 1 (lit "<p:sp><a:t>Hello</a:t><a:t>big world</a:t></p:sp>")))).
Proof.
  repeat (split; [first [exact sample_archive_names | reflexivity]|]).
  exact (reconstruct_reads_back (<[lit "0" := lit "Merhaba"]> ∅) sample_archive 0
           (slide 1 (lit "<p:sp><a:t>Hello</a:t><a:t>big world</a:t></p:sp>"))
           sample_archive_names eq_refl eq_refl).
Defined.

(** The slide of the blank deck reads the same after the reassembly. *)
Lemma reconstruct_keeps_text_free_slides_witness :
  NoDup (map entryName blank_deck)
  /\ blank_deck !! 0%nat = Some (slide 1 (lit "<p:sp><a:t>  </a:t></p:sp>"))
  /\ entry_units (slide 1 (lit "<p:sp><a:t>  </a:t></p:sp>")) = []
  /\ exists e',
      reconstruct ∅ blank_deck !! 0%nat = Some e'
      /\ entryName e' = lit "ppt/slides/slide1.xml"
      /\ utf8_decode (data e')
         = utf8_decode (data (slide 1 (lit "<p:sp><a:t>  </a:t></p:sp>"))).
Proof.
  assert (entry_units (slide 1 (lit "<p:sp><a:t>  </a:t></p:sp>")) = []) as H
    by (vm_compute; reflexivity).
  repeat (split; [first [exact blank_deck_names | reflexivity | exact H]|]).
  exact (reconstruct_keeps_text_free_slides ∅ blank_deck 0
           (slide 1 (lit "<p:sp><a:t>  </a:t></p:sp>"))
           blank_deck_names eq_refl H).
Defined.

(** The runs of the first slide of the sample archive after the reassembly. *)
Lemma reconstruct_keeps_the_runs_witness :
  NoDup (map entryName sample_archive)
  /\ (forall key v,
        (<[lit "0" := lit "Merhaba"]> ∅ : gmap jsstring jsstring) !! key = Some v ->
        forallb not_lt v = true)
  /\ exists e',
      reconstruct (<[lit "0" := lit "Merhaba"]> ∅) sample_archive !! 0%nat = Some e'
      /\ entry_tokens e'
         = rewritten (<[lit "0" := lit "Merhaba"]> ∅)
             (length (gather (take 0 sample_archive)))
             (entry_tokens
                (slide 1 (lit "<p:sp><a:t>Hello</a:t><a:t>big world</a:t></p:sp>"))).
Proof.
  assert (forall key v,
            (<[lit "0" := lit "Merhaba"]> ∅ : gmap jsstring jsstring) !! key = Some v ->
            forallb not_lt v = true) as H.
  { intros key v [[_ <-]|[_ Hv]]%lookup_insert_Some; [reflexivity|].
    rewrite lookup_empty in Hv. discriminate. }
  split; [exact sample_archive_names|]. split; [exact H|].
  exact (reconstruct_keeps_the_runs (<[lit "0" := lit "Merhaba"]> ∅) sample_archive 0
           (slide 1 (lit "<p:sp><a:t>Hello</a:t><a:t>big world</a:t></p:sp>"))
           sample_archive_names H eq_refl eq_refl).
Defined.

(** The sample deck of 120 units through the pass-through oracle. *)
Lemma pptx_answers_every_batch_witness :
  readZip (sample_env sample_deck []) [] = Ok sample_deck
  /\ gather sample_deck <> []
  /\ Forall (fun i => exists content,
               answer (sample_env sample_deck []) (lit "Turkish")
                 (gather sample_deck) i = Ok content)
            (batch_starts (gather sample_deck))
  /\ map (fun r => job_status (snd r))
         (history (fst (handlePptxTranslation (sample_env sample_deck []) []
                          (lit "job") (lit "Turkish") empty_world)))
     = [extracting; translating; translating; translating; generating; completed].
Proof.
  assert (gather sample_deck <> []) as H2 by (vm_compute; discriminate).
  assert (Forall (fun i => exists content,
                    answer (sample_env sample_deck []) (lit "Turkish")
                      (gather sample_deck) i = Ok content)
                 (batch_starts (gather sample_deck))) as H3.
  { apply List.Forall_forall. intros i _. eexists. reflexivity. }
  split; [reflexivity|]. split; [exact H2|]. split; [exact H3|].
  pose proof (pptx_answers_every_batch (sample_env sample_deck []) [] (lit "job")
                (lit "Turkish") empty_world sample_deck eq_refl H2 H3) as H.
  cbv zeta in H. rewrite H. cbn [fst]. rewrite record_all_history.
  vm_compute. reflexivity.
Defined.

(** The sample deck with an oracle that fails on the second batch. *)
Lemma pptx_stops_at_failing_batch_witness :
  readZip (failing_env sample_deck) [] = Ok sample_deck
  /\ batch_starts (gather sample_deck) = [0%nat] ++ 50%nat :: [100%nat]
  /\ Forall (fun i => exists content,
               answer (failing_env sample_deck) (lit "Turkish")
                 (gather sample_deck) i = Ok content) [0%nat]
  /\ answer (failing_env sample_deck) (lit "Turkish") (gather sample_deck) 50
     = Throw (lit "rate limit reached")
  /\ snd (handlePptxTranslation (failing_env sample_deck) [] (lit "job")
            (lit "Turkish") empty_world)
     = Throw (lit "rate limit reached")
  /\ map (fun r => job_status (snd r))
         (history (fst (handlePptxTranslation (failing_env sample_deck) []
                          (lit "job") (lit "Turkish") empty_world)))
     = [extracting; translating; translating].
Proof.
  assert (batch_starts (gather sample_deck) = [0%nat] ++ 50%nat :: [100%nat]) as H2
    by (vm_compute; reflexivity).
  assert (Forall (fun i => exists content,
                    answer (failing_env sample_deck) (lit "Turkish")
                      (gather sample_deck) i = Ok content) [0%nat]) as H3.
  { constructor; [|constructor]. eexists. vm_compute. reflexivity. }
  assert (answer (failing_env sample_deck) (lit "Turkish") (gather sample_deck) 50
          = Throw (lit "rate limit reached")) as H4 by (vm_compute; reflexivity).
  split; [reflexivity|]. split; [exact H2|]. split; [exact H3|]. split; [exact H4|].
  rewrite (pptx_stops_at_failing_batch (failing_env sample_deck) [] (lit "job")
             (lit "Turkish") empty_world sample_deck [0%nat] [100%nat] 50
             (lit "rate limit reached") eq_refl H2 H3 H4).
  split; [reflexivity|]. cbn [fst]. rewrite record_all_history.
  vm_compute. reflexivity.
Defined.

(** The second of the three batches of a deck of 120 units. *)
Lemma percentages_rise_to_100_witness :
  (length (repeat (lit "text") 120) <= 100 * chunkSize)%nat
  /\ (1 < totalChunks (repeat (lit "text") 120))%nat
  /\ exists p : Z,
      percentage (repeat (lit "text") 120) (1 * chunkSize) = Finite p
      /\ (1 <= p <= 100)%Z
      /\ (2%nat = totalChunks (repeat (lit "text") 120) -> p = 100%Z)
      /\ ((2 < totalChunks (repeat (lit "text") 120))%nat ->
          exists p', percentage (repeat (lit "text") 120) (2 * chunkSize) = Finite p'
                     /\ (p <= p')%Z).
Proof.
  assert (length (repeat (lit "text") 120) <= 100 * chunkSize)%nat as H1
    by (rewrite repeat_length; unfold chunkSize; lia).
  assert (1 < totalChunks (repeat (lit "text") 120))%nat as H2
    by (unfold totalChunks; rewrite repeat_length; cbn; lia).
  split; [exact H1|]. split; [exact H2|].
  exact (percentages_rise_to_100 (repeat (lit "text") 120) 1 H1 H2).
Defined.

(** The status after the request for [notes.txt]. *)
Lemma status_after_request_witness :
  js_or (body_jobId sample_request) (now (sample_env [] (lit "Hello world")))
  <> lit "__proto__"
  /\ exists j,
      status_route (lit "1700000000000")
        (fst (translate_route (sample_env [] (lit "Hello world")) sample_request
                empty_world))
      = Job_record j
      /\ outcome sample_request
           (snd (translate_route (sample_env [] (lit "Hello world")) sample_request
                   empty_world)) j.
Proof.
  assert (js_or (body_jobId sample_request) (now (sample_env [] (lit "Hello world")))
          <> lit "__proto__") as H by discriminate.
  split; [exact H|].
  exact (proj1 (status_after_request (sample_env [] (lit "Hello world"))
                  sample_request empty_world H)).
Defined.

(** The document laid out for the sample text. *)
Lemma pdf_draws_are_tidy_witness :
  exists w' doc,
    handlePdfTranslation (sample_env [] sample_text) [] (lit "job") (lit "Turkish")
      empty_world = (w', Ok doc)
    /\ Forall (fun d => draw_x d = margin /\ (draw_page d < pages doc)%nat
                        /\ seven_bit (draw_text d) /\ one_line (draw_text d))
              (draws doc).
Proof.
  eexists _, _. split; [vm_compute; reflexivity|].
  eapply (pdf_draws_are_tidy (sample_env [] sample_text) [] (lit "job") (lit "Turkish")
           empty_world).
  vm_compute. reflexivity.
Defined.

Lemma pdf_lines_fit_the_text_area_witness :
  (forall text size, exists wd,
      widthOfTextAtSize (sample_env [] sample_text) text size = Ok wd)
  /\ exists w' doc,
      handlePdfTranslation (sample_env [] sample_text) [] (lit "job") (lit "Turkish")
        empty_world = (w', Ok doc)
      /\ Forall (fun d => single_word (draw_text d)
                          \/ fits (sample_env [] sample_text) (draw_text d))
                (draws doc).
Proof.
  assert (forall text size, exists wd,
             widthOfTextAtSize (sample_env [] sample_text) text size = Ok wd) as H
    by (intros; eexists; reflexivity).
  split; [exact H|].
  eexists _, _. split; [vm_compute; reflexivity|].
  eapply (pdf_lines_fit_the_text_area (sample_env [] sample_text) H [] (lit "job")
           (lit "Turkish") empty_world).
  vm_compute. reflexivity.
Defined.

Lemma pdf_pages_are_bounded_by_draws_witness :
  page_fits (sample_env [] sample_text)
  /\ exists w' doc,
      handlePdfTranslation (sample_env [] sample_text) [] (lit "job") (lit "Turkish")
        empty_world = (w', Ok doc)
      /\ (pages doc <= S (length (draws doc)))%nat.
Proof.
  assert (page_fits (sample_env [] sample_text)) as H
    by (unfold page_fits; vm_compute; discriminate).
  split; [exact H|].
  eexists _, _. split; [vm_compute; reflexivity|].
  eapply (pdf_pages_are_bounded_by_draws (sample_env [] sample_text) H [] (lit "job")
           (lit "Turkish") empty_world).
  vm_compute. reflexivity.
Defined.

(** A presentation whose only slide holds a blank run. *)
Lemma pptx_without_text_is_refused_witness :
  req_file pptx_request = Some {| originalname := lit "Deck.PPTX"; file_content := [] |}
  /\ isPptx (sample_env blank_deck [])
       {| originalname := lit "Deck.PPTX"; file_content := [] |} = true
  /\ readZip (sample_env blank_deck []) [] = Ok blank_deck
  /\ Forall (fun e => entry_units e = []) blank_deck
  /\ snd (translate_route (sample_env blank_deck []) pptx_request empty_world)
     = {| status_code := 500;
          res_body := Text (lit "An error occurred during translation: "
                            ++ lit "No text found in presentation.") |}.
Proof.
  assert (Forall (fun e => entry_units e = []) blank_deck) as H
    by (repeat constructor).
  repeat (split; [first [reflexivity | exact H]|]).
  now rewrite (pptx_without_text_is_refused (sample_env blank_deck []) pptx_request
                 {| originalname := lit "Deck.PPTX"; file_content := [] |}
                 empty_world blank_deck eq_refl eq_refl eq_refl H).
Defined.

(** A PDF whose text layer holds a space and a line feed. *)
Lemma pdf_without_text_is_refused_witness :
  req_file pdf_request
  = Some {| originalname := lit "paper.pdf"; file_content := lit "%PDF-1.7" |}
  /\ isPptx (sample_env [] [32; 10]%N)
       {| originalname := lit "paper.pdf"; file_content := lit "%PDF-1.7" |} = false
  /\ pdfParse (sample_env [] [32; 10]%N) (lit "%PDF-1.7") = Ok [32; 10]%N
  /\ forallb is_space [32; 10]%N = true
  /\ snd (translate_route (sample_env [] [32; 10]%N) pdf_request empty_world)
     = {| status_code := 500;
          res_body := Text (lit "An error occurred during translation: "
                            ++ lit "Could not extract text from PDF.") |}.
Proof.
  repeat (split; [reflexivity|]).
  now rewrite (pdf_without_text_is_refused (sample_env [] [32; 10]%N) pdf_request
                 {| originalname := lit "paper.pdf"; file_content := lit "%PDF-1.7" |}
                 empty_world [32; 10]%N eq_refl eq_refl eq_refl eq_refl).
Defined.

(** A PDF that the oracle answers with no content. *)
Lemma pdf_empty_translation_witness :
  req_file pdf_request
  = Some {| originalname := lit "paper.pdf"; file_content := lit "%PDF-1.7" |}
  /\ isPptx (silent_env (lit "Hello"))
       {| originalname := lit "paper.pdf"; file_content := lit "%PDF-1.7" |} = false
  /\ pdfParse (silent_env (lit "Hello")) (lit "%PDF-1.7") = Ok (lit "Hello")
  /\ truthy (trim (lit "Hello")) = true
  /\ oracle (silent_env (lit "Hello"))
       (pdf_system_prompt (js_or (body_targetLanguage pdf_request) (lit "Turkish")))
       (lit "Hello") = Ok None
  /\ snd (translate_route (silent_env (lit "Hello")) pdf_request empty_world)
     = {| status_code := 500;
          res_body := Text (lit "An error occurred during translation: "
                            ++ lit "Empty translation received from Groq.") |}.
Proof.
  repeat (split; [reflexivity|]).
  now rewrite (proj1 (pdf_empty_translation (silent_env (lit "Hello")) pdf_request
                        {| originalname := lit "paper.pdf";
                           file_content := lit "%PDF-1.7" |}
                        empty_world (lit "Hello") None
                        eq_refl eq_refl eq_refl eq_refl eq_refl) eq_refl).
Defined.

(** The entries recorded for the sample archive by the pass-through oracle. *)
Lemma translations_are_numbered_witness :
  exists w' translations,
    translate_from (sample_env sample_archive []) (lit "job") (lit "Turkish")
      (gather sample_archive) 0 empty_world ∅ = (w', Ok translations)
    /\ forall k v, translations !! k = Some v -> numbered k v.
Proof.
  eexists _, _. split.
  - rewrite translate_from_start. vm_compute. reflexivity.
  - eapply (translations_are_numbered (sample_env sample_archive []) (lit "job")
             (lit "Turkish") (gather sample_archive) empty_world).
    rewrite translate_from_start. vm_compute. reflexivity.
Defined.

(** With the sample font a text of at most 82 units fits the text area. *)
Lemma sample_fits z text s :
  (length s <= 82)%nat -> fits (sample_env z text) s.
Proof.
  intros Hs. eexists. split; [reflexivity|].
  unfold maxWidth, page_width, margin. cbn [sample_env pageSize fst].
  unfold Qle. cbn. lia.
Qed.

(** Two short lines, the second after an empty line and with leading
    spaces. *)
Lemma layout_without_wrapping_witness :
  no_wrapping (sample_env [] []) (lit "Bonjour le monde" ++ [10; 10]%N ++ lit "  fin")
  /\ exists c,
      layout (sample_env [] []) (lit "Bonjour le monde" ++ [10; 10]%N ++ lit "  fin")
      = (c, Ok tt)
      /\ map draw_text (cur_draws c) = [lit "Bonjour le monde"; lit "fin"].
Proof.
  assert (no_wrapping (sample_env [] [])
            (lit "Bonjour le monde" ++ [10; 10]%N ++ lit "  fin")) as H.
  { intros line a s b Hin Hline. apply sample_fits.
    apply (f_equal (@length N)) in Hline. rewrite !length_app in Hline.
    change (split 10 (lit "Bonjour le monde" ++ [10; 10]%N ++ lit "  fin"))
      with [lit "Bonjour le monde"; []; lit "  fin"] in Hin.
    destruct Hin as [<-|[<-|[<-|[]]]]; cbn [length lit] in Hline; lia. }
  split; [exact H|].
  destruct (layout_without_wrapping (sample_env [] []) _ H) as (c & Hc & Hd).
  exists c. split; [exact Hc|]. rewrite Hd. reflexivity.
Defined.

(** The prompt of the sample archive, read back. *)
Lemma prompt_reads_back_witness :
  Forall one_line (gather sample_archive)
  /\ (0 < length (gather sample_archive))%nat
  /\ map line_match
       (split 10 (promptText 0 (chunk_at (gather sample_archive) 0)))
     = [ Some (lit "0", lit "Hello"); Some (lit "1", lit "big world");
         Some (lit "2", lit "d" ++ [0xFC%N] ++ lit "nya") ].
Proof.
  assert (Forall one_line (gather sample_archive)) as H1
    by (vm_compute; repeat constructor).
  assert (0 < length (gather sample_archive))%nat as H2 by (vm_compute; lia).
  split; [exact H1|]. split; [exact H2|].
  rewrite (prompt_reads_back (gather sample_archive) 0 H1 H2). reflexivity.
Defined.

(** The sample text through the pass-through oracle. *)
Lemma pdf_succeeds_witness :
  pdfParse (sample_env [] sample_text) [] = Ok sample_text
  /\ truthy (trim sample_text) = true
  /\ oracle (sample_env [] sample_text) (pdf_system_prompt (lit "Turkish")) sample_text
     = Ok (Some sample_text)
  /\ js_or (Some sample_text) [] <> []
  /\ (forall s size, exists wd,
        widthOfTextAtSize (sample_env [] sample_text) s size = Ok wd)
  /\ exists doc,
      snd (handlePdfTranslation (sample_env [] sample_text) [] (lit "job")
             (lit "Turkish") empty_world) = Ok doc.
Proof.
  assert (truthy (trim sample_text) = true) as H2 by (vm_compute; reflexivity).
  assert (js_or (Some sample_text) [] <> []) as H4 by (vm_compute; discriminate).
  assert (forall s size, exists wd,
             widthOfTextAtSize (sample_env [] sample_text) s size = Ok wd) as H5
    by (intros; eexists; reflexivity).
  split; [reflexivity|]. split; [exact H2|]. split; [reflexivity|].
  split; [exact H4|]. split; [exact H5|].
  destruct (pdf_succeeds (sample_env [] sample_text) [] (lit "job") (lit "Turkish")
              empty_world sample_text (Some sample_text) eq_refl H2 eq_refl H4 H5)
    as (c & _ & H).
  rewrite H. eexists. reflexivity.
Defined.

End Instances.
